(** * Batch generation orchestrator: a shallow embedding

    The Python scripts under [scripts/] drive an image-edit provider
    ([gemini_weather_pipeline.py], [gemini_weather_pairs.py]) and a
    video-synthesis provider ([veo_video_batch.py], [veo_video_generate.py])
    over a directory tree.  This file embeds their orchestration logic:

    - text and [pathlib] paths ([PyStr], [PyPath]);
    - the file system as a finite map from paths to nodes ([FS]);
    - YAML documents and the configuration loaders ([Config]);
    - an outcome/state monad threading the file system and a trace of
      observable events (sleeps, provider calls, prompt loads) ([Eff]);
    - the image pipeline ([Pipeline], [Pairs]) and the video batch
      ([Veo], [VeoBatch]).

    Python floats are modelled by exact rationals [Q]; the provider, the
    YAML parser and [Path.resolve] are parameters of the sections that use
    them. *)

From Stdlib Require Import Ascii String QArith Lqa.
From stdpp Require Import gmap strings list sorting.

Local Open Scope Z_scope.
Local Open Scope nat_scope.

(** ** Python strings *)

Module PyStr.

(** [needle in s] for Python [str]. *)
Fixpoint contains (needle s : string) : bool :=
  String.prefix needle s ||
  match s with
  | EmptyString => false
  | String _ s' => contains needle s'
  end.

(** ASCII case folding of one character ([str.lower] restricted to the
    ASCII range: file names are byte strings here). *)
Definition lower_ascii (c : ascii) : ascii :=
  let n := Ascii.nat_of_ascii c in
  if (65 <=? n) && (n <=? 90) then Ascii.ascii_of_nat (n + 32) else c.

Fixpoint lower (s : string) : string :=
  match s with
  | EmptyString => EmptyString
  | String c s' => String (lower_ascii c) (lower s')
  end.

Definition upper_ascii (c : ascii) : ascii :=
  let n := Ascii.nat_of_ascii c in
  if (97 <=? n) && (n <=? 122) then Ascii.ascii_of_nat (n - 32) else c.

Fixpoint upper (s : string) : string :=
  match s with
  | EmptyString => EmptyString
  | String c s' => String (upper_ascii c) (upper s')
  end.

(** [str.strip()]: drop leading and trailing white space. *)
Fixpoint lstrip (s : string) : string :=
  match s with
  | EmptyString => EmptyString
  | String c s' => if Ascii.is_space c then lstrip s' else s
  end.

Definition strip (s : string) : string :=
  String.rev (lstrip (String.rev (lstrip s))).

(** [s.rfind(".")] as a split: the text before the last dot and the text
    from the last dot on. *)
Fixpoint rsplit_dot (s : string) : option (string * string) :=
  match s with
  | EmptyString => None
  | String c s' =>
      match rsplit_dot s' with
      | Some (a, b) => Some (String c a, b)
      | None =>
          if Ascii.eqb c "."%char then Some (EmptyString, s) else None
      end
  end.

(** [s.split("/")]. *)
Fixpoint split_slash (cur : string) (s : string) : list string :=
  match s with
  | EmptyString => [String.rev cur]
  | String c s' =>
      if Ascii.eqb c "/"%char then String.rev cur :: split_slash EmptyString s'
      else split_slash (String c cur) s'
  end.

End PyStr.

(** ** [pathlib] paths

    A path is the list of its [parts]; an absolute path starts with the
    part ["/"], as [PurePosixPath.parts] does. *)

Abbreviation Path := (list string).

Module PyPath.

Definition is_absolute (p : Path) : bool :=
  match p with
  | r :: _ => String.eqb r "/"
  | [] => false
  end.

(** [Path(value)] for a string: split on the separator, drop empty and
    ["."] components, keep a leading root. *)
Definition of_string (s : string) : Path :=
  let comps :=
    filter (λ c, c ≠ EmptyString ∧ c ≠ "."%string)
           (PyStr.split_slash EmptyString s) in
  if String.prefix "/" s then "/"%string :: comps else comps.

(** [a / b] *)
Definition joinpath (a b : Path) : Path :=
  if is_absolute b then b else a ++ b.

(** [p.name]: the final component, empty for the root and for [Path(".")]. *)
Definition name (p : Path) : string :=
  match reverse p with
  | n :: _ => if String.eqb n "/" then EmptyString else n
  | [] => EmptyString
  end.

(** [p.parent] *)
Definition parent (p : Path) : Path :=
  match reverse p with
  | n :: rest => if String.eqb n "/" then p else reverse rest
  | [] => []
  end.

(** [p.suffix]: from the last dot of the name, when that dot is neither
    the first nor the last character. *)
Definition suffix (p : Path) : string :=
  match PyStr.rsplit_dot (name p) with
  | Some (a, b) =>
      if bool_decide (a ≠ EmptyString) && (1 <? String.length b)
      then b else EmptyString
  | None => EmptyString
  end.

(** [p.stem] *)
Definition stem (p : Path) : string :=
  match PyStr.rsplit_dot (name p) with
  | Some (a, b) =>
      if bool_decide (a ≠ EmptyString) && (1 <? String.length b)
      then a else name p
  | None => name p
  end.

(** [p.relative_to(root)]: [None] stands for the [ValueError]. *)
Fixpoint relative_to (p root : Path) : option Path :=
  match root, p with
  | [], _ => Some p
  | r :: root', x :: p' => if String.eqb r x then relative_to p' root' else None
  | _ :: _, [] => None
  end.

(** The order [sorted] uses on paths: lexicographic on the parts, each
    part compared as a string. *)
Fixpoint leb (p q : Path) : bool :=
  match p, q with
  | [], _ => true
  | _ :: _, [] => false
  | x :: p', y :: q' =>
      match String.compare x y with
      | Lt => true
      | Eq => leb p' q'
      | Gt => false
      end
  end.

Definition le (p q : Path) : Prop := leb p q.

#[global] Instance le_dec : RelDecision le.
Proof. intros p q. unfold le. apply _. Defined.

(** A single relative component: no separator, not empty, not ["."]. *)
Fixpoint has_slash (s : string) : bool :=
  match s with
  | EmptyString => false
  | String c s' => Ascii.eqb c "/"%char || has_slash s'
  end.

Definition is_component (s : string) : bool :=
  negb (has_slash s) && negb (String.eqb s EmptyString) && negb (String.eqb s ".").

(** The suffix test shared by every image listing. *)
Definition is_image (p : Path) : bool :=
  let s := PyStr.lower (suffix p) in
  bool_decide (s = ".png"%string ∨ s = ".jpg"%string ∨ s = ".jpeg"%string).

End PyPath.



(** ** Exceptions

    The Python exceptions the scripts raise or let through.  [External]
    stands for whatever the provider SDK, the HTTP client or the image
    library raises. *)

Inductive Exn :=
  | ValueError (msg : string)
  | KeyError (key : string)
  | TypeError (msg : string)
  | AttributeError (msg : string)
  | RuntimeError (msg : string)
  | EnvironmentError (msg : string)
  | FileNotFoundError (p : Path)
  | FileExistsError (p : Path)
  | NotADirectoryError (p : Path)
  | IsADirectoryError (p : Path)
  | External (tag : string).

(** ** The file system *)

Module FS.

Inductive Node :=
  | File (content : string)
  | Dir.

Abbreviation t := (gmap Path Node).

(** The current directory [Path(".")] and the root always exist. *)
Definition node_at (fs : t) (p : Path) : option Node :=
  match p with
  | [] => Some Dir
  | [r] => if String.eqb r "/" then Some Dir else fs !! p
  | _ => fs !! p
  end.

(** The two paths that are not entries of the map. *)
Definition special (p : Path) : Prop := p = [] ∨ p = ["/"%string].

Definition exists_ (fs : t) (p : Path) : bool :=
  match node_at fs p with Some _ => true | None => false end.

Definition is_file (fs : t) (p : Path) : bool :=
  match node_at fs p with Some (File _) => true | _ => false end.

Definition is_dir (fs : t) (p : Path) : bool :=
  match node_at fs p with Some Dir => true | _ => false end.

(** [p.mkdir(parents=True, exist_ok=True)]: walk the prefixes of [p] from
    the top, creating the missing ones; a file in the way raises. *)
Fixpoint mkdirs (fs : t) (pre rest : Path) : Exn + t :=
  match rest with
  | [] => inr fs
  | c :: rest' =>
      let q := pre ++ [c] in
      match node_at fs q with
      | Some Dir => mkdirs fs q rest'
      | Some (File _) =>
          inl (match rest' with
               | [] => FileExistsError q
               | _ :: _ => NotADirectoryError q
               end)
      | None => mkdirs (<[q := Dir]> fs) q rest'
      end
  end.

Definition mkdir_parents (fs : t) (p : Path) : Exn + t := mkdirs fs [] p.

(** [p.write_bytes(data)] / [open(p, "wb").write(data)] *)
Definition write_bytes (fs : t) (p : Path) (data : string) : Exn + t :=
  match node_at fs (PyPath.parent p) with
  | Some Dir =>
      match node_at fs p with
      | Some Dir => inl (IsADirectoryError p)
      | _ => inr (<[p := File data]> fs)
      end
  | Some (File _) => inl (NotADirectoryError p)
  | None => inl (FileNotFoundError p)
  end.

(** [open(p, "rb").read()] *)
Definition read_bytes (fs : t) (p : Path) : Exn + string :=
  match node_at fs p with
  | Some (File c) => inr c
  | Some Dir => inl (IsADirectoryError p)
  | None => inl (FileNotFoundError p)
  end.

(** The entries directly inside [d], and those anywhere below it, in the
    order the finite map lists them. *)
Definition is_child (d q : Path) : bool :=
  bool_decide (length q = S (length d) ∧ take (length d) q = d).

Definition is_below (d q : Path) : bool :=
  bool_decide (length d < length q ∧ take (length d) q = d).

Definition children (fs : t) (d : Path) : list Path :=
  filter (λ q, is_child d q) (map_to_list fs).*1.

Definition descendants (fs : t) (d : Path) : list Path :=
  filter (λ q, is_below d q) (map_to_list fs).*1.

(** The regular files of a file system, with their contents. *)
Definition is_file_node (n : Node) : bool :=
  match n with File _ => true | Dir => false end.

Definition files (fs : t) : gmap Path Node :=
  filter (λ kv, is_file_node kv.2) fs.

End FS.

(** ** Reference-frame selection ([veo_video_batch.py]) *)

Module Frames.

Definition has_0000 (p : Path) : bool :=
  PyStr.contains "0000" (PyPath.stem p).

Definition has_tail_marker (p : Path) : bool :=
  PyStr.contains "0008" (PyPath.stem p)
  || PyStr.contains "last" (PyStr.lower (PyPath.stem p)).

(** [pick_reference_frames]: the two [for ... break] loops are searches
    for the first match, the second over [reversed(frames)]. *)
Definition pick_reference_frames (frames : list Path) : Exn + (Path * Path) :=
  match frames with
  | [] => inl (ValueError "No frames provided")
  | f0 :: _ =>
      let first := f0 in
      let last := List.last frames f0 in
      let first :=
        match List.find has_0000 frames with
        | Some candidate => candidate
        | None => first
        end in
      let last :=
        match List.find has_tail_marker (reverse frames) with
        | Some candidate => candidate
        | None => last
        end in
      inr (first, if 1 <? length frames then last else first)
  end.

End Frames.

(** Vocabulary for the selection policy: the earliest (latest) element of a
    list that satisfies a test, and the least (greatest) element for the
    path order. *)
Module Policy.

Definition earliest_with (P : Path → bool) (l : list Path) (x : Path) : Prop :=
  ∃ pre post, l = pre ++ x :: post ∧ P x = true ∧ Forall (λ f, P f = false) pre.

Definition latest_with (P : Path → bool) (l : list Path) (x : Path) : Prop :=
  ∃ pre post, l = pre ++ x :: post ∧ P x = true ∧ Forall (λ f, P f = false) post.

Definition none_with (P : Path → bool) (l : list Path) : Prop :=
  Forall (λ f, P f = false) l.

Definition lex_first (l : list Path) (x : Path) : Prop :=
  x ∈ l ∧ Forall (λ f, PyPath.le x f) l.

Definition lex_last (l : list Path) (x : Path) : Prop :=
  x ∈ l ∧ Forall (λ f, PyPath.le f x) l.

End Policy.

(** ** Results that may raise *)

#[global] Instance exn_bind : MBind (sum Exn) :=
  λ A B f m, match m with inl e => inl e | inr a => f a end.
#[global] Instance exn_ret : MRet (sum Exn) := λ A a, inr a.
#[global] Instance exn_fmap : FMap (sum Exn) :=
  λ A B f m, match m with inl e => inl e | inr a => inr (f a) end.

(** ** YAML documents, as [yaml.safe_load] returns them *)

Module Yaml.

#[warnings="-register-all"]
Inductive t :=
  | Null
  | Bool (b : bool)
  | Int (z : Z)
  | Float (q : Q)
  | Str (s : string)
  | Seq (items : list t)
  | Map (m : gmap string t).

(** Python truth value. *)
Definition truthy (v : t) : bool :=
  match v with
  | Null => false
  | Bool b => b
  | Int z => negb (z =? 0)%Z
  | Float q => negb (Qeq_bool q 0)
  | Str s => negb (String.eqb s EmptyString)
  | Seq items => match items with [] => false | _ => true end
  | Map m => negb (bool_decide (m = ∅))
  end.

(** [a or b] *)
Definition or_ (a b : t) : t := if truthy a then a else b.

(** [data.get(key, default)]; only mappings have [get]. *)
Definition get (data : t) (key : string) (dflt : t) : Exn + t :=
  match data with
  | Map m => inr (default dflt (m !! key))
  | _ => inl (AttributeError "get")
  end.

(** [data[key]] with a string key. *)
Definition getitem (data : t) (key : string) : Exn + t :=
  match data with
  | Map m => match m !! key with Some v => inr v | None => inl (KeyError key) end
  | _ => inl (TypeError "subscript")
  end.

(** [for item in v]: sequences yield their items, mappings their keys,
    strings their characters. *)
Definition iter (v : t) : Exn + list t :=
  match v with
  | Seq items => inr items
  | Map m => inr (Str <$> (map_to_list m).*1)
  | Str s => inr ((λ c, Str (String c EmptyString)) <$> list_ascii_of_string s)
  | _ => inl (TypeError "not iterable")
  end.

(** A value the dataclass annotates as [str]. *)
Definition as_str (v : t) : Exn + string :=
  match v with
  | Str s => inr s
  | _ => inl (TypeError "expected str")
  end.

Section conversions.
(** [float("...")] and [int("...")] on text are left to the parameters
    [float_of_str] and [int_of_str]. *)
Variable float_of_str : string → option Q.
Variable int_of_str : string → option Z.

Definition to_float (v : t) : Exn + Q :=
  match v with
  | Bool b => inr (if b then 1%Q else 0%Q)
  | Int z => inr (inject_Z z)
  | Float q => inr q
  | Str s =>
      match float_of_str s with
      | Some q => inr q
      | None => inl (ValueError "could not convert string to float")
      end
  | _ => inl (TypeError "float() argument")
  end.

(** [int] truncates a float towards zero. *)
Definition to_int (v : t) : Exn + Z :=
  match v with
  | Bool b => inr (if b then 1%Z else 0%Z)
  | Int z => inr z
  | Float q => inr (Qnum q ÷ Zpos (Qden q))%Z
  | Str s =>
      match int_of_str s with
      | Some z => inr z
      | None => inl (ValueError "invalid literal for int()")
      end
  | _ => inl (TypeError "int() argument")
  end.
End conversions.

End Yaml.

(** ** Configuration loaders *)

Section config.

Variable float_of_str : string → option Q.
Variable int_of_str : string → option Z.
(** [Path.resolve()]: normalisation against the working directory. *)
Variable resolve : Path → Path.

(** [_resolve_path] / [resolve_relative] on a value annotated [str]. *)
Definition resolve_path (base : Path) (value : Yaml.t) : Exn + Path :=
  s ← Yaml.as_str value;
  let path := PyPath.of_string s in
  mret (if PyPath.is_absolute path then path
        else resolve (PyPath.joinpath base path)).

(** [resolve_relative] of [veo_video_batch.py]: [None] passes through. *)
Definition resolve_relative_opt (base : Path) (value : Yaml.t) : Exn + option Path :=
  match value with
  | Yaml.Null => inr None
  | _ => Some <$> resolve_path base value
  end.

(** *** Image variants, shared by the pipeline and the folder script *)

Record VariantConfig := {
  name : string;
  prompt_path : Path;
  creativity : Q;
  fidelity : Q;
}.

Definition load_variant (cfg_dir : Path) (item : Yaml.t) : Exn + VariantConfig :=
  n ← Yaml.getitem item "name" ≫= Yaml.as_str;
  p ← Yaml.getitem item "prompt_file" ≫= resolve_path cfg_dir;
  c ← Yaml.get item "creativity" (Yaml.Float 0.2) ≫= Yaml.to_float float_of_str;
  f ← Yaml.get item "fidelity" (Yaml.Float 0.7) ≫= Yaml.to_float float_of_str;
  mret {| name := n; prompt_path := p; creativity := c; fidelity := f |}.

Definition load_variants (cfg_dir : Path) (data : Yaml.t) : Exn + list VariantConfig :=
  items ← Yaml.get data "variants" (Yaml.Seq []) ≫= Yaml.iter;
  mapM (load_variant cfg_dir) items.

(** [api_key_path], resolved only when the document gives a true value. *)
Definition load_api_key_path (cfg_dir : Path) (data : Yaml.t) : Exn + option Path :=
  v ← Yaml.get data "api_key_path" Yaml.Null;
  if Yaml.truthy v then Some <$> resolve_path cfg_dir v else mret None.

(** *** [gemini_weather_pipeline.load_config] *)

Record PipelineConfig := {
  input_root : Path;
  output_root : Path;
  api_key_path : option Path;
  model_name : Yaml.t;
  output_width : Z;
  output_height : Z;
  variants : list VariantConfig;
}.

Definition pipeline_load_config (cfg_dir : Path) (data : Yaml.t) : Exn + PipelineConfig :=
  vs ← load_variants cfg_dir data;
  i ← Yaml.getitem data "input_root" ≫= resolve_path cfg_dir;
  o ← Yaml.getitem data "output_root" ≫= resolve_path cfg_dir;
  k ← load_api_key_path cfg_dir data;
  m ← Yaml.get data "model_name" (Yaml.Str "gemini-2.5-flash-image");
  w ← Yaml.get data "output_width" (Yaml.Int 1024) ≫= Yaml.to_int int_of_str;
  h ← Yaml.get data "output_height" (Yaml.Int 1024) ≫= Yaml.to_int int_of_str;
  mret {| input_root := i; output_root := o; api_key_path := k;
          model_name := m; output_width := w; output_height := h;
          variants := vs |}.

(** *** [gemini_weather_pairs.load_config] *)

Record AppConfig := {
  app_model_name : Yaml.t;
  app_output_width : Z;
  app_output_height : Z;
  app_api_key_path : option Path;
  app_variants : list VariantConfig;
}.

Definition pairs_load_config (cfg_dir : Path) (data : Yaml.t) : Exn + AppConfig :=
  vs ← load_variants cfg_dir data;
  k ← load_api_key_path cfg_dir data;
  m ← Yaml.get data "model_name" (Yaml.Str "gemini-2.5-flash-image");
  w ← Yaml.get data "output_width" (Yaml.Int 1344) ≫= Yaml.to_int int_of_str;
  h ← Yaml.get data "output_height" (Yaml.Int 768) ≫= Yaml.to_int int_of_str;
  mret {| app_model_name := m; app_output_width := w; app_output_height := h;
          app_api_key_path := k; app_variants := vs |}.

(** *** [veo_video_batch.load_batch_config]

    The optional fields keep the document's value ([Null] for Python's
    [None]); [construct_job_config] interprets them. *)

Record VideoVariant := {
  v_name : string;
  v_prompt_path : Path;
  v_duration_seconds : Yaml.t;
  v_aspect_ratio : Yaml.t;
  v_resolution : Yaml.t;
  v_use_first_frame_reference : Yaml.t;
  v_use_last_frame : Yaml.t;
  v_reference_type : Yaml.t;
}.

Record BatchConfig := {
  b_model_name : Yaml.t;
  b_api_key_path : option Path;
  b_input_root : Path;
  b_output_root : Path;
  b_defaults : Yaml.t;
  b_variants : list VideoVariant;
}.

Definition load_video_variant (cfg_dir : Path) (item : Yaml.t) : Exn + VideoVariant :=
  n ← Yaml.getitem item "name" ≫= Yaml.as_str;
  p ← Yaml.getitem item "prompt_file" ≫= resolve_path cfg_dir;
  d ← Yaml.get item "duration_seconds" Yaml.Null;
  a ← Yaml.get item "aspect_ratio" Yaml.Null;
  r ← Yaml.get item "resolution" Yaml.Null;
  uf ← Yaml.get item "use_first_frame_reference" Yaml.Null;
  ul ← Yaml.get item "use_last_frame" Yaml.Null;
  rt ← Yaml.get item "reference_type" Yaml.Null;
  mret {| v_name := n; v_prompt_path := p; v_duration_seconds := d;
          v_aspect_ratio := a; v_resolution := r;
          v_use_first_frame_reference := uf; v_use_last_frame := ul;
          v_reference_type := rt |}.

Definition load_batch_config (cfg_dir : Path) (data : Yaml.t) : Exn + BatchConfig :=
  items ← Yaml.get data "variants" (Yaml.Seq []) ≫= Yaml.iter;
  vs ← mapM (load_video_variant cfg_dir) items;
  m ← Yaml.get data "model_name" (Yaml.Str "models/veo-3.1-generate-preview");
  k ← Yaml.get data "api_key_path" Yaml.Null ≫= resolve_relative_opt cfg_dir;
  i0 ← Yaml.get data "input_root" Yaml.Null;
  i ← resolve_path cfg_dir (Yaml.or_ i0 (Yaml.Str "outputimg"));
  o0 ← Yaml.get data "output_root" Yaml.Null;
  o ← resolve_path cfg_dir (Yaml.or_ o0 (Yaml.Str "outputmp4"));
  d ← Yaml.get data "defaults" (Yaml.Map ∅);
  mret {| b_model_name := m; b_api_key_path := k; b_input_root := i;
          b_output_root := o; b_defaults := d; b_variants := vs |}.

(** The duration [construct_job_config] resolves:
    [int(variant_cfg.duration_seconds or defaults.get("duration_seconds", 6))]. *)
Definition resolve_duration (defaults : Yaml.t) (v : VideoVariant) : Exn + Z :=
  d ← (if Yaml.truthy (v_duration_seconds v) then mret (v_duration_seconds v)
       else Yaml.get defaults "duration_seconds" (Yaml.Int 6));
  Yaml.to_int int_of_str d.

End config.

(** ** Effects

    A run threads the file system and a chronological trace of what an
    observer outside the process sees: sleeps, prompt-file loads and calls
    to the provider.  Exceptions keep the state reached when they were
    raised.  [Diverge] marks a polling loop cut off by its fuel. *)

Module Eff.

(** What [call_gemini_edit] sends. *)
Record GenArgs := {
  g_model_name : Yaml.t;
  g_prompt : string;
  g_image_bytes : string;
  g_creativity : Q;
  g_fidelity : Q;
  g_width : Z;
  g_height : Z;
}.

(** What [generate_videos] sends. *)
Record SubmitArgs := {
  s_model : Yaml.t;
  s_prompt : string;
  s_image : option string;
  s_duration_seconds : Z;
  s_aspect_ratio : option Yaml.t;
  s_resolution : option Yaml.t;
  s_negative_prompt : option string;
  s_last_frame : option string;
  s_reference_images : list (string * string);
}.

Inductive Event :=
  | EvSleep (seconds : Q)
  | EvLoadPrompt (p : Path)
  | EvGenerate (a : GenArgs)
  | EvSubmit (a : SubmitArgs)
  | EvPoll
  | EvFetch (uri : string).

Record World := {
  fs : FS.t;
  trace : list Event;
}.

Inductive Outcome (A : Type) :=
  | Ok (a : A)
  | Raise (e : Exn)
  | Diverge.
Arguments Ok {A} a.
Arguments Raise {A} e.
Arguments Diverge {A}.

Definition M (A : Type) : Type := World → Outcome A * World.

Definition ret {A} (a : A) : M A := λ w, (Ok a, w).

Definition bind {A B} (m : M A) (k : A → M B) : M B :=
  λ w, match m w with
       | (Ok a, w') => k a w'
       | (Raise e, w') => (Raise e, w')
       | (Diverge, w') => (Diverge, w')
       end.

#[global] Instance eff_bind : MBind M := λ A B k m, bind m k.
#[global] Instance eff_ret : MRet M := λ A a, ret a.
#[global] Instance eff_fmap : FMap M := λ A B f m, m ≫= λ a, mret (f a).

Definition raise {A} (e : Exn) : M A := λ w, (Raise e, w).

Definition diverge {A} : M A := λ w, (Diverge, w).

(** A pure step that may raise. *)
Definition lift {A} (r : Exn + A) : M A :=
  match r with inl e => raise e | inr a => ret a end.

(** [try: m except Exception as exc: ...]: the handler receives [inl exc]. *)
Definition try_ {A} (m : M A) : M (Exn + A) :=
  λ w, match m w with
       | (Ok a, w') => (Ok (inr a), w')
       | (Raise e, w') => (Ok (inl e), w')
       | (Diverge, w') => (Diverge, w')
       end.

Definition emit (e : Event) : M unit :=
  λ w, (Ok tt, {| fs := fs w; trace := trace w ++ [e] |}).

Definition get_fs : M FS.t := λ w, (Ok (fs w), w).

Definition get_trace : M (list Event) := λ w, (Ok (trace w), w).

(** A file-system operation that may raise and otherwise updates [fs]. *)
Definition update_fs (op : FS.t → Exn + FS.t) : M unit :=
  λ w, match op (fs w) with
       | inl e => (Raise e, w)
       | inr fs' => (Ok tt, {| fs := fs'; trace := trace w |})
       end.

(** [time.sleep(seconds)]: a negative argument raises [ValueError]
    before anything is waited for. *)
Definition sleep (seconds : Q) : M unit :=
  if Qle_bool 0 seconds then emit (EvSleep seconds)
  else raise (ValueError "sleep length must be non-negative").

Definition mkdir_parents (p : Path) : M unit :=
  update_fs (λ fs, FS.mkdir_parents fs p).

Definition write_bytes (p : Path) (data : string) : M unit :=
  update_fs (λ fs, FS.write_bytes fs p data).

Definition read_bytes (p : Path) : M string :=
  fs ← get_fs; lift (FS.read_bytes fs p).

Definition exists_ (p : Path) : M bool :=
  fs ← get_fs; mret (FS.exists_ fs p).

(** [for x in l: body(x)] *)
Fixpoint for_ {A} (l : list A) (body : A → M unit) : M unit :=
  match l with
  | [] => ret tt
  | x :: l' => _ ← body x; for_ l' body
  end.

(** Counters read off the trace. *)
Definition is_generate (e : Event) : bool :=
  match e with EvGenerate _ => true | _ => false end.
Definition is_submit (e : Event) : bool :=
  match e with EvSubmit _ => true | _ => false end.
Definition is_poll (e : Event) : bool :=
  match e with EvPoll => true | _ => false end.
Definition is_fetch (e : Event) : bool :=
  match e with EvFetch _ => true | _ => false end.
Definition is_provider_call (e : Event) : bool :=
  is_generate e || is_submit e || is_poll e || is_fetch e.

Definition count (P : Event → bool) (tr : list Event) : nat :=
  length (filter (λ e, P e) tr).

Definition is_load_of (p : Path) (e : Event) : bool :=
  match e with EvLoadPrompt q => bool_decide (q = p) | _ => false end.

Definition loads_of (p : Path) (tr : list Event) : nat :=
  count (is_load_of p) tr.

(** Two frame properties of a computation: it leaves the files alone;
    everything it adds to the trace satisfies [P]. *)
Definition keeps_fs {A} (m : M A) : Prop :=
  ∀ w r w', m w = (r, w') → fs w' = fs w.

Definition emits (P : Event → bool) {A} (m : M A) : Prop :=
  ∀ w r w', m w = (r, w') →
    ∃ evs, trace w' = trace w ++ evs ∧ Forall (λ e, P e = true) evs.

(** A computation that ends normally has only added entries. *)
Definition grows {A} (m : M A) : Prop :=
  ∀ w a w', m w = (Ok a, w') → fs w ⊆ fs w'.

(** An invariant [I] of the normal course of a computation, with a
    weaker [Iw] that also holds when it raises or is cut off. *)
Definition preserves (I Iw : World → Prop) {A} (m : M A) : Prop :=
  ∀ w r w', I w → m w = (r, w') → Iw w' ∧ (∀ a, r = Ok a → I w').

End Eff.


(** ** The image pipeline ([gemini_weather_pipeline.py]) *)

Module Pipeline.

Import Eff.

Definition DEFAULT_RATE_LIMIT_QPS : Q := 0.5.
Definition MAX_RETRIES : nat := 3.

Record PromptTemplate := {
  positive : string;
  negative : string;
}.

Definition newline : string := String (Ascii.ascii_of_nat 10) EmptyString.

Definition build_prompt (template : PromptTemplate) : string :=
  positive template +:+ newline +:+ "Negative prompt: " +:+ negative template.

(** [max(a, b)] on floats. *)
Definition py_max (a b : Q) : Q := if Qle_bool b a then a else b.

(** [delay = 1.0 / max(rate_limit_qps, 1e-6)] *)
Definition delay_of (rate_limit_qps : Q) : Q :=
  (1 / py_max rate_limit_qps 1e-6)%Q.

(** [value.strip()] on a document value: only text has [strip]. *)
Definition str_strip (v : Yaml.t) : Exn + string :=
  match v with
  | Yaml.Str s => inr (PyStr.strip s)
  | _ => inl (AttributeError "strip")
  end.

(** The output path of one image under one variant (lines 211-214):
    [output_root / variant.name / relative.parent], then
    [relative.stem + "_" + variant.name + ".png"]. *)
Definition out_dir_of (output_root : Path) (variant_name : string)
    (relative : Path) : Path :=
  PyPath.joinpath
    (PyPath.joinpath output_root (PyPath.of_string variant_name))
    (PyPath.parent relative).

Definition out_path_of (output_root : Path) (variant_name : string)
    (relative : Path) : Path :=
  PyPath.joinpath (out_dir_of output_root variant_name relative)
    (PyPath.of_string (PyPath.stem relative +:+ "_" +:+ variant_name +:+ ".png")).

(** The arguments [process_images] passes to [call_gemini_edit]. *)
Definition request_of (cfg : PipelineConfig) (variant : VariantConfig)
    (prompt image_bytes : string) : GenArgs :=
  {| g_model_name := model_name cfg; g_prompt := prompt;
     g_image_bytes := image_bytes;
     g_creativity := creativity variant;
     g_fidelity := fidelity variant;
     g_width := output_width cfg;
     g_height := output_height cfg |}.

Section run.

(** [os.environ.get("GEMINI_API_KEY")] *)
Variable environ_api_key : option string.
(** [yaml.safe_load] on the text of a file. *)
Variable yaml_safe_load : string → Exn + Yaml.t.
(** The outcome of the [k]-th call of [call_gemini_edit] (request to the
    provider and re-encoding of the answer), counted from 0 over the
    whole trace. *)
Variable gemini : nat → GenArgs → Exn + string.
(** The order in which the operating system lists directory entries. *)
Variable os_order : list Path → list Path.

(** The credential: the environment first, else the trimmed key file. *)
Definition resolve_api_key (key_path : option Path) : M string :=
  let api_key := default EmptyString environ_api_key in
  api_key ←
    (if String.eqb api_key EmptyString then
       match key_path with
       | Some p =>
           ex ← exists_ p;
           if ex : bool then PyStr.strip <$> read_bytes p else mret api_key
       | None => mret api_key
       end
     else mret api_key) : M string;
  if String.eqb api_key EmptyString
  then raise (EnvironmentError "Gemini API key not provided")
  else mret api_key.

Definition load_prompt_template (path : Path) : M PromptTemplate :=
  _ ← emit (EvLoadPrompt path);
  text ← read_bytes path;
  data ← lift (yaml_safe_load text);
  pos ← lift (Yaml.getitem data "positive" ≫= str_strip);
  neg ← lift (Yaml.getitem data "negative" ≫= str_strip);
  mret {| positive := pos; negative := neg |}.

Definition call_gemini_edit (args : GenArgs) : M string :=
  tr ← get_trace;
  _ ← emit (EvGenerate args);
  lift (gemini (count is_generate tr) args).

(** [sorted(root.rglob("*"))], materialised when the loop starts. *)
Definition rglob_sorted (root : Path) : M (list Path) :=
  fs ← get_fs;
  mret (merge_sort PyPath.le (os_order (FS.descendants fs root))).

(** The retry loop, lines 221-238. *)
Fixpoint attempt_loop (attempts : list nat) (delay : Q) (body : M unit)
    : M unit :=
  match attempts with
  | [] => mret tt
  | attempt :: rest =>
      r ← try_ body;
      match r with
      | inr _ => mret tt
      | inl exc =>
          if attempt =? MAX_RETRIES then raise exc
          else
            _ ← sleep (delay * inject_Z (Z.of_nat attempt));
            attempt_loop rest delay body
      end
  end.

(** The [try] block, lines 223-233. *)
Definition generate_and_write (cfg : PipelineConfig) (variant : VariantConfig)
    (prompt : string) (image_bytes : string) (out_path : Path) : M unit :=
  result_bytes ← call_gemini_edit (request_of cfg variant prompt image_bytes);
  write_bytes out_path result_bytes.

(** The body of the inner loop for a yielded image, lines 211-240. *)
Definition process_image (cfg : PipelineConfig) (variant : VariantConfig)
    (prompt : string) (delay : Q) (img_path : Path) : M unit :=
  relative ←
    lift (match PyPath.relative_to img_path (input_root cfg) with
          | Some r => inr r
          | None => inl (ValueError "not in the subpath")
          end);
  _ ← mkdir_parents (out_dir_of (output_root cfg) (name variant) relative);
  let out_path := out_path_of (output_root cfg) (name variant) relative in
  ex ← exists_ out_path;
  if ex : bool then mret tt
  else
    image_bytes ← read_bytes img_path;
    _ ← attempt_loop (seq 1 MAX_RETRIES) delay
          (generate_and_write cfg variant prompt image_bytes out_path);
    sleep delay.

(** One step of the generator [iter_images]: a path of the sorted
    listing is yielded, and processed, when it is an image file. *)
Definition image_step (cfg : PipelineConfig) (variant : VariantConfig)
    (prompt : string) (delay : Q) (path : Path) : M unit :=
  fs ← get_fs;
  if FS.is_file fs path && PyPath.is_image path
  then process_image cfg variant prompt delay path
  else mret tt.

(** [for img_path in iter_images(cfg.input_root)] *)
Definition images_loop (cfg : PipelineConfig) (variant : VariantConfig)
    (prompt : string) (delay : Q) : M unit :=
  listing ← rglob_sorted (input_root cfg);
  for_ listing (image_step cfg variant prompt delay).

(** Lines 204-207: the cached template, else a load that fills the cache. *)
Definition get_template (prompt_cache : gmap Path PromptTemplate) (path : Path)
    : M (PromptTemplate * gmap Path PromptTemplate) :=
  match prompt_cache !! path with
  | Some template => mret (template, prompt_cache)
  | None =>
      template ← load_prompt_template path;
      mret (template, <[path := template]> prompt_cache)
  end.

(** [for variant in cfg.variants], with the prompt cache. *)
Fixpoint variants_loop (cfg : PipelineConfig) (delay : Q)
    (prompt_cache : gmap Path PromptTemplate) (vs : list VariantConfig)
    : M unit :=
  match vs with
  | [] => mret tt
  | variant :: rest =>
      '(template, prompt_cache) ← get_template prompt_cache (prompt_path variant);
      _ ← images_loop cfg variant (build_prompt template) delay;
      variants_loop cfg delay prompt_cache rest
  end.

Definition process_images (cfg : PipelineConfig) (rate_limit_qps : Q)
    : M unit :=
  _ ← resolve_api_key (api_key_path cfg);
  variants_loop cfg (delay_of rate_limit_qps) ∅ (variants cfg).

End run.

End Pipeline.

(** ** One video job ([veo_video_generate.py]) *)

Module Veo.

Import Eff.

Record VideoJobConfig := {
  model_name : Yaml.t;
  api_key_path : option Path;
  first_frame : option Path;
  last_frame : option Path;
  output_path : Path;
  prompt : string;
  negative_prompt : option string;
  duration_seconds : Z;
  aspect_ratio : Yaml.t;
  resolution : Yaml.t;
  poll_interval_seconds : Q;
  reference_type : string;
  use_first_frame_reference : bool;
  use_last_frame : bool;
}.

(** The provider's view of a job.  [result] is [None] when the operation
    carries no result object, and the empty list when the result has no
    generated videos. *)
Record Video := {
  video_bytes : option string;
  uri : option string;
}.

Record Operation := {
  op_name : string;
  done : bool;
  error : option string;
  result : option (list Video);
}.

(** Truth value of an optional text or byte string. *)
Definition nonempty (o : option string) : option string :=
  match o with
  | Some s => if String.eqb s EmptyString then None else Some s
  | None => None
  end.

Definition build_submit_args (cfg : VideoJobConfig)
    (first_bytes last_bytes : option string) : SubmitArgs :=
  {| s_model := model_name cfg;
     s_prompt := prompt cfg;
     s_image := first_bytes;
     s_duration_seconds := duration_seconds cfg;
     s_aspect_ratio :=
       if Yaml.truthy (aspect_ratio cfg) then Some (aspect_ratio cfg) else None;
     s_resolution :=
       if Yaml.truthy (resolution cfg) then Some (resolution cfg) else None;
     s_negative_prompt := nonempty (negative_prompt cfg);
     s_last_frame := if use_last_frame cfg then last_bytes else None;
     s_reference_images :=
       if use_first_frame_reference cfg then
         match first_bytes with
         | Some b => [(b, reference_type cfg)]
         | None => []
         end
       else [] |}.

Section run.

Variable environ_api_key : option string.
(** The provider: the [k]-th submission, the [k]-th status query and the
    [k]-th download, each counted from 0 over the whole trace. *)
Variable veo_submit : nat → SubmitArgs → Exn + Operation.
Variable veo_poll : nat → Operation → Exn + Operation.
Variable http_get : nat → string → Exn + string.

Definition resolve_api_key (key_path : option Path) : M string :=
  let api_key := default EmptyString environ_api_key in
  api_key ←
    (if String.eqb api_key EmptyString then
       match key_path with
       | Some p =>
           ex ← exists_ p;
           if ex : bool then PyStr.strip <$> read_bytes p else mret api_key
       | None => mret api_key
       end
     else mret api_key) : M string;
  if String.eqb api_key EmptyString
  then raise (EnvironmentError "Gemini/VEO API key not provided")
  else mret api_key.

Definition read_image_bytes (path : Path) : M string :=
  ex ← exists_ path;
  if ex : bool then read_bytes path else raise (FileNotFoundError path).

Definition read_frame (frame : option Path) : M (option string) :=
  match frame with
  | Some p => Some <$> read_image_bytes p
  | None => mret None
  end.

Definition generate_videos (args : SubmitArgs) : M Operation :=
  tr ← get_trace;
  _ ← emit (EvSubmit args);
  lift (veo_submit (count is_submit tr) args).

Definition operations_get (op : Operation) : M Operation :=
  tr ← get_trace;
  _ ← emit EvPoll;
  lift (veo_poll (count is_poll tr) op).

Definition requests_get (u : string) : M string :=
  tr ← get_trace;
  _ ← emit (EvFetch u);
  lift (http_get (count is_fetch tr) u).

(** [while not operation.done: sleep; operation = get(operation)].
    [fuel] bounds the number of iterations. *)
Fixpoint poll_loop (fuel : nat) (interval : Q) (operation : Operation)
    : M Operation :=
  if done operation then mret operation
  else
    match fuel with
    | O => diverge
    | S fuel' =>
        _ ← sleep interval;
        operation ← operations_get operation;
        poll_loop fuel' interval operation
    end.

Definition save (cfg : VideoJobConfig) (data : string) : M Path :=
  _ ← mkdir_parents (PyPath.parent (output_path cfg));
  _ ← write_bytes (output_path cfg) data;
  mret (output_path cfg).

Definition run_generation (fuel : nat) (cfg : VideoJobConfig) : M Path :=
  api_key ← resolve_api_key (api_key_path cfg);
  first_bytes ← read_frame (first_frame cfg);
  last_bytes ← read_frame (last_frame cfg);
  operation ← generate_videos (build_submit_args cfg first_bytes last_bytes);
  operation ← poll_loop fuel (poll_interval_seconds cfg) operation;
  match error operation with
  | Some detail => raise (RuntimeError ("Video generation failed: " +:+ detail))
  | None =>
      match result operation with
      | None | Some [] => raise (RuntimeError "No video content returned from operation")
      | Some (generated :: _) =>
          match nonempty (video_bytes generated) with
          | Some data => save cfg data
          | None =>
              match nonempty (uri generated) with
              | Some u =>
                  _ ← mkdir_parents (PyPath.parent (output_path cfg));
                  content ← requests_get u;
                  _ ← write_bytes (output_path cfg) content;
                  mret (output_path cfg)
              | None => raise (RuntimeError "Video response missing data and URI")
              end
          end
      end
  end.

End run.

End Veo.

(** ** The video batch ([veo_video_batch.py]) *)

Module VeoBatch.

Import Eff.

(** [load_prompt_text] *)
Definition prompt_text_of (data : Yaml.t) : Exn + string :=
  positive ← Yaml.get data "positive" (Yaml.Str EmptyString) ≫= Pipeline.str_strip;
  negative ← Yaml.get data "negative" (Yaml.Str EmptyString) ≫= Pipeline.str_strip;
  mret (if String.eqb negative EmptyString then positive
        else positive +:+ Pipeline.newline +:+ "Negative prompt: " +:+ negative).

(** The output location of a (scene, variant) pair, lines 176-178. *)
Definition output_dir_of (output_root : Path) (scene_name variant_name : string)
    : Path :=
  PyPath.joinpath (PyPath.joinpath output_root (PyPath.of_string scene_name))
    (PyPath.of_string variant_name).

Definition output_path_of (output_root : Path) (scene_name variant_name : string)
    : Path :=
  PyPath.joinpath (output_dir_of output_root scene_name variant_name)
    (PyPath.of_string (scene_name +:+ "_" +:+ variant_name +:+ ".mp4")).

(** A flag of the variant, else the default's truth value. *)
Definition flag (v : Yaml.t) (defaults : Yaml.t) (key : string) (dflt : bool)
    : Exn + bool :=
  match v with
  | Yaml.Null => Yaml.truthy <$> Yaml.get defaults key (Yaml.Bool dflt)
  | _ => mret (Yaml.truthy v)
  end.

Section run.

Variable float_of_str : string → option Q.
Variable int_of_str : string → option Z.
(** The member names of the SDK's [VideoGenerationReferenceType]. *)
Variable reference_types : list string.
Variable environ_api_key : option string.
Variable yaml_safe_load : string → Exn + Yaml.t.
Variable veo_submit : nat → SubmitArgs → Exn + Veo.Operation.
Variable veo_poll : nat → Veo.Operation → Exn + Veo.Operation.
Variable http_get : nat → string → Exn + string.
Variable os_order : list Path → list Path.

Definition load_prompt_text (path : Path) : M string :=
  _ ← emit (EvLoadPrompt path);
  text ← read_bytes path;
  data ← lift (yaml_safe_load text);
  lift (prompt_text_of data).

(** [folder.iterdir()] *)
Definition iterdir (folder : Path) : M (list Path) :=
  fs ← get_fs;
  match FS.node_at fs folder with
  | Some FS.Dir => mret (os_order (FS.children fs folder))
  | Some (FS.File _) => raise (NotADirectoryError folder)
  | None => raise (FileNotFoundError folder)
  end.

Definition list_variant_frames (folder : Path) : M (list Path) :=
  entries ← iterdir folder;
  mret (merge_sort PyPath.le (filter (λ p, PyPath.is_image p) entries)).

Definition group_folders (root : Path) : M (list Path) :=
  ex ← exists_ root;
  if ex : bool then
    entries ← iterdir root;
    fs ← get_fs;
    mret (merge_sort PyPath.le (filter (λ p, FS.is_dir fs p) entries))
  else mret [].

Definition lookup_reference_type (v : Yaml.t) : Exn + string :=
  match v with
  | Yaml.Str s =>
      let key := PyStr.upper s in
      if bool_decide (key ∈ reference_types) then inr key
      else inl (KeyError key)
  | _ => inl (AttributeError "upper")
  end.

Definition construct_job_config (batch_cfg : BatchConfig)
    (api_key_path : option Path) (scene_name : string)
    (variant_cfg : VideoVariant) (first_frame : Path)
    (last_frame : option Path) (prompt_text : string)
    : M Veo.VideoJobConfig :=
  let defaults := b_defaults batch_cfg in
  duration ← lift (resolve_duration int_of_str defaults variant_cfg);
  aspect_ratio ←
    lift (if Yaml.truthy (v_aspect_ratio variant_cfg)
          then mret (v_aspect_ratio variant_cfg)
          else Yaml.get defaults "aspect_ratio" Yaml.Null);
  resolution ←
    lift (match v_resolution variant_cfg with
          | Yaml.Null => Yaml.get defaults "resolution" Yaml.Null
          | r => mret r
          end);
  poll_seconds ←
    lift (Yaml.get defaults "poll_interval_seconds" (Yaml.Int 10)
            ≫= Yaml.to_float float_of_str);
  use_first ←
    lift (flag (v_use_first_frame_reference variant_cfg) defaults
            "use_first_frame_reference" true);
  use_last ←
    lift (flag (v_use_last_frame variant_cfg) defaults "use_last_frame" false);
  reference_type ←
    lift ((if Yaml.truthy (v_reference_type variant_cfg)
           then mret (v_reference_type variant_cfg)
           else Yaml.get defaults "reference_type" (Yaml.Str "ASSET"))
            ≫= lookup_reference_type);
  _ ← mkdir_parents
        (output_dir_of (b_output_root batch_cfg) scene_name (v_name variant_cfg));
  mret {| Veo.model_name := b_model_name batch_cfg;
          Veo.api_key_path := api_key_path;
          Veo.first_frame := Some first_frame;
          Veo.last_frame := if use_last : bool then last_frame else None;
          Veo.output_path :=
            output_path_of (b_output_root batch_cfg) scene_name
              (v_name variant_cfg);
          Veo.prompt := prompt_text;
          Veo.negative_prompt := None;
          Veo.duration_seconds := duration;
          Veo.aspect_ratio := aspect_ratio;
          Veo.resolution := resolution;
          Veo.poll_interval_seconds := poll_seconds;
          Veo.reference_type := reference_type;
          Veo.use_first_frame_reference := use_first;
          Veo.use_last_frame :=
            use_last && match last_frame with Some _ => true | None => false end
       |}.

(** The body of the loop over variants, lines 202-227, with the frame
    selection [pick] as a parameter; the script calls
    [pick_reference_frames] there, see [process_variant]. *)
Definition process_variant_with
    (pick : list Path → Exn + (Path * Path))
    (fuel : nat) (environ : option string)
    (batch_cfg : BatchConfig) (scene_folder : Path) (variant : VideoVariant)
    : M unit :=
  let scene_name := PyPath.name scene_folder in
  let variant_folder :=
    PyPath.joinpath scene_folder (PyPath.of_string (v_name variant)) in
  ex ← exists_ variant_folder;
  if negb ex then mret tt
  else
    frames ← list_variant_frames variant_folder;
    match frames with
    | [] => mret tt
    | _ :: _ =>
        '(first_frame, last_frame) ← lift (pick frames);
        prompt_text ← load_prompt_text (v_prompt_path variant);
        job_cfg ←
          construct_job_config batch_cfg (b_api_key_path batch_cfg) scene_name
            variant first_frame (Some last_frame) prompt_text;
        ex ← exists_ (Veo.output_path job_cfg);
        if ex : bool then mret tt
        else
          _ ← Veo.run_generation environ veo_submit veo_poll http_get fuel job_cfg;
          mret tt
    end.

Definition process_variant (fuel : nat) (environ : option string)
    (batch_cfg : BatchConfig) (scene_folder : Path) (variant : VideoVariant)
    : M unit :=
  process_variant_with Frames.pick_reference_frames fuel environ batch_cfg
    scene_folder variant.

Definition process_scene_folder (fuel : nat) (environ : option string)
    (batch_cfg : BatchConfig) (scene_folder : Path) : M unit :=
  for_ (b_variants batch_cfg)
    (process_variant fuel environ batch_cfg scene_folder).

(** [main], from the loaded configuration on:
    [os.environ.setdefault] leaves a variable that is already set. *)
Definition main (fuel : nat) (cfg : BatchConfig) : M unit :=
  api_key ← Veo.resolve_api_key environ_api_key (b_api_key_path cfg);
  let environ :=
    match environ_api_key with
    | Some k => Some k
    | None => Some api_key
    end in
  scenes ← group_folders (b_input_root cfg);
  for_ scenes (process_scene_folder fuel environ cfg).

End run.

End VeoBatch.

(** ** Pacing of provider calls

    The time between two events of a trace is at least the sum of the
    sleeps between them: [time.sleep] suspends for at least the requested
    time and no step takes negative time. *)

Module Pacing.

Import Eff.

Definition is_sleep (e : Event) : bool :=
  match e with EvSleep _ => true | _ => false end.

(** Neither a call to the image provider nor a sleep. *)
Definition silent (e : Event) : bool := negb (is_generate e) && negb (is_sleep e).

Fixpoint sum_sleeps (evs : list Event) : Q :=
  match evs with
  | [] => 0
  | EvSleep s :: rest => s + sum_sleeps rest
  | _ :: rest => sum_sleeps rest
  end.

(** Between any two image calls of the trace, with [n] calls in between,
    the sleeps add up to at least [(n + 1) * d]. *)
Definition spaced (d : Q) (tr : list Event) : Prop :=
  ∀ pre a mid b post,
    tr = pre ++ EvGenerate a :: mid ++ EvGenerate b :: post →
    ((inject_Z (Z.of_nat (count is_generate mid)) + 1) * d <= sum_sleeps mid)%Q.

(** A scan of the trace: the state is the time slept since the last call,
    [None] before the first call. *)
Definition step (st : option Q) (e : Event) : option Q :=
  match e with
  | EvGenerate _ => Some 0%Q
  | EvSleep s => match st with Some t => Some (t + s)%Q | None => None end
  | _ => st
  end.

Definition final (st : option Q) (evs : list Event) : option Q :=
  fold_left step evs st.

(** A call may start: none was made yet, or [d] has been slept since. *)
Definition ready (d : Q) (st : option Q) : Prop :=
  match st with Some t => (d <= t)%Q | None => True end.

(** A call was made and nothing negative slept since. *)
Definition called (st : option Q) : Prop :=
  match st with Some t => (0 <= t)%Q | None => False end.

Fixpoint paced (d : Q) (st : option Q) (evs : list Event) : Prop :=
  match evs with
  | [] => True
  | e :: rest =>
      match e with
      | EvGenerate _ => ready d st
      | EvSleep s => (0 <= s)%Q
      | _ => True
      end ∧ paced d (step st e) rest
  end.

(** The invariant of a run between two units. *)
Definition settled (d : Q) (w : World) : Prop :=
  paced d None (trace w) ∧ ready d (final None (trace w)).

End Pacing.

(** ** Vocabulary for re-runs *)

Module Resume.

Import Eff.

(** The tree below [root] is the same in two file systems. *)
Definition same_tree (root : Path) (fs1 fs2 : FS.t) : Prop :=
  ∀ p, FS.is_below root p = true → fs1 !! p = fs2 !! p.

(** In the file system [F] the output of an image under a variant is in
    place: its directory exists already and so does the output path. *)
Definition image_done (F : FS.t) (cfg : PipelineConfig) (variant : VariantConfig)
    (path : Path) : Prop :=
  ∃ rel,
    PyPath.relative_to path (input_root cfg) = Some rel
    ∧ FS.mkdir_parents F
        (Pipeline.out_dir_of (output_root cfg) (name variant) rel) = inr F
    ∧ FS.exists_ F
        (Pipeline.out_path_of (output_root cfg) (name variant) rel) = true.

(** Over [F] the prompt file at [p] loads to the template [t]. *)
Definition loads_to (yaml_safe_load : string → Exn + Yaml.t) (F : FS.t)
    (p : Path) (t : Pipeline.PromptTemplate) : Prop :=
  ∀ w, fs w = F →
    Pipeline.load_prompt_template yaml_safe_load p w
    = (Ok t, {| fs := F; trace := trace w ++ [EvLoadPrompt p] |}).

(** Over the file system [F] the computation [m] ends normally, leaves
    [F] as it is and reaches no provider. *)
Definition replays (F : FS.t) (m : M unit) : Prop :=
  ∀ w, fs w = F →
    ∃ evs,
      m w = (Ok tt, {| fs := F; trace := trace w ++ evs |})
      ∧ Forall (λ e, is_provider_call e = false) evs.

End Resume.

(** ** Sample inputs

    A small input tree, configurations and provider behaviours on which the
    embedding can be run. *)

Module Sample.

Import Eff.

(** Every prompt file parses to the same two-field document. *)
Definition yaml_loader (text : string) : Exn + Yaml.t :=
  inr (Yaml.Map {[ "positive" := Yaml.Str " sunny ";
                   "negative" := Yaml.Str "dark" ]}).

Definition rain : VariantConfig :=
  {| name := "rain"; prompt_path := ["p.yaml"];
     creativity := 0.2; fidelity := 0.7 |}.

Definition snow : VariantConfig :=
  {| name := "snow"; prompt_path := ["p.yaml"];
     creativity := 0.2; fidelity := 0.7 |}.

Definition pipeline_cfg (vs : list VariantConfig) : PipelineConfig :=
  {| input_root := ["in"]; output_root := ["out"]; api_key_path := None;
     model_name := Yaml.Str "gemini-2.5-flash-image";
     output_width := 1024; output_height := 1024; variants := vs |}.

(** [in/g/a.png], and optionally [in/g/b.png], next to [p.yaml]. *)
Definition one_image : World :=
  {| fs := list_to_map [ (["in"], FS.Dir); (["in"; "g"], FS.Dir);
                         (["in"; "g"; "a.png"], FS.File "A");
                         (["p.yaml"], FS.File "positive: sunny") ];
     trace := [] |}.

Definition two_images : World :=
  {| fs := list_to_map [ (["in"], FS.Dir); (["in"; "g"], FS.Dir);
                         (["in"; "g"; "a.png"], FS.File "A");
                         (["in"; "g"; "b.png"], FS.File "B");
                         (["p.yaml"], FS.File "positive: sunny") ];
     trace := [] |}.

(** Provider behaviours: always answering, never answering, and failing
    on the first [n] calls. *)
Definition gemini_ok (k : nat) (a : GenArgs) : Exn + string := inr "PNG"%string.

Definition gemini_down (k : nat) (a : GenArgs) : Exn + string :=
  inl (External "503").

Definition gemini_failing (n : nat) (k : nat) (a : GenArgs) : Exn + string :=
  if k <? n then inl (External "503") else inr "PNG"%string.

(** Two scenes with extracted frames for the variant [rain]. *)
Definition video_world : World :=
  {| fs := list_to_map [ (["frames"], FS.Dir);
                         (["frames"; "s1"], FS.Dir);
                         (["frames"; "s1"; "rain"], FS.Dir);
                         (["frames"; "s1"; "rain"; "0000.png"], FS.File "F0");
                         (["frames"; "s1"; "rain"; "0008.png"], FS.File "F8");
                         (["frames"; "s2"], FS.Dir);
                         (["frames"; "s2"; "rain"], FS.Dir);
                         (["frames"; "s2"; "rain"; "0000.png"], FS.File "G0");
                         (["p.yaml"], FS.File "positive: sunny") ];
     trace := [] |}.

Definition rain_video : VideoVariant :=
  {| v_name := "rain"; v_prompt_path := ["p.yaml"];
     v_duration_seconds := Yaml.Null; v_aspect_ratio := Yaml.Null;
     v_resolution := Yaml.Null; v_use_first_frame_reference := Yaml.Null;
     v_use_last_frame := Yaml.Null; v_reference_type := Yaml.Null |}.

Definition batch_cfg : BatchConfig :=
  {| b_model_name := Yaml.Str "models/veo-3.1-generate-preview";
     b_api_key_path := None;
     b_input_root := ["frames"]; b_output_root := ["videos"];
     b_defaults := Yaml.Map ∅; b_variants := [rain_video] |}.

Definition reference_types : list string := ["ASSET"; "STYLE"]%string.

Definition video_job : Veo.VideoJobConfig :=
  {| Veo.model_name := Yaml.Str "models/veo-3.1-generate-preview";
     Veo.api_key_path := None;
     Veo.first_frame := Some ["frames"; "s1"; "rain"; "0000.png"];
     Veo.last_frame := None;
     Veo.output_path := ["videos"; "s1"; "rain"; "s1_rain.mp4"];
     Veo.prompt := "sunny"; Veo.negative_prompt := None;
     Veo.duration_seconds := 6; Veo.aspect_ratio := Yaml.Null;
     Veo.resolution := Yaml.Null; Veo.poll_interval_seconds := 10;
     Veo.reference_type := "ASSET"; Veo.use_first_frame_reference := true;
     Veo.use_last_frame := false |}.

Definition pending : Veo.Operation :=
  {| Veo.op_name := "operations/1"; Veo.done := false;
     Veo.error := None; Veo.result := None |}.

Definition finished (data : string) : Veo.Operation :=
  {| Veo.op_name := "operations/1"; Veo.done := true; Veo.error := None;
     Veo.result := Some [ {| Veo.video_bytes := Some data; Veo.uri := None |} ] |}.

Definition veo_submit (k : nat) (a : SubmitArgs) : Exn + Veo.Operation :=
  inr pending.

(** Pending on the first [n] polls, then done with inline bytes ["X"]. *)
Definition veo_poll_after (n : nat) (k : nat) (op : Veo.Operation)
    : Exn + Veo.Operation :=
  if k <? n then inr pending else inr (finished "X").

Definition veo_down (k : nat) (a : SubmitArgs) : Exn + Veo.Operation :=
  inl (External "503").

Definition http_none (k : nat) (u : string) : Exn + string :=
  inl (External "unreachable").

End Sample.

(** ** The provider's answer ([call_gemini_edit], lines 161-171)

    The answer's candidates carry a content, the content carries parts, and
    a part may carry inline data.  The SDK declares the candidate list, the
    content of a candidate and the parts of a content as optional.  The two
    nested loops keep the first non-empty inline data they meet. *)

Module Response.

Record Blob := { data : option string }.

Record Part := { inline_data : option Blob }.

Record Content := { parts : option (list Part) }.

Record Candidate := { content : option Content }.

(** [part.inline_data and part.inline_data.data], as a truth value. *)
Definition part_data (p : Part) : option string :=
  match inline_data p with
  | Some b => Veo.nonempty (data b)
  | None => None
  end.

(** [candidate.content.parts], as the inner [for] evaluates it: without
    a content the attribute access raises [AttributeError], and parts
    that are [None] cannot be iterated. *)
Definition parts_of (c : Candidate) : Exn + list Part :=
  match content c with
  | None => inl (AttributeError "parts")
  | Some ct =>
      match parts ct with
      | None => inl (TypeError "'NoneType' object is not iterable")
      | Some ps => inr ps
      end
  end.

(** The inner loop: stops at the first part with data. *)
Fixpoint scan_parts (ps : list Part) : option string :=
  match ps with
  | [] => None
  | p :: rest =>
      match part_data p with
      | Some d => Some d
      | None => scan_parts rest
      end
  end.

(** The outer loop: stops once the inner loop has found data, so the
    candidates after that one are not looked at. *)
Fixpoint scan_candidates (candidates : list Candidate)
    : Exn + option string :=
  match candidates with
  | [] => inr None
  | c :: rest =>
      ps ← parts_of c;
      match scan_parts ps with
      | Some d => inr (Some d)
      | None => scan_candidates rest
      end
  end.

(** [response.candidates or []], then the check on [raw_bytes]. *)
Definition raw_bytes (candidates : option (list Candidate)) : Exn + string :=
  found ← scan_candidates (default [] candidates);
  match found with
  | Some d => inr d
  | None => inl (RuntimeError "No image data returned by Gemini")
  end.

(** A candidate the loops pass over: it has parts, none with data. *)
Definition dataless (c : Candidate) : Prop :=
  ∃ ps, parts_of c = inr ps ∧ Forall (λ p, part_data p = None) ps.

End Response.

(** ** The folder script ([gemini_weather_pairs.py]) *)

Module Pairs.

Import Eff.

Definition INPUT_ROOT : Path := PyPath.of_string "input/imgsource".
Definition OUTPUT_ROOT : Path := PyPath.of_string "outputimg".

(** The arguments [process_folder] passes to [call_gemini_edit]. *)
Definition request_of (cfg : AppConfig) (variant : VariantConfig)
    (prompt_text raw : string) : GenArgs :=
  {| g_model_name := app_model_name cfg; g_prompt := prompt_text;
     g_image_bytes := raw;
     g_creativity := creativity variant;
     g_fidelity := fidelity variant;
     g_width := app_output_width cfg;
     g_height := app_output_height cfg |}.

(** [OUTPUT_ROOT / folder.name / variant.name] *)
Definition out_base_of (folder : Path) (variant_name : string) : Path :=
  PyPath.joinpath
    (PyPath.joinpath OUTPUT_ROOT (PyPath.of_string (PyPath.name folder)))
    (PyPath.of_string variant_name).

(** [out_base / f"{img_path.stem}_{variant.name}.png"] *)
Definition out_path_of (out_base img_path : Path) (variant_name : string)
    : Path :=
  PyPath.joinpath out_base
    (PyPath.of_string (PyPath.stem img_path +:+ "_" +:+ variant_name +:+ ".png")).

Section run.

Variable environ_api_key : option string.
Variable yaml_safe_load : string → Exn + Yaml.t.
Variable gemini : nat → GenArgs → Exn + string.
Variable os_order : list Path → list Path.

(** [iter_subfolders]: the sorted sub-directories, none for a missing
    root. *)
Definition iter_subfolders (root : Path) : M (list Path) :=
  ex ← exists_ root;
  if ex : bool then
    entries ← VeoBatch.iterdir os_order root;
    fs ← get_fs;
    mret (merge_sort PyPath.le (filter (λ p, FS.is_dir fs p) entries))
  else mret [].

(** The sorted image entries of a folder, line 173. *)
Definition list_images (folder : Path) : M (list Path) :=
  entries ← VeoBatch.iterdir os_order folder;
  mret (merge_sort PyPath.le (filter (λ p, PyPath.is_image p) entries)).

(** The body of the loop over images, lines 186-200: neither an output
    check nor a retry. *)
Definition process_image (cfg : AppConfig) (variant : VariantConfig)
    (prompt_text : string) (out_base img_path : Path) : M unit :=
  raw ← read_bytes img_path;
  result_bytes ←
    Pipeline.call_gemini_edit gemini (request_of cfg variant prompt_text raw);
  write_bytes (out_path_of out_base img_path (name variant)) result_bytes.

(** The body of the loop over variants, lines 177-200.  [load_prompt]
    and the cache lookup are those of the pipeline. *)
Definition process_variant (cfg : AppConfig) (folder : Path)
    (images : list Path) (prompt_cache : gmap Path Pipeline.PromptTemplate)
    (variant : VariantConfig) : M (gmap Path Pipeline.PromptTemplate) :=
  '(template, prompt_cache) ←
    Pipeline.get_template yaml_safe_load prompt_cache (prompt_path variant);
  let prompt_text := Pipeline.build_prompt template in
  let out_base := out_base_of folder (name variant) in
  _ ← mkdir_parents out_base;
  _ ← for_ images (process_image cfg variant prompt_text out_base);
  mret prompt_cache.

Fixpoint variants_loop (cfg : AppConfig) (folder : Path)
    (images : list Path) (prompt_cache : gmap Path Pipeline.PromptTemplate)
    (vs : list VariantConfig) : M (gmap Path Pipeline.PromptTemplate) :=
  match vs with
  | [] => mret prompt_cache
  | variant :: rest =>
      prompt_cache ← process_variant cfg folder images prompt_cache variant;
      variants_loop cfg folder images prompt_cache rest
  end.

(** [process_folder]; the dictionary it fills is returned. *)
Definition process_folder (cfg : AppConfig) (folder : Path)
    (prompt_cache : gmap Path Pipeline.PromptTemplate)
    : M (gmap Path Pipeline.PromptTemplate) :=
  images ← list_images folder;
  match images with
  | [] => mret prompt_cache
  | _ :: _ => variants_loop cfg folder images prompt_cache (app_variants cfg)
  end.

Fixpoint folders_loop (cfg : AppConfig)
    (prompt_cache : gmap Path Pipeline.PromptTemplate)
    (folders : list Path) : M unit :=
  match folders with
  | [] => mret tt
  | folder :: rest =>
      prompt_cache ← process_folder cfg folder prompt_cache;
      folders_loop cfg prompt_cache rest
  end.

(** [main], from the loaded configuration on. *)
Definition main (cfg : AppConfig) : M unit :=
  _ ← Pipeline.resolve_api_key environ_api_key (app_api_key_path cfg);
  folders ← iter_subfolders INPUT_ROOT;
  folders_loop cfg ∅ folders.

End run.

End Pairs.

(** ** The configuration of one video job ([veo_video_generate.load_config]) *)

Module VeoJob.

Section load.

Variable float_of_str : string → option Q.
Variable int_of_str : string → option Z.
Variable resolve : Path → Path.
(** The member names of the SDK's [VideoGenerationReferenceType]. *)
Variable reference_types : list string.

(** [_resolve_path(cfg_dir, data[key]) if data.get(key) else None] *)
Definition optional_path (cfg_dir : Path) (data : Yaml.t) (key : string)
    : Exn + option Path :=
  v ← Yaml.get data key Yaml.Null;
  if Yaml.truthy v
  then Some <$> (Yaml.getitem data key ≫= resolve_path resolve cfg_dir)
  else mret None.

(** Lines 71-75: the upper-cased name must be a member; the [KeyError]
    of the lookup is turned into a [ValueError]. *)
Definition load_reference_type (data : Yaml.t) : Exn + string :=
  v ← Yaml.get data "reference_type" (Yaml.Str "ASSET");
  match v with
  | Yaml.Str s =>
      let key := PyStr.upper s in
      if bool_decide (key ∈ reference_types) then inr key
      else inl (ValueError ("Invalid reference_type: " +:+ key))
  | _ => inl (AttributeError "upper")
  end.

Definition load_config (cfg_dir : Path) (data : Yaml.t)
    : Exn + Veo.VideoJobConfig :=
  k ← load_api_key_path resolve cfg_dir data;
  rt ← load_reference_type data;
  m ← Yaml.get data "model_name" (Yaml.Str "veo-3.1");
  ff ← optional_path cfg_dir data "first_frame";
  lf ← optional_path cfg_dir data "last_frame";
  o ← Yaml.getitem data "output_path" ≫= resolve_path resolve cfg_dir;
  p ← Yaml.getitem data "prompt" ≫= Pipeline.str_strip;
  n ← Yaml.get data "negative_prompt" (Yaml.Str EmptyString)
        ≫= Pipeline.str_strip;
  d ← Yaml.get data "duration_seconds" (Yaml.Int 6) ≫= Yaml.to_int int_of_str;
  a ← Yaml.get data "aspect_ratio" Yaml.Null;
  r ← Yaml.get data "resolution" Yaml.Null;
  ps ← Yaml.get data "poll_interval_seconds" (Yaml.Int 10)
         ≫= Yaml.to_float float_of_str;
  uf ← Yaml.get data "use_first_frame_reference" (Yaml.Bool false);
  ul ← Yaml.get data "use_last_frame" (Yaml.Bool false);
  mret {| Veo.model_name := m;
          Veo.api_key_path := k;
          Veo.first_frame := ff;
          Veo.last_frame := lf;
          Veo.output_path := o;
          Veo.prompt := p;
          Veo.negative_prompt := Veo.nonempty (Some n);
          Veo.duration_seconds := d;
          Veo.aspect_ratio := a;
          Veo.resolution := r;
          Veo.poll_interval_seconds := ps;
          Veo.reference_type := rt;
          Veo.use_first_frame_reference := Yaml.truthy uf;
          Veo.use_last_frame := Yaml.truthy ul |}.

End load.

End VeoJob.

(** ** Further sample inputs *)

Module Cases.

Import Eff.

Definition app_cfg : AppConfig :=
  {| app_model_name := Yaml.Str "gemini-2.5-flash-image";
     app_output_width := 1344; app_output_height := 768;
     app_api_key_path := None;
     app_variants := [Sample.rain; Sample.snow] |}.

(** One group with two image entries under the input root of the folder
    script, and an output left by an earlier run. *)
Definition pairs_world : World :=
  {| fs := list_to_map
             [ (["input"], FS.Dir); (["input"; "imgsource"], FS.Dir);
               (["input"; "imgsource"; "g"], FS.Dir);
               (["input"; "imgsource"; "g"; "a.png"], FS.File "A");
               (["input"; "imgsource"; "g"; "b.jpg"], FS.File "B");
               (["p.yaml"], FS.File "positive: sunny");
               (["outputimg"], FS.Dir); (["outputimg"; "g"], FS.Dir);
               (["outputimg"; "g"; "rain"], FS.Dir);
               (["outputimg"; "g"; "rain"; "a_rain.png"], FS.File "OLD") ];
     trace := [] |}.

(** One group with one image entry, next to the prompt file. *)
Definition small_world : World :=
  {| fs := list_to_map [ (["g"], FS.Dir); (["g"; "a.png"], FS.File "A");
                         (["p.yaml"], FS.File "positive: sunny") ];
     trace := [] |}.

(** An image in the working directory, with the output of an earlier
    run beside it. *)
Definition done_world : World :=
  {| fs := list_to_map [ (["a.png"], FS.File "A");
                         (["a_rain.png"], FS.File "OLD") ];
     trace := [] |}.

(** A job without reference frames that stores its video in the working
    directory. *)
Definition plain_job : Veo.VideoJobConfig :=
  {| Veo.model_name := Yaml.Str "veo-3.1"; Veo.api_key_path := None;
     Veo.first_frame := None; Veo.last_frame := None;
     Veo.output_path := ["o.mp4"]; Veo.prompt := "sunny";
     Veo.negative_prompt := None; Veo.duration_seconds := 6;
     Veo.aspect_ratio := Yaml.Null; Veo.resolution := Yaml.Null;
     Veo.poll_interval_seconds := 10; Veo.reference_type := "ASSET";
     Veo.use_first_frame_reference := false; Veo.use_last_frame := false |}.

(** A job that names a last frame it is not going to send. *)
Definition unsent_last_job : Veo.VideoJobConfig :=
  {| Veo.model_name := Yaml.Str "veo-3.1"; Veo.api_key_path := None;
     Veo.first_frame := None; Veo.last_frame := Some ["l.png"];
     Veo.output_path := ["o.mp4"]; Veo.prompt := "sunny";
     Veo.negative_prompt := None; Veo.duration_seconds := 6;
     Veo.aspect_ratio := Yaml.Null; Veo.resolution := Yaml.Null;
     Veo.poll_interval_seconds := 10; Veo.reference_type := "ASSET";
     Veo.use_first_frame_reference := false; Veo.use_last_frame := false |}.

(** An operation that is done, with a video given by a URI only. *)
Definition finished_by_uri : Veo.Operation :=
  {| Veo.op_name := "operations/1"; Veo.done := true; Veo.error := None;
     Veo.result := Some [ {| Veo.video_bytes := None;
                             Veo.uri := Some "https://v/1"%string |} ] |}.

End Cases.

(** ** Safety of the file system *)

Module Safety.

Import Eff.

(** Whatever its outcome, the computation leaves every entry that was
    there in place and unchanged. *)
Definition never_shrinks {A} (m : M A) : Prop :=
  ∀ w r w', m w = (r, w') → fs w ⊆ fs w'.

(** The request [a] is one the pipeline builds for a configured variant
    from the bytes that the file system [F] holds at an image path below
    the input root. *)
Definition request_for (cfg : PipelineConfig) (F : FS.t) (a : GenArgs)
    : Prop :=
  ∃ variant path prompt image_bytes,
    variant ∈ variants cfg
    ∧ FS.is_below (input_root cfg) path = true
    ∧ PyPath.is_image path = true
    ∧ F !! path = Some (FS.File image_bytes)
    ∧ a = Pipeline.request_of cfg variant prompt image_bytes.

(** What may be sent over [F]: any event that is no request, and the
    requests of [request_for]. *)
Definition sendable (cfg : PipelineConfig) (F : FS.t) (e : Event) : Prop :=
  match e with
  | EvGenerate a => request_for cfg F a
  | _ => True
  end.

(** Every event the computation adds may be sent over the file system
    it ends with. *)
Definition sends (cfg : PipelineConfig) {A} (m : M A) : Prop :=
  ∀ w r w', m w = (r, w') →
    ∃ evs, trace w' = trace w ++ evs ∧ Forall (sendable cfg (fs w')) evs.

End Safety.

(** * Properties *)

(** ** The path order is a total order *)

Section path_order.

Lemma string_compare_refl (s : string) : String.compare s s = Eq.
Proof.
  induction s as [|a s IH]; simpl; [done|].
  unfold Ascii.compare. by rewrite N.compare_refl.
Qed.

Lemma string_compare_lt_le (x y : string) :
  String.compare x y = Lt → String.le x y.
Proof. unfold String.le, String.leb. by intros ->. Qed.

Lemma string_compare_lt_trans (x y z : string) :
  String.compare x y = Lt → String.compare y z = Lt → String.compare x z = Lt.
Proof.
  intros Hxy Hyz.
  assert (Hle : String.le x z).
  { trans y; by apply string_compare_lt_le. }
  unfold String.le, String.leb in Hle.
  destruct (String.compare x z) eqn:Hxz; [|done|done].
  apply String.compare_eq_iff in Hxz as ->.
  rewrite String.compare_antisym, Hyz in Hxy. discriminate.
Qed.

Lemma path_le_refl (p : Path) : PyPath.le p p.
Proof.
  unfold PyPath.le. induction p as [|x p IH]; simpl; [done|].
  by rewrite string_compare_refl.
Qed.

Lemma path_le_trans (p q r : Path) :
  PyPath.le p q → PyPath.le q r → PyPath.le p r.
Proof.
  unfold PyPath.le. revert q r.
  induction p as [|x p IH]; intros [|y q] [|z r]; simpl; try done.
  destruct (String.compare x y) eqn:Hxy; [| |done].
  - apply String.compare_eq_iff in Hxy as ->.
    destruct (String.compare y z); [apply IH|done|done].
  - destruct (String.compare y z) eqn:Hyz; [| |done].
    + apply String.compare_eq_iff in Hyz as ->. by rewrite Hxy.
    + by rewrite (string_compare_lt_trans x y z).
Qed.

Lemma path_le_antisym (p q : Path) :
  PyPath.le p q → PyPath.le q p → p = q.
Proof.
  unfold PyPath.le. revert q.
  induction p as [|x p IH]; intros [|y q]; simpl; try done.
  rewrite (String.compare_antisym y x).
  destruct (String.compare x y) eqn:Hxy; simpl; try done.
  apply String.compare_eq_iff in Hxy as ->.
  intros H1 H2. f_equal. by apply IH.
Qed.

Lemma path_le_total (p q : Path) : PyPath.le p q ∨ PyPath.le q p.
Proof.
  unfold PyPath.le. revert q.
  induction p as [|x p IH]; intros [|y q]; simpl; auto.
  rewrite (String.compare_antisym y x).
  destruct (String.compare x y); simpl; auto.
Qed.

#[global] Instance path_le_preorder : PreOrder PyPath.le.
Proof. split; [exact path_le_refl | exact path_le_trans]. Qed.

#[global] Instance path_le_antisymm : AntiSymm (=) PyPath.le.
Proof. exact path_le_antisym. Qed.

#[global] Instance path_le_total_inst : Total PyPath.le.
Proof. exact path_le_total. Qed.

End path_order.

(** ** Reference-frame selection *)

Section frames.

Import Frames Policy.

Lemma find_earliest (P : Path → bool) (l : list Path) (x : Path) :
  List.find P l = Some x → earliest_with P l x.
Proof.
  induction l as [|y l IH]; simpl; [done|].
  destruct (P y) eqn:Hy.
  - intros [= ->]. by exists [], l.
  - intros (pre & post & -> & Hx & Hpre)%IH.
    exists (y :: pre), post. by repeat split; [|constructor].
Qed.

Lemma find_none_with (P : Path → bool) (l : list Path) :
  List.find P l = None → none_with P l.
Proof.
  induction l as [|y l IH]; simpl; [by constructor|].
  destruct (P y) eqn:Hy; [done|]. intros ?%IH. by constructor.
Qed.

Lemma find_reverse_latest (P : Path → bool) (l : list Path) (x : Path) :
  List.find P (reverse l) = Some x → latest_with P l x.
Proof.
  intros (pre & post & Hl & Hx & Hpre)%find_earliest.
  exists (reverse post), (reverse pre). repeat split; [|done|].
  - apply (inj reverse). rewrite Hl, reverse_app, reverse_cons.
    rewrite !reverse_involutive. by rewrite <- app_assoc.
  - by apply Forall_reverse.
Qed.

Lemma find_reverse_none (P : Path → bool) (l : list Path) :
  List.find P (reverse l) = None → none_with P l.
Proof.
  intros H%find_none_with. unfold none_with in *.
  rewrite <- (reverse_involutive l). by apply Forall_reverse.
Qed.

Lemma sorted_head_least (x : Path) (l : list Path) :
  Sorted PyPath.le (x :: l) → lex_first (x :: l) x.
Proof.
  intros Hs%Sorted_StronglySorted; [|apply _].
  apply StronglySorted_inv in Hs as [_ Hall].
  split; [left|]. constructor; [apply path_le_refl|done].
Qed.

Lemma last_cons_default (l : list Path) (a d d' : Path) :
  List.last (a :: l) d = List.last (a :: l) d'.
Proof.
  revert a. induction l as [|b l IH]; intros a; [done|].
  change (List.last (b :: l) d = List.last (b :: l) d'). apply IH.
Qed.

Lemma sorted_last_greatest (x : Path) (l : list Path) :
  Sorted PyPath.le (x :: l) → lex_last (x :: l) (List.last (x :: l) x).
Proof.
  intros Hs%Sorted_StronglySorted; [|apply _].
  revert x Hs. induction l as [|y l IH]; intros x Hs.
  - split; [left|]. constructor; [apply path_le_refl|constructor].
  - apply StronglySorted_inv in Hs as [Hs Hall].
    destruct (IH y Hs) as [Hin Hge].
    change (List.last (x :: y :: l) x) with (List.last (y :: l) x).
    rewrite (last_cons_default l y x y). split; [by right|].
    constructor; [|done].
    inversion Hall as [|? ? Hxy _]; subst.
    etrans; [exact Hxy|]. by inversion Hge.
Qed.

(** C2.  On a non-empty sorted list of frames, [pick_reference_frames]
    returns as first frame the earliest frame whose stem contains "0000",
    else the least frame; as last frame the latest frame whose stem
    contains "0008" or (ignoring case) "last", else the greatest frame;
    a single frame is both first and last.  The three listings of the
    specification give the pairs it states. *)
Theorem pick_reference_frames_policy :
  (∀ frames : list Path,
      frames ≠ [] → Sorted PyPath.le frames →
      ∃ first last,
        pick_reference_frames frames = inr (first, last)
        ∧ (earliest_with has_0000 frames first
           ∨ (none_with has_0000 frames ∧ lex_first frames first))
        ∧ (latest_with has_tail_marker frames last
           ∨ (none_with has_tail_marker frames ∧ lex_last frames last))
        ∧ (∀ x, frames = [x] → first = x ∧ last = x))
  ∧ pick_reference_frames [["0000.png"]; ["0003.png"]; ["0008.png"]]
    = inr (["0000.png"], ["0008.png"])
  ∧ pick_reference_frames [["a.png"]; ["b.png"]] = inr (["a.png"], ["b.png"])
  ∧ pick_reference_frames [["x.png"]] = inr (["x.png"], ["x.png"]).
Proof.
  split; [|by vm_compute].
  intros [|f0 rest] Hne Hs; [done|].
  unfold pick_reference_frames.
  set (frames := f0 :: rest) in *.
  assert (Hfirst :
    let first := match List.find has_0000 frames with
                 | Some c => c | None => f0 end in
    earliest_with has_0000 frames first
    ∨ (none_with has_0000 frames ∧ lex_first frames first)).
  { cbv zeta. destruct (List.find has_0000 frames) eqn:Hf.
    - left. by apply find_earliest.
    - right. split; [by apply find_none_with|by apply sorted_head_least]. }
  assert (Hlast :
    let last := match List.find has_tail_marker (reverse frames) with
                | Some c => c | None => List.last frames f0 end in
    latest_with has_tail_marker frames last
    ∨ (none_with has_tail_marker frames ∧ lex_last frames last)).
  { cbv zeta. destruct (List.find has_tail_marker (reverse frames)) eqn:Hf.
    - left. by apply find_reverse_latest.
    - right. split; [by apply find_reverse_none|by apply sorted_last_greatest]. }
  cbv zeta in Hfirst, Hlast.
  destruct rest as [|f1 rest].
  - (* exactly one frame: both results are the first choice *)
    eexists _, _. split; [reflexivity|].
    assert (Hx : match List.find has_0000 frames with
                 | Some c => c | None => f0 end = f0).
    { subst frames. simpl. by destruct (has_0000 f0). }
    rewrite Hx in *. split; [done|]. split.
    + subst frames. destruct (has_tail_marker f0) eqn:Hm.
      * left. by exists [], [].
      * right. split; [by repeat constructor|].
        split; [left|]. repeat constructor. apply path_le_refl.
    + by intros x [= ->].
  - eexists _, _. split; [reflexivity|].
    split; [done|]. split; [done|]. by intros x [=].
Qed.

Lemma pick_reference_frames_policy_witness :
  ∃ first last,
    pick_reference_frames [["0000.png"]; ["0003.png"]; ["0008.png"]]
    = inr (first, last).
Proof.
  destruct (proj1 pick_reference_frames_policy
              [["0000.png"]; ["0003.png"]; ["0008.png"]])
    as (first & last & H & _).
  - discriminate.
  - repeat constructor.
  - by exists first, last.
Defined.

End frames.

(** ** Configuration defaults *)

Section config_defaults.

Variable float_of_str : string → option Q.
Variable int_of_str : string → option Z.
Variable resolve : Path → Path.

Lemma exn_bind_inr {A B} (f : A → Exn + B) (a : A) : (inr a ≫= f) = f a.
Proof. reflexivity. Qed.

Lemma load_variant_absent_creativity cfg_dir m n p path f :
  m !! "name" = Some (Yaml.Str n) →
  m !! "prompt_file" = Some p →
  resolve_path resolve cfg_dir p = inr path →
  m !! "creativity" = None →
  (Yaml.get (Yaml.Map m) "fidelity" (Yaml.Float 0.7)
     ≫= Yaml.to_float float_of_str) = inr f →
  load_variant float_of_str resolve cfg_dir (Yaml.Map m)
  = inr {| name := n; prompt_path := path; creativity := 0.2; fidelity := f |}.
Proof.
  intros Hn Hp Hr Hc Hf.
  unfold load_variant, Yaml.getitem.
  rewrite Hn, Hp. simpl. rewrite Hr. simpl. rewrite Hc. simpl.
  simpl in Hf. by rewrite Hf.
Qed.

Lemma load_variant_absent_fidelity cfg_dir m n p path c :
  m !! "name" = Some (Yaml.Str n) →
  m !! "prompt_file" = Some p →
  resolve_path resolve cfg_dir p = inr path →
  (Yaml.get (Yaml.Map m) "creativity" (Yaml.Float 0.2)
     ≫= Yaml.to_float float_of_str) = inr c →
  m !! "fidelity" = None →
  load_variant float_of_str resolve cfg_dir (Yaml.Map m)
  = inr {| name := n; prompt_path := path; creativity := c; fidelity := 0.7 |}.
Proof.
  intros Hn Hp Hr Hc Hf.
  unfold load_variant, Yaml.getitem.
  rewrite Hn, Hp. simpl. rewrite Hr. simpl.
  simpl in Hc. rewrite Hc. simpl. by rewrite Hf.
Qed.

Lemma pairs_absent_raster cfg_dir m vs k :
  load_variants float_of_str resolve cfg_dir (Yaml.Map m) = inr vs →
  load_api_key_path resolve cfg_dir (Yaml.Map m) = inr k →
  m !! "output_width" = None →
  m !! "output_height" = None →
  pairs_load_config float_of_str int_of_str resolve cfg_dir (Yaml.Map m)
  = inr {| app_model_name :=
             default (Yaml.Str "gemini-2.5-flash-image") (m !! "model_name");
           app_output_width := 1344; app_output_height := 768;
           app_api_key_path := k; app_variants := vs |}.
Proof.
  intros Hvs Hk Hw Hh. unfold pairs_load_config.
  rewrite Hvs. simpl. rewrite Hk. simpl. by rewrite Hw, Hh.
Qed.

Lemma pipeline_absent_raster cfg_dir m vs i o k :
  load_variants float_of_str resolve cfg_dir (Yaml.Map m) = inr vs →
  (Yaml.getitem (Yaml.Map m) "input_root" ≫= resolve_path resolve cfg_dir) = inr i →
  (Yaml.getitem (Yaml.Map m) "output_root" ≫= resolve_path resolve cfg_dir) = inr o →
  load_api_key_path resolve cfg_dir (Yaml.Map m) = inr k →
  m !! "output_width" = None →
  m !! "output_height" = None →
  pipeline_load_config float_of_str int_of_str resolve cfg_dir (Yaml.Map m)
  = inr {| input_root := i; output_root := o; api_key_path := k;
           model_name :=
             default (Yaml.Str "gemini-2.5-flash-image") (m !! "model_name");
           output_width := 1024; output_height := 1024; variants := vs |}.
Proof.
  intros Hvs Hi Ho Hk Hw Hh. unfold pipeline_load_config.
  rewrite Hvs, exn_bind_inr, Hi, exn_bind_inr, Ho, exn_bind_inr.
  rewrite Hk, exn_bind_inr. simpl. by rewrite Hw, Hh.
Qed.

Lemma video_absent_duration cfg_dir m d v :
  load_video_variant resolve cfg_dir (Yaml.Map m) = inr v →
  m !! "duration_seconds" = None →
  d !! "duration_seconds" = None →
  v_duration_seconds v = Yaml.Null
  ∧ resolve_duration int_of_str (Yaml.Map d) v = inr 6%Z.
Proof.
  intros Hv Hm Hd.
  assert (Hnull : v_duration_seconds v = Yaml.Null).
  { unfold load_video_variant in Hv.
    destruct (Yaml.getitem (Yaml.Map m) "name" ≫= Yaml.as_str); [done|].
    destruct (Yaml.getitem (Yaml.Map m) "prompt_file" ≫= resolve_path resolve cfg_dir);
      [done|].
    simpl in Hv. rewrite Hm in Hv. simpl in Hv. by injection Hv as <-. }
  split; [done|].
  unfold resolve_duration. rewrite Hnull. simpl. by rewrite Hd.
Qed.

(** C6 (as amended).  A variant entry without [creativity] resolves to
    0.2 and one without [fidelity] to 0.7, in both image loaders; a
    document without [output_width]/[output_height] resolves to 1344x768
    in [gemini_weather_pairs.load_config] and to 1024x1024 in
    [gemini_weather_pipeline.load_config]; a video variant without
    [duration_seconds], under defaults that do not give one, resolves to
    6 seconds. *)
Theorem config_defaults :
  (∀ cfg_dir m n p path f,
      m !! "name" = Some (Yaml.Str n) →
      m !! "prompt_file" = Some p →
      resolve_path resolve cfg_dir p = inr path →
      m !! "creativity" = None →
      (Yaml.get (Yaml.Map m) "fidelity" (Yaml.Float 0.7)
         ≫= Yaml.to_float float_of_str) = inr f →
      load_variant float_of_str resolve cfg_dir (Yaml.Map m)
      = inr {| name := n; prompt_path := path; creativity := 0.2; fidelity := f |})
  ∧ (∀ cfg_dir m n p path c,
      m !! "name" = Some (Yaml.Str n) →
      m !! "prompt_file" = Some p →
      resolve_path resolve cfg_dir p = inr path →
      (Yaml.get (Yaml.Map m) "creativity" (Yaml.Float 0.2)
         ≫= Yaml.to_float float_of_str) = inr c →
      m !! "fidelity" = None →
      load_variant float_of_str resolve cfg_dir (Yaml.Map m)
      = inr {| name := n; prompt_path := path; creativity := c; fidelity := 0.7 |})
  ∧ (∀ cfg_dir m vs k,
      load_variants float_of_str resolve cfg_dir (Yaml.Map m) = inr vs →
      load_api_key_path resolve cfg_dir (Yaml.Map m) = inr k →
      m !! "output_width" = None →
      m !! "output_height" = None →
      ∃ cfg,
        pairs_load_config float_of_str int_of_str resolve cfg_dir (Yaml.Map m)
        = inr cfg
        ∧ app_variants cfg = vs
        ∧ app_output_width cfg = 1344%Z ∧ app_output_height cfg = 768%Z)
  ∧ (∀ cfg_dir m vs i o k,
      load_variants float_of_str resolve cfg_dir (Yaml.Map m) = inr vs →
      (Yaml.getitem (Yaml.Map m) "input_root" ≫= resolve_path resolve cfg_dir)
      = inr i →
      (Yaml.getitem (Yaml.Map m) "output_root" ≫= resolve_path resolve cfg_dir)
      = inr o →
      load_api_key_path resolve cfg_dir (Yaml.Map m) = inr k →
      m !! "output_width" = None →
      m !! "output_height" = None →
      ∃ cfg,
        pipeline_load_config float_of_str int_of_str resolve cfg_dir (Yaml.Map m)
        = inr cfg
        ∧ variants cfg = vs
        ∧ output_width cfg = 1024%Z ∧ output_height cfg = 1024%Z)
  ∧ (∀ cfg_dir m d v,
      load_video_variant resolve cfg_dir (Yaml.Map m) = inr v →
      m !! "duration_seconds" = None →
      d !! "duration_seconds" = None →
      resolve_duration int_of_str (Yaml.Map d) v = inr 6%Z).
Proof.
  split; [exact load_variant_absent_creativity|].
  split; [exact load_variant_absent_fidelity|].
  split.
  { intros * Hvs Hk Hw Hh. eexists. split.
    - by apply pairs_absent_raster.
    - done. }
  split.
  { intros * Hvs Hi Ho Hk Hw Hh. eexists. split.
    - by apply pipeline_absent_raster.
    - done. }
  intros * Hv Hm Hd. by eapply video_absent_duration.
Qed.

End config_defaults.

(** C6, witness: the entry [{name: rain, prompt_file: p.yaml}] of a
    document in [cfg] resolves to creativity 0.2 and fidelity 0.7. *)
Lemma config_defaults_witness :
  load_variant (λ _, None) id ["cfg"]
    (Yaml.Map {[ "name" := Yaml.Str "rain"; "prompt_file" := Yaml.Str "p.yaml" ]})
  = inr {| name := "rain"; prompt_path := ["cfg"; "p.yaml"];
           creativity := 0.2; fidelity := 0.7 |}.
Proof.
  apply (proj1 (config_defaults (λ _, None) (λ _, None) id))
    with (p := Yaml.Str "p.yaml"); by vm_compute.
Defined.

(** C6, counterexample: in [gemini_weather_pipeline.load_config] a document
    without raster fields does not resolve to 1344x768. *)
Lemma config_defaults_pipeline_raster_counterexample :
  ¬ (∀ (m : gmap string Yaml.t) cfg,
        m !! "output_width" = None →
        m !! "output_height" = None →
        pipeline_load_config (λ _, None) (λ _, None) id ["cfg"] (Yaml.Map m)
        = inr cfg →
        output_width cfg = 1344%Z ∧ output_height cfg = 768%Z).
Proof.
  intros H.
  set (m := {[ "input_root" := Yaml.Str "in";
               "output_root" := Yaml.Str "out" ]} : gmap string Yaml.t).
  destruct (H m {| input_root := ["cfg"; "in"]; output_root := ["cfg"; "out"];
                   api_key_path := None;
                   model_name := Yaml.Str "gemini-2.5-flash-image";
                   output_width := 1024; output_height := 1024;
                   variants := [] |}) as [Hw _]; [by vm_compute..|].
  discriminate Hw.
Qed.


(** ** Stepping through computations *)

Import Eff.

Section monad_facts.

Context {A B : Type}.

Lemma bind_ok (m : M A) (k : A → M B) w a w' :
  m w = (Ok a, w') → (m ≫= k) w = k a w'.
Proof. intros H. unfold mbind, eff_bind, bind. by rewrite H. Qed.

Lemma bind_raise (m : M A) (k : A → M B) w e w' :
  m w = (Raise e, w') → (m ≫= k) w = (Raise e, w').
Proof. intros H. unfold mbind, eff_bind, bind. by rewrite H. Qed.

Lemma bind_diverge (m : M A) (k : A → M B) w w' :
  m w = (Diverge, w') → (m ≫= k) w = (Diverge, w').
Proof. intros H. unfold mbind, eff_bind, bind. by rewrite H. Qed.

Lemma bind_ext (m : M A) (k1 k2 : A → M B) w :
  (∀ a w', k1 a w' = k2 a w') → (m ≫= k1) w = (m ≫= k2) w.
Proof.
  intros H. unfold mbind, eff_bind, bind.
  destruct (m w) as [[a| |] w']; auto.
Qed.

End monad_facts.

Lemma try_raise {A} (m : M A) w e w' :
  m w = (Raise e, w') → try_ m w = (Ok (inl e), w').
Proof. intros H. unfold try_. by rewrite H. Qed.

Lemma try_ok {A} (m : M A) w a w' :
  m w = (Ok a, w') → try_ m w = (Ok (inr a), w').
Proof. intros H. unfold try_. by rewrite H. Qed.

Lemma sleep_run d w :
  (0 <= d)%Q →
  sleep d w = (Ok tt, {| fs := fs w; trace := trace w ++ [EvSleep d] |}).
Proof. intros H%Qle_bool_iff. unfold sleep. by rewrite H. Qed.

Lemma sleep_negative d w :
  (d < 0)%Q →
  sleep d w = (Raise (ValueError "sleep length must be non-negative"), w).
Proof.
  intros H. unfold sleep. destruct (Qle_bool 0 d) eqn:Hd; [|done].
  apply Qle_bool_iff in Hd. by apply Qle_not_lt in Hd.
Qed.

(** A sleep either waits, for a length that is not negative, or raises and
    leaves the world as it is. *)
Lemma sleep_cases d w :
  ((0 <= d)%Q
   ∧ sleep d w = (Ok tt, {| fs := fs w; trace := trace w ++ [EvSleep d] |}))
  ∨ ((d < 0)%Q
     ∧ sleep d w = (Raise (ValueError "sleep length must be non-negative"), w)).
Proof.
  destruct (Qlt_le_dec d 0) as [H|H].
  - right. split; [done|]. by apply sleep_negative.
  - left. split; [done|]. by apply sleep_run.
Qed.

Lemma sleep_inv_ok d w u w' :
  sleep d w = (Ok u, w') →
  (0 <= d)%Q ∧ w' = {| fs := fs w; trace := trace w ++ [EvSleep d] |}.
Proof.
  intros H. destruct (sleep_cases d w) as [[Hd Hs]|[_ Hs]];
    rewrite Hs in H; [|done].
  by injection H as _ <-.
Qed.

Lemma bind_sleep {B} d (k : unit → M B) w :
  (0 <= d)%Q →
  (sleep d ≫= k) w = k tt {| fs := fs w; trace := trace w ++ [EvSleep d] |}.
Proof.
  intros H. unfold mbind, eff_bind, bind. by rewrite (sleep_run d w H).
Qed.

Lemma bind_sleep_negative {B} d (k : unit → M B) w :
  (d < 0)%Q →
  (sleep d ≫= k) w
  = (Raise (ValueError "sleep length must be non-negative"), w).
Proof.
  intros H. unfold mbind, eff_bind, bind. by rewrite (sleep_negative d w H).
Qed.

(** The length of a sleep is not negative: by assumption, or by
    computation on a literal. *)
Ltac sleep_length :=
  first [ assumption
        | by apply Qle_bool_iff; vm_compute ].

Lemma bind_assoc {A B C} (m : M A) (f : A → M B) (g : B → M C) w :
  ((m ≫= f) ≫= g) w = (m ≫= λ a, f a ≫= g) w.
Proof.
  unfold mbind, eff_bind, bind. by destruct (m w) as [[a|e|] w1].
Qed.

Lemma bind_ret {A B} (a : A) (k : A → M B) w : (mret a ≫= k) w = k a w.
Proof. reflexivity. Qed.

Lemma bind_get_trace {B} (k : list Event → M B) w :
  (get_trace ≫= k) w = k (trace w) w.
Proof. reflexivity. Qed.

Lemma bind_get_fs {B} (k : FS.t → M B) w : (get_fs ≫= k) w = k (fs w) w.
Proof. reflexivity. Qed.

Lemma bind_emit {B} e (k : unit → M B) w :
  (emit e ≫= k) w = k tt {| fs := fs w; trace := trace w ++ [e] |}.
Proof. reflexivity. Qed.

Lemma bind_lift_inr {A B} (a : A) (k : A → M B) w : (lift (inr a) ≫= k) w = k a w.
Proof. reflexivity. Qed.

Lemma bind_lift_inl {A B} e (k : A → M B) w :
  (lift (inl e) ≫= k) w = (Raise e, w).
Proof. reflexivity. Qed.

Lemma bind_raise_now {A B} e (k : A → M B) w : (raise e ≫= k) w = (Raise e, w).
Proof. reflexivity. Qed.

Lemma bind_exists {B} p (k : bool → M B) w :
  (exists_ p ≫= k) w = k (FS.exists_ (fs w) p) w.
Proof. reflexivity. Qed.

(** Run the deterministic head of a computation applied to a world. *)
Ltac mred :=
  repeat first
    [ rewrite bind_assoc | rewrite bind_ret | rewrite bind_get_trace
    | rewrite bind_get_fs | rewrite bind_emit
    | rewrite bind_sleep by sleep_length
    | rewrite bind_lift_inr | rewrite bind_lift_inl | rewrite bind_raise_now
    | rewrite bind_exists
    | progress cbn [fs trace] ].

Ltac mstep H :=
  first [ rewrite (bind_ok _ _ _ _ _ H)
        | rewrite (bind_raise _ _ _ _ _ H)
        | rewrite (bind_diverge _ _ _ _ H) ].

Lemma count_app P tr1 tr2 : count P (tr1 ++ tr2) = count P tr1 + count P tr2.
Proof. unfold count. by rewrite filter_app, length_app. Qed.

Lemma count_nil P : count P [] = 0.
Proof. reflexivity. Qed.

Lemma count_cons P e tr :
  count P (e :: tr) = (if P e then 1 else 0) + count P tr.
Proof. unfold count. rewrite filter_cons. by destruct (P e). Qed.


Lemma count_snoc P tr e :
  count P (tr ++ [e]) = count P tr + (if P e then 1 else 0).
Proof.
  rewrite count_app. f_equal. unfold count. simpl.
  rewrite filter_cons, filter_nil. by destruct (P e).
Qed.

Section retry.
Import Pipeline.
Variable gemini : nat → GenArgs → Exn + string.
Variables (cfg : PipelineConfig) (variant : VariantConfig) (prompt image_bytes : string) (out_path : Path).

Let request := request_of cfg variant prompt image_bytes.
Let body := generate_and_write gemini cfg variant prompt image_bytes out_path.

Lemma generate_and_write_fails w e :
  gemini (count is_generate (trace w)) request = inl e →
  body w = (Raise e, {| fs := fs w; trace := trace w ++ [EvGenerate request] |}).
Proof.
  intros H. unfold body, generate_and_write, call_gemini_edit.
  unfold mbind, eff_bind, bind, get_trace, emit, lift. simpl. fold request. 
  by rewrite H.
Qed.

Lemma generate_and_write_succeeds w data fs' :
  gemini (count is_generate (trace w)) request = inr data →
  FS.write_bytes (fs w) out_path data = inr fs' →
  body w = (Ok tt, {| fs := fs'; trace := trace w ++ [EvGenerate request] |}).
Proof.
  intros H Hw. unfold body, generate_and_write, call_gemini_edit.
  unfold mbind, eff_bind, bind, get_trace, emit, lift. simpl. fold request.
  rewrite H. simpl. unfold write_bytes, update_fs. simpl. by rewrite Hw.
Qed.

Lemma generate_and_write_one_call w :
  ∃ r fs', body w = (r, {| fs := fs'; trace := trace w ++ [EvGenerate request] |})
           ∧ r ≠ Diverge.
Proof.
  destruct (gemini (count is_generate (trace w)) request) as [e|data] eqn:H.
  - eexists _, _. split; [by apply generate_and_write_fails|done].
  - destruct (FS.write_bytes (fs w) out_path data) as [e|fs'] eqn:Hw.
    + exists (Raise e), (fs w). split; [|done].
      unfold body, generate_and_write, call_gemini_edit.
      unfold mbind, eff_bind, bind, get_trace, emit, lift. simpl. fold request.
      rewrite H. simpl. unfold write_bytes, update_fs. simpl. by rewrite Hw.
    + eexists _, _. split; [by eapply generate_and_write_succeeds|done].
Qed.

Lemma attempt_loop_calls attempts delay w :
  count is_generate (trace (attempt_loop attempts delay body w).2)
  ≤ count is_generate (trace w) + length attempts.
Proof.
  revert w. induction attempts as [|a rest IH]; intros w; simpl; [lia|].
  destruct (generate_and_write_one_call w) as (r & fs' & Hb & Hr).
  unfold mbind at 1. unfold eff_bind, bind, try_. rewrite Hb.
  destruct r as [[]|e|]; [| |done].
  - simpl. rewrite count_snoc. simpl. lia.
  - destruct (a =? MAX_RETRIES).
    + simpl. rewrite count_snoc. simpl. lia.
    + destruct (sleep_cases (delay * inject_Z (Z.of_nat a))
                  {| fs := fs'; trace := trace w ++ [EvGenerate request] |})
        as [[Hd Hs]|[Hd Hs]].
      * rewrite (bind_sleep _ _ _ Hd).
        etrans; [apply IH|]. simpl. rewrite !count_snoc. simpl. lia.
      * rewrite (bind_sleep_negative _ _ _ Hd).
        simpl. rewrite count_snoc. simpl. lia.
Qed.


Lemma delay_of_inverse (qps : Q) : (1e-6 <= qps → delay_of qps == 1 / qps)%Q.
Proof.
  intros H. unfold delay_of, py_max.
  apply Qle_bool_iff in H. by rewrite H.
Qed.

Lemma delay_of_pos (qps : Q) : (0 < delay_of qps)%Q.
Proof.
  unfold delay_of, py_max.
  destruct (Qle_bool 1e-6 qps) eqn:H.
  - apply Qle_bool_iff in H. 
    assert (0 < qps)%Q by (eapply Qlt_le_trans; [|exact H]; reflexivity).
    unfold Qdiv. rewrite Qmult_1_l. by apply Qinv_lt_0_compat.
  - reflexivity.
Qed.

(** The pauses of the retry loop are never negative. *)
Lemma backoff_nonneg (qps : Q) (n : nat) :
  (0 <= delay_of qps * inject_Z (Z.of_nat n))%Q.
Proof.
  apply Qmult_le_0_compat; [apply Qlt_le_weak, delay_of_pos|].
  change 0%Q with (inject_Z 0). rewrite <- Zle_Qle. lia.
Qed.

(** C1 (as amended).  The retry loop makes at most [MAX_RETRIES] = 3
    attempts and sleeps [delay * n] before the [n]-th retry, where
    [delay = 1 / max(rate_limit_qps, 1e-6)], which is [1 / rate_limit_qps]
    from 1e-6 on.  A call that fails twice and then succeeds writes the
    result after exactly three attempts; a call that fails three times
    re-raises the third failure and no fourth attempt is made. *)
Theorem retry_budget (qps : Q) (w : World) :
  let delay := delay_of qps in
  let k := count is_generate (trace w) in
  let loop := attempt_loop (seq 1 MAX_RETRIES) delay body in
  let three_attempts :=
    trace w ++ [EvGenerate request; EvSleep (delay * inject_Z 1);
                EvGenerate request; EvSleep (delay * inject_Z 2);
                EvGenerate request] in
  (∀ e1 e2 data fs',
      gemini k request = inl e1 →
      gemini (k + 1) request = inl e2 →
      gemini (k + 2) request = inr data →
      FS.write_bytes (fs w) out_path data = inr fs' →
      loop w = (Ok tt, {| fs := fs'; trace := three_attempts |}))
  ∧ (∀ e1 e2 e3,
      gemini k request = inl e1 →
      gemini (k + 1) request = inl e2 →
      gemini (k + 2) request = inl e3 →
      loop w = (Raise e3, {| fs := fs w; trace := three_attempts |}))
  ∧ count is_generate (trace (loop w).2) ≤ k + MAX_RETRIES
  ∧ ((1e-6 <= qps)%Q → (delay == 1 / qps)%Q).
Proof.
  intros delay k loop three_attempts.
  assert (Hk1 : count is_generate (trace w ++ [EvGenerate request]) = k + 1).
  { by rewrite count_snoc. }
  assert (Hk2 : ∀ d, count is_generate
                  ((trace w ++ [EvGenerate request]) ++ [EvSleep d]) = k + 1).
  { intros d. rewrite count_snoc. simpl. lia. }
  assert (Hk3 : ∀ d d', count is_generate
                  ((((trace w ++ [EvGenerate request]) ++ [EvSleep d])
                      ++ [EvGenerate request]) ++ [EvSleep d']) = k + 2).
  { intros d d'. rewrite !count_snoc. simpl. fold k. lia. }
  assert (Hshape : ∀ d d',
    ((((trace w ++ [EvGenerate request]) ++ [EvSleep d])
        ++ [EvGenerate request]) ++ [EvSleep d']) ++ [EvGenerate request]
    = trace w ++ [EvGenerate request; EvSleep d; EvGenerate request;
                  EvSleep d'; EvGenerate request]).
  { intros d d'. by rewrite <- !app_assoc. }
  split; [|split; [|split]].
  - intros e1 e2 data fs' H1 H2 H3 Hw. subst loop. simpl.
    pose proof (try_raise _ _ _ _ (generate_and_write_fails w e1 H1)) as Hb1.
    mstep Hb1. rewrite bind_sleep by apply (backoff_nonneg qps 1).
    simpl fs; simpl trace.
    match goal with |- context [mbind _ (try_ body) ?w1] =>
      assert (Hb2 : try_ body w1 = (Ok (inl e2),
                {| fs := fs w1; trace := trace w1 ++ [EvGenerate request] |}))
    end.
    { apply try_raise, generate_and_write_fails. simpl. by rewrite Hk2. }
    mstep Hb2. rewrite bind_sleep by apply (backoff_nonneg qps 2).
    simpl fs; simpl trace.
    match goal with |- context [mbind _ (try_ body) ?w1] =>
      assert (Hb3 : try_ body w1 = (Ok (inr tt),
                {| fs := fs'; trace := trace w1 ++ [EvGenerate request] |}))
    end.
    { apply try_ok. eapply generate_and_write_succeeds; simpl.
      - rewrite Hk3. exact H3.
      - exact Hw. }
    mstep Hb3. simpl. unfold mret, eff_ret, ret. by rewrite Hshape.
  - intros e1 e2 e3 H1 H2 H3. subst loop. simpl.
    pose proof (try_raise _ _ _ _ (generate_and_write_fails w e1 H1)) as Hb1.
    mstep Hb1. rewrite bind_sleep by apply (backoff_nonneg qps 1).
    simpl fs; simpl trace.
    match goal with |- context [mbind _ (try_ body) ?w1] =>
      assert (Hb2 : try_ body w1 = (Ok (inl e2),
                {| fs := fs w1; trace := trace w1 ++ [EvGenerate request] |}))
    end.
    { apply try_raise, generate_and_write_fails. simpl. by rewrite Hk2. }
    mstep Hb2. rewrite bind_sleep by apply (backoff_nonneg qps 2).
    simpl fs; simpl trace.
    match goal with |- context [mbind _ (try_ body) ?w1] =>
      assert (Hb3 : try_ body w1 = (Ok (inl e3),
                {| fs := fs w1; trace := trace w1 ++ [EvGenerate request] |}))
    end.
    { apply try_raise, generate_and_write_fails. simpl. rewrite Hk3. exact H3. }
    mstep Hb3. simpl. unfold raise. by rewrite Hshape.
  - subst loop. etrans; [apply attempt_loop_calls|]. by rewrite length_seq.
  - apply delay_of_inverse.
Qed.

End retry.

(** C1, witness: with a provider failing twice, the loop ends normally after
    three calls. *)
Lemma retry_budget_witness :
  ∃ w',
    Pipeline.attempt_loop (seq 1 Pipeline.MAX_RETRIES) (Pipeline.delay_of 0.5)
      (Pipeline.generate_and_write (Sample.gemini_failing 2)
         (Sample.pipeline_cfg [Sample.rain]) Sample.rain "sunny" "A"
         ["in"; "g"; "a_rain.png"])
      Sample.one_image
    = (Ok tt, w')
    ∧ count is_generate (trace w') = 3.
Proof.
  eexists. split.
  - eapply (proj1 (retry_budget (Sample.gemini_failing 2)
                     (Sample.pipeline_cfg [Sample.rain]) Sample.rain "sunny" "A"
                     ["in"; "g"; "a_rain.png"] 0.5 Sample.one_image));
      reflexivity.
  - reflexivity.
Defined.

(** C1, counterexample: at [rate_limit_qps = 1e-7] the pause before the
    first retry is 1 000 000 s, not [1 / rate_limit_qps * 1]. *)
Lemma retry_backoff_counterexample :
  ∃ a s d w',
    Pipeline.process_images (Some "key"%string) Sample.yaml_loader
      (Sample.gemini_failing 1) id (Sample.pipeline_cfg [Sample.rain])
      1e-7 Sample.one_image
    = (Ok tt, w')
    ∧ trace w' = [EvLoadPrompt ["p.yaml"]; EvGenerate a; EvSleep s;
                  EvGenerate a; EvSleep d]
    ∧ (s == 1000000)%Q
    ∧ ¬ (s == 1 / 1e-7 * 1)%Q.
Proof.
  eexists _, _, _, _. split; [vm_compute; reflexivity|].
  split; [reflexivity|]. split; [reflexivity|].
  intros H. vm_compute in H. discriminate H.
Qed.

(** ** Paths built from single components *)

Section path_components.

Lemma split_slash_plain (s cur : string) :
  PyPath.has_slash s = false →
  PyStr.split_slash cur s = [String.rev_app cur s].
Proof.
  revert cur. induction s as [|c s IH]; intros cur; simpl; [done|].
  destruct (Ascii.eqb c "/") eqn:Hc; [done|]. simpl.
  intros Hs. by rewrite IH.
Qed.

Lemma prefix_slash_false (s : string) :
  PyPath.has_slash s = false → String.prefix "/" s = false.
Proof.
  intros H. destruct (String.prefix "/" s) eqn:E; [|done].
  apply String.prefix_correct in E.
  destruct s as [|c s]; [done|].
  simpl in E, H. injection E as -> _. done.
Qed.

Lemma of_string_component (s : string) :
  PyPath.is_component s = true → PyPath.of_string s = [s].
Proof.
  unfold PyPath.is_component. intros H.
  apply andb_prop in H as [H Hdot]. apply andb_prop in H as [Hs He].
  apply negb_true_iff in Hs, He, Hdot.
  apply String.eqb_neq in He, Hdot.
  unfold PyPath.of_string.
  rewrite split_slash_plain, prefix_slash_false by done. simpl.
  rewrite filter_cons, filter_nil. by rewrite decide_True.
Qed.

Lemma component_not_absolute (s : string) :
  PyPath.is_component s = true → PyPath.is_absolute [s] = false.
Proof.
  unfold PyPath.is_component, PyPath.is_absolute.
  destruct (String.eqb s "/") eqn:H; [|done].
  apply String.eqb_eq in H as ->. done.
Qed.

Lemma string_app_cons (c : ascii) (a b : string) :
  String c a +:+ b = String c (a +:+ b).
Proof. reflexivity. Qed.

Lemma has_slash_app (a b : string) :
  PyPath.has_slash (a +:+ b) = PyPath.has_slash a || PyPath.has_slash b.
Proof.
  induction a as [|c a IH]; [done|].
  rewrite string_app_cons. simpl. by rewrite IH, orb_assoc.
Qed.

Lemma rsplit_dot_app (s a b : string) :
  PyStr.rsplit_dot s = Some (a, b) → s = a +:+ b.
Proof.
  revert a b. induction s as [|c s IH]; intros a b; simpl; [done|].
  destruct (PyStr.rsplit_dot s) as [[a' b']|].
  - intros [= <- <-]. rewrite string_app_cons. f_equal. by apply IH.
  - destruct (Ascii.eqb c "."); [|done]. by intros [= <- <-].
Qed.

Lemma name_snoc (dir : Path) (file : string) :
  PyPath.has_slash file = false → PyPath.name (dir ++ [file]) = file.
Proof.
  intros H. unfold PyPath.name. rewrite reverse_app. simpl.
  destruct (String.eqb file "/") eqn:E; [|done].
  apply String.eqb_eq in E as ->. done.
Qed.

Lemma parent_snoc (dir : Path) (file : string) :
  PyPath.has_slash file = false → PyPath.parent (dir ++ [file]) = dir.
Proof.
  intros H. unfold PyPath.parent. rewrite reverse_app. simpl.
  destruct (String.eqb file "/") eqn:E.
  - apply String.eqb_eq in E as ->. done.
  - by rewrite reverse_involutive.
Qed.

Lemma stem_snoc (dir : Path) (file : string) :
  PyPath.has_slash file = false →
  PyPath.stem (dir ++ [file]) = PyPath.stem [file].
Proof.
  intros H. unfold PyPath.stem. rewrite name_snoc by done.
  by rewrite (name_snoc [] file H : PyPath.name [file] = file).
Qed.

Lemma stem_no_slash (file : string) :
  PyPath.has_slash file = false → PyPath.has_slash (PyPath.stem [file]) = false.
Proof.
  intros H. unfold PyPath.stem.
  rewrite (name_snoc [] file H : PyPath.name [file] = file).
  destruct (PyStr.rsplit_dot file) as [[a b]|] eqn:E; [|done].
  destruct (_ && _); [|done].
  apply rsplit_dot_app in E. rewrite E, has_slash_app in H.
  by apply orb_false_elim in H as [? _].
Qed.

(** A file name built as [stem + "_" + variant + ext] is one component. *)
Lemma output_name_component (stem_ vname ext : string) :
  PyPath.has_slash stem_ = false →
  PyPath.has_slash vname = false →
  PyPath.has_slash ext = false →
  PyPath.is_component (stem_ +:+ "_" +:+ vname +:+ ext) = true.
Proof.
  intros Hs Hv He. unfold PyPath.is_component.
  rewrite !has_slash_app, Hs, Hv, He. simpl.
  destruct stem_ as [|c [|c' s]];
    repeat (rewrite ?string_app_cons;
            change (EmptyString +:+ ?x) with x);
    simpl; [done|by destruct (Ascii.eqb c ".")..].
Qed.

End path_components.

(** ** File-system facts *)

Section fs_facts.

  Implicit Types (fs : FS.t) (p q : Path).

Import FS.

Lemma node_at_special fs p : special p → node_at fs p = Some Dir.
Proof. by intros [-> | ->]. Qed.

Lemma node_at_lookup fs p : ¬ special p → node_at fs p = fs !! p.
Proof.
  intros H. unfold node_at.
  destruct p as [|r [|x p]]; [by destruct H; left|..|done].
  destruct (String.eqb r "/") eqn:E; [|done].
  apply String.eqb_eq in E as ->. destruct H. by right.
Qed.

Lemma special_dec p : special p ∨ ¬ special p.
Proof.
  destruct (decide (p = [])); [by left; left|].
  destruct (decide (p = ["/"%string])); [by left; right|].
  right. by intros [?|?].
Qed.

Lemma node_at_insert fs q n p :
  ¬ special q →
  node_at (<[q := n]> fs) p = if decide (q = p) then Some n else node_at fs p.
Proof.
  intros Hq. destruct (special_dec p) as [Hp|Hp].
  - rewrite !node_at_special by done.
    case_decide; [by subst|done].
  - rewrite !node_at_lookup by done.
    case_decide; [subst; by rewrite lookup_insert_eq|by rewrite lookup_insert_ne].
Qed.

Lemma node_at_none_not_special fs p : node_at fs p = None → ¬ special p.
Proof. intros H Hs. by rewrite node_at_special in H. Qed.

Lemma write_bytes_inv fs p data fs' :
  write_bytes fs p data = inr fs' →
  fs' = <[p := File data]> fs
  ∧ ¬ special p
  ∧ node_at fs (PyPath.parent p) = Some Dir
  ∧ node_at fs p ≠ Some Dir.
Proof.
  unfold write_bytes. intros H.
  destruct (node_at fs (PyPath.parent p)) as [[c|]|] eqn:Hpar; try done.
  destruct (node_at fs p) as [[c|]|] eqn:Hp; try done;
    injection H as <-; repeat split; try done;
    intros Hs; by rewrite node_at_special in Hp.
Qed.

Lemma write_bytes_is_file fs p data fs' :
  write_bytes fs p data = inr fs' → node_at fs' p = Some (File data).
Proof.
  intros (-> & Hs & _)%write_bytes_inv.
  rewrite node_at_insert by done. by rewrite decide_True.
Qed.

End fs_facts.

(** ** Inverting computations *)

Section inversion.

Context {A B : Type}.

Lemma bind_inv (m : M A) (k : A → M B) w r w' :
  (m ≫= k) w = (r, w') →
  (∃ a w1, m w = (Ok a, w1) ∧ k a w1 = (r, w'))
  ∨ (∃ e, m w = (Raise e, w') ∧ r = Raise e)
  ∨ (m w = (Diverge, w') ∧ r = Diverge).
Proof.
  unfold mbind, eff_bind, bind.
  destruct (m w) as [[a|e|] w1]; intros H.
  - left. by exists a, w1.
  - right. left. injection H as <- <-. by exists e.
  - right. right. by injection H as <- <-.
Qed.

Lemma bind_inv_ok (m : M A) (k : A → M B) w b w' :
  (m ≫= k) w = (Ok b, w') →
  ∃ a w1, m w = (Ok a, w1) ∧ k a w1 = (Ok b, w').
Proof.
  intros [H|[(e & _ & [=])|[_ [=]]]]%bind_inv. exact H.
Qed.

End inversion.

Lemma update_fs_inv_ok op w w' :
  update_fs op w = (Ok tt, w') →
  ∃ fs', op (fs w) = inr fs' ∧ w' = {| fs := fs'; trace := trace w |}.
Proof.
  unfold update_fs. destruct (op (fs w)) as [e|fs']; [done|].
  intros [= <-]. by exists fs'.
Qed.

Lemma mkdir_parents_inv_ok p w w' :
  mkdir_parents p w = (Ok tt, w') →
  ∃ fs', FS.mkdir_parents (fs w) p = inr fs'
         ∧ w' = {| fs := fs'; trace := trace w |}.
Proof. apply update_fs_inv_ok. Qed.

Lemma write_bytes_inv_ok p data w w' :
  write_bytes p data w = (Ok tt, w') →
  ∃ fs', FS.write_bytes (fs w) p data = inr fs'
         ∧ w' = {| fs := fs'; trace := trace w |}.
Proof. apply update_fs_inv_ok. Qed.

Lemma lift_inv_ok {A} (r : Exn + A) w a w' :
  lift r w = (Ok a, w') → r = inr a ∧ w' = w.
Proof. destruct r; simpl; [done|]. by intros [= <- <-]. Qed.

Lemma read_bytes_inv_ok p w c w' :
  read_bytes p w = (Ok c, w') → FS.read_bytes (fs w) p = inr c ∧ w' = w.
Proof.
  unfold read_bytes, bind, get_fs. apply lift_inv_ok.
Qed.

Lemma world_eta w : {| fs := fs w; trace := trace w |} = w.
Proof. by destruct w. Qed.

Section pipeline_units.
Import Pipeline.
Variable gemini : nat → GenArgs → Exn + string.
Variables (cfg : PipelineConfig) (variant : VariantConfig).
Variables (prompt image_bytes : string) (out_path : Path).

Let request := request_of cfg variant prompt image_bytes.
Let body := generate_and_write gemini cfg variant prompt image_bytes out_path.

(** One execution of the [try] block: a call, then either a failure that
    leaves the files alone or a write of the answer. *)
Lemma generate_and_write_cases w :
  (∃ e, body w = (Raise e, {| fs := fs w; trace := trace w ++ [EvGenerate request] |}))
  ∨ (∃ data fs',
        FS.write_bytes (fs w) out_path data = inr fs'
        ∧ body w = (Ok tt, {| fs := fs'; trace := trace w ++ [EvGenerate request] |})).
Proof.
  unfold body, generate_and_write, call_gemini_edit.
  unfold mbind, eff_bind, bind, get_trace, emit, lift. simpl. fold request.
  destruct (gemini (count is_generate (trace w)) request) as [e|data]; simpl.
  - left. by exists e.
  - unfold write_bytes, update_fs. simpl.
    destruct (FS.write_bytes (fs w) out_path data) as [e|fs'] eqn:Hw.
    + left. by exists e.
    + right. by exists data, fs'.
Qed.

(** The retry loop either writes the answer of some attempt, or leaves
    the files alone; it ends normally without a write only if no attempt
    was the last one. *)
Lemma attempt_loop_result attempts delay w r w' :
  attempt_loop attempts delay body w = (r, w') →
  (r = Ok tt ∧ ∃ data, FS.write_bytes (fs w) out_path data = inr (fs w'))
  ∨ (fs w' = fs w
     ∧ ((∃ e, r = Raise e)
        ∨ (r = Ok tt ∧ Forall (λ a, a ≠ MAX_RETRIES) attempts))).
Proof.
  revert w. induction attempts as [|a rest IH]; intros w; simpl.
  - intros [= <- <-]. right. split; [done|]. right. by split.
  - unfold mbind at 1. unfold eff_bind, bind, try_.
    destruct (generate_and_write_cases w) as [[e ->]|(data & fs' & Hw & ->)].
    + destruct (a =? MAX_RETRIES) eqn:Ha.
      * intros [= <- <-]. right. split; [done|]. left. by exists e.
      * match goal with
        | |- context [sleep ?d] => destruct (Qlt_le_dec d 0) as [Hd|Hd]
        end.
        -- rewrite (bind_sleep_negative _ _ _ Hd). intros [= <- <-].
           right. split; [done|]. left. by eexists.
        -- rewrite (bind_sleep _ _ _ Hd). intros H%IH. simpl in H.
           destruct H as [H|[Hfs [H|[Hr Hall]]]]; [by left|right..].
           ++ split; [done|by left].
           ++ split; [done|]. right. split; [done|].
              constructor; [|done]. by apply Nat.eqb_neq.
    + intros [= <- <-]. left. split; [done|]. by exists data.
Qed.

Lemma attempt_loop_ok_written delay w w' :
  attempt_loop (seq 1 MAX_RETRIES) delay body w = (Ok tt, w') →
  ∃ data, FS.write_bytes (fs w) out_path data = inr (fs w').
Proof.
  intros [[_ H]|[_ [[e [=]]|[_ Hall]]]]%attempt_loop_result; [done|].
  exfalso. rewrite Forall_forall in Hall.
  apply (Hall MAX_RETRIES); [|done]. apply list_elem_of_In, in_seq.
  unfold MAX_RETRIES. lia.
Qed.

End pipeline_units.

Section layout.

Lemma joinpath_relative (a b : Path) :
  PyPath.is_absolute b = false → PyPath.joinpath a b = a ++ b.
Proof. unfold PyPath.joinpath. by intros ->. Qed.

Lemma pipeline_out_path_shape (output_root dir : Path) (vname file : string) :
  PyPath.is_component vname = true →
  PyPath.is_component file = true →
  PyPath.is_absolute dir = false →
  Pipeline.out_path_of output_root vname (dir ++ [file])
  = output_root ++ [vname] ++ dir
      ++ [PyPath.stem [file] +:+ "_" +:+ vname +:+ ".png"].
Proof.
  intros Hv Hf Hd.
  assert (Hvs : PyPath.has_slash vname = false).
  { unfold PyPath.is_component in Hv.
    by destruct (PyPath.has_slash vname). }
  assert (Hfs : PyPath.has_slash file = false).
  { unfold PyPath.is_component in Hf.
    by destruct (PyPath.has_slash file). }
  unfold Pipeline.out_path_of, Pipeline.out_dir_of.
  rewrite parent_snoc, stem_snoc by done.
  rewrite (of_string_component vname) by done.
  rewrite (of_string_component (_ +:+ _)); cycle 1.
  { apply output_name_component; [by apply stem_no_slash|done|done]. }
  rewrite (joinpath_relative output_root) by by apply component_not_absolute.
  rewrite (joinpath_relative _ dir) by done.
  rewrite joinpath_relative; cycle 1.
  { apply component_not_absolute, output_name_component;
      [by apply stem_no_slash|done|done]. }
  by rewrite <- !app_assoc.
Qed.

Lemma video_output_path_shape (output_root : Path) (scene vname : string) :
  PyPath.is_component scene = true →
  PyPath.is_component vname = true →
  VeoBatch.output_path_of output_root scene vname
  = output_root ++ [scene; vname; scene +:+ "_" +:+ vname +:+ ".mp4"].
Proof.
  intros Hs Hv.
  assert (Hss : PyPath.has_slash scene = false).
  { unfold PyPath.is_component in Hs.
    by destruct (PyPath.has_slash scene). }
  assert (Hvs : PyPath.has_slash vname = false).
  { unfold PyPath.is_component in Hv.
    by destruct (PyPath.has_slash vname). }
  unfold VeoBatch.output_path_of, VeoBatch.output_dir_of.
  rewrite (of_string_component scene), (of_string_component vname) by done.
  rewrite (of_string_component (_ +:+ _))
    by by apply output_name_component.
  rewrite !joinpath_relative;
    [by rewrite <- !app_assoc|by apply component_not_absolute..|].
  by apply component_not_absolute, output_name_component.
Qed.

End layout.

Section process_image_facts.
Import Pipeline.
Variable gemini : nat → GenArgs → Exn + string.
Variables (cfg : PipelineConfig) (variant : VariantConfig).
Variables (prompt : string) (delay : Q) (img rel : Path).
Hypothesis Hrel : PyPath.relative_to img (input_root cfg) = Some rel.

Let out_dir := out_dir_of (output_root cfg) (name variant) rel.
Let out_path := out_path_of (output_root cfg) (name variant) rel.

(** A unit that ends normally either found its output in place after
    creating the directory, or wrote it. *)
Lemma process_image_ok w w' :
  process_image gemini cfg variant prompt delay img w = (Ok tt, w') →
  ∃ fs1,
    FS.mkdir_parents (fs w) out_dir = inr fs1
    ∧ ((FS.exists_ fs1 out_path = true
        ∧ w' = {| fs := fs1; trace := trace w |})
       ∨ (FS.exists_ fs1 out_path = false
          ∧ ∃ data, FS.write_bytes fs1 out_path data = inr (fs w'))).
Proof.
  unfold process_image. rewrite Hrel.
  intros (r & w1 & [[= <-] ->]%lift_inv_ok & H)%bind_inv_ok.
  apply bind_inv_ok in H as ([] & w2 & Hmk & H).
  unfold mkdir_parents in Hmk.
  apply update_fs_inv_ok in Hmk as (fs1 & Hmk & ->).
  exists fs1. split; [done|].
  apply bind_inv_ok in H as (ex & w3 & Hex & H).
  injection Hex as <- <-. cbn [fs] in H. fold out_path in H.
  destruct (FS.exists_ fs1 out_path) eqn:Hex.
  - left. split; [done|]. cbv [mret eff_ret ret] in H. by injection H as <-.
  - right. split; [done|].
    apply bind_inv_ok in H as (bytes & w4 & [_ ->]%read_bytes_inv_ok & H).
    apply bind_inv_ok in H as ([] & w5 & Hloop & H).
    apply attempt_loop_ok_written in Hloop as [data Hw].
    exists data. by apply sleep_inv_ok in H as [_ ->].
Qed.

Lemma process_image_ok_exists w w' :
  process_image gemini cfg variant prompt delay img w = (Ok tt, w') →
  FS.exists_ (fs w') out_path = true.
Proof.
  intros (fs1 & _ & [[Hex ->]|[_ [data Hw]]])%process_image_ok; [done|].
  unfold FS.exists_. by rewrite (write_bytes_is_file _ _ _ _ Hw).
Qed.

End process_image_facts.

(** ** Frame rules *)

Section frames_rules.

Context {A B : Type}.
Implicit Types (P : Event → bool).

Lemma emits_ret P (a : A) : emits P (mret a).
Proof. intros w r w' [= <- <-]. exists []. by rewrite app_nil_r. Qed.

Lemma emits_raise P e : emits P (@raise A e).
Proof. intros w r w' [= <- <-]. exists []. by rewrite app_nil_r. Qed.

Lemma emits_diverge P : emits P (@diverge A).
Proof. intros w r w' [= <- <-]. exists []. by rewrite app_nil_r. Qed.

Lemma emits_lift P (x : Exn + A) : emits P (lift x).
Proof. destruct x; [apply emits_raise|apply emits_ret]. Qed.

Lemma emits_bind P (m : M A) (k : A → M B) :
  emits P m → (∀ a, emits P (k a)) → emits P (m ≫= k).
Proof.
  intros Hm Hk w r w' H.
  apply bind_inv in H as [(a & w1 & H1 & H2)|[(e & H1 & _)|[H1 _]]];
    [|by eapply Hm..].
  destruct (Hm _ _ _ H1) as (evs1 & He1 & Hall1).
  destruct (Hk a _ _ _ H2) as (evs2 & He2 & Hall2).
  exists (evs1 ++ evs2). split; [|by apply Forall_app].
  by rewrite He2, He1, app_assoc.
Qed.

Lemma emits_try P (m : M A) : emits P m → emits P (try_ m).
Proof.
  intros Hm w r w' H. unfold try_ in H.
  destruct (m w) as [[a|e|] w1] eqn:Hmw; injection H as <- <-; by eapply Hm.
Qed.

Lemma keeps_ret (a : A) : keeps_fs (mret a).
Proof. by intros w r w' [= <- <-]. Qed.

Lemma keeps_raise e : keeps_fs (@raise A e).
Proof. by intros w r w' [= <- <-]. Qed.

Lemma keeps_diverge : keeps_fs (@diverge A).
Proof. by intros w r w' [= <- <-]. Qed.

Lemma keeps_lift (x : Exn + A) : keeps_fs (lift x).
Proof. destruct x; [apply keeps_raise|apply keeps_ret]. Qed.

Lemma keeps_bind (m : M A) (k : A → M B) :
  keeps_fs m → (∀ a, keeps_fs (k a)) → keeps_fs (m ≫= k).
Proof.
  intros Hm Hk w r w' H.
  apply bind_inv in H as [(a & w1 & H1 & H2)|[(e & H1 & _)|[H1 _]]];
    [|by eapply Hm..].
  rewrite (Hk a _ _ _ H2). by eapply Hm.
Qed.

Lemma keeps_try (m : M A) : keeps_fs m → keeps_fs (try_ m).
Proof.
  intros Hm w r w' H. unfold try_ in H.
  destruct (m w) as [[a|e|] w1] eqn:Hmw; injection H as <- <-; by eapply Hm.
Qed.

End frames_rules.

Lemma emits_fmap {A B} P (f : A → B) (m : M A) : emits P m → emits P (f <$> m).
Proof. intros Hm. apply emits_bind; [done|]. intros a. apply emits_ret. Qed.

Lemma keeps_fmap {A B} (f : A → B) (m : M A) : keeps_fs m → keeps_fs (f <$> m).
Proof. intros Hm. apply keeps_bind; [done|]. intros a. apply keeps_ret. Qed.

Lemma emits_emit P e : P e = true → emits P (emit e).
Proof. intros He w r w' [= <- <-]. exists [e]. split; [done|]. by constructor. Qed.

Lemma emits_get_fs P : emits P get_fs.
Proof. intros w r w' [= <- <-]. exists []. by rewrite app_nil_r. Qed.

Lemma emits_get_trace P : emits P get_trace.
Proof. intros w r w' [= <- <-]. exists []. by rewrite app_nil_r. Qed.

Lemma emits_update_fs P op : emits P (update_fs op).
Proof.
  intros w r w' H. unfold update_fs in H.
  destruct (op (fs w)); injection H as <- <-; exists []; by rewrite app_nil_r.
Qed.

Lemma emits_read_bytes P p : emits P (read_bytes p).
Proof. apply emits_bind; [apply emits_get_fs|]. intros. apply emits_lift. Qed.

Lemma emits_exists P p : emits P (exists_ p).
Proof. apply emits_bind; [apply emits_get_fs|]. intros. apply emits_ret. Qed.

Lemma emits_for {A} P (l : list A) (body : A → M unit) :
  (∀ x, emits P (body x)) → emits P (for_ l body).
Proof.
  intros Hb. induction l as [|x l IH]; simpl; [apply emits_ret|].
  apply emits_bind; [apply Hb|]. by intros _.
Qed.

Lemma keeps_emit e : keeps_fs (emit e).
Proof. by intros w r w' [= <- <-]. Qed.

Lemma keeps_sleep d : keeps_fs (sleep d).
Proof.
  intros w r w' H. by destruct (sleep_cases d w) as [[_ Hs]|[_ Hs]];
    rewrite Hs in H; injection H as _ <-.
Qed.

Lemma emits_sleep P d : P (EvSleep d) = true → emits P (sleep d).
Proof.
  intros HP w r w' H. destruct (sleep_cases d w) as [[_ Hs]|[_ Hs]];
    rewrite Hs in H; injection H as _ <-.
  - exists [EvSleep d]. split; [done|]. by constructor.
  - exists []. split; [by rewrite app_nil_r|done].
Qed.

Lemma keeps_get_fs : keeps_fs get_fs.
Proof. by intros w r w' [= <- <-]. Qed.

Lemma keeps_get_trace : keeps_fs get_trace.
Proof. by intros w r w' [= <- <-]. Qed.

Lemma keeps_read_bytes p : keeps_fs (read_bytes p).
Proof. apply keeps_bind; [apply keeps_get_fs|]. intros. apply keeps_lift. Qed.

Lemma keeps_exists p : keeps_fs (exists_ p).
Proof. apply keeps_bind; [apply keeps_get_fs|]. intros. apply keeps_ret. Qed.

Lemma keeps_for {A} (l : list A) (body : A → M unit) :
  (∀ x, keeps_fs (body x)) → keeps_fs (for_ l body).
Proof.
  intros Hb. induction l as [|x l IH]; simpl; [apply keeps_ret|].
  apply keeps_bind; [apply Hb|]. by intros _.
Qed.

Create HintDb frame discriminated.
#[export] Hint Resolve emits_ret emits_raise emits_diverge emits_lift emits_try
  emits_fmap emits_get_fs emits_get_trace emits_update_fs emits_read_bytes
  emits_exists keeps_ret keeps_raise keeps_diverge keeps_lift keeps_try
  keeps_fmap keeps_emit keeps_get_fs keeps_get_trace keeps_read_bytes
  keeps_exists : frame.

(** Decompose a goal [emits P m] / [keeps_fs m] along the binds of [m]. *)
Ltac frame_step :=
  lazymatch goal with
  | |- emits _ (mbind _ _) => apply emits_bind; [|intros ?]
  | |- keeps_fs (mbind _ _) => apply keeps_bind; [|intros ?]
  | |- emits _ (fmap _ _) => apply emits_fmap
  | |- keeps_fs (fmap _ _) => apply keeps_fmap
  | |- emits _ (for_ _ _) => apply emits_for; intros ?
  | |- keeps_fs (for_ _ _) => apply keeps_for; intros ?
  | |- emits _ (emit _) => apply emits_emit; reflexivity
  | |- emits _ (sleep _) => apply emits_sleep; reflexivity
  | |- keeps_fs (sleep _) => apply keeps_sleep
  | |- emits _ (mkdir_parents _) => apply emits_update_fs
  | |- emits _ (write_bytes _ _) => apply emits_update_fs
  | |- emits _ (match ?x with _ => _ end) => destruct x
  | |- keeps_fs (match ?x with _ => _ end) => destruct x
  | |- emits _ (let '(_, _) := ?x in _) => destruct x
  | |- keeps_fs (let '(_, _) := ?x in _) => destruct x
  | |- _ => solve [eauto with frame]
  end.
Ltac frame := repeat frame_step.

(** ** One video job: frame rules and the poller *)

Section video_job.
Import Veo.
Variable environ_api_key : option string.
Variable veo_submit : nat → SubmitArgs → Exn + Operation.
Variable veo_poll : nat → Operation → Exn + Operation.
Variable http_get : nat → string → Exn + string.

Let run_generation := run_generation environ_api_key veo_submit veo_poll http_get.
Let poll_loop := poll_loop veo_poll.

Lemma keeps_resolve_api_key k : keeps_fs (resolve_api_key environ_api_key k).
Proof. unfold resolve_api_key. frame. Qed.

Lemma keeps_read_frame f : keeps_fs (read_frame f).
Proof. unfold read_frame, read_image_bytes. frame. Qed.

Lemma keeps_generate_videos a : keeps_fs (generate_videos veo_submit a).
Proof. unfold generate_videos. frame. Qed.

Lemma keeps_operations_get op : keeps_fs (operations_get veo_poll op).
Proof. unfold operations_get. frame. Qed.

Lemma keeps_requests_get u : keeps_fs (requests_get http_get u).
Proof. unfold requests_get. frame. Qed.

Lemma keeps_poll_loop fuel interval op : keeps_fs (poll_loop fuel interval op).
Proof.
  revert op. induction fuel as [|fuel IH]; intros op; simpl;
    destruct (done op); frame.
  apply keeps_operations_get.
Qed.


(** A job that ends normally returns its output path, after creating the
    parent directory and writing the payload there. *)
Lemma run_generation_ok fuel cfg w p w' :
  run_generation fuel cfg w = (Ok p, w') →
  p = output_path cfg
  ∧ ∃ fs1 data,
      FS.mkdir_parents (fs w) (PyPath.parent (output_path cfg)) = inr fs1
      ∧ FS.write_bytes fs1 (output_path cfg) data = inr (fs w').
Proof.
  unfold run_generation, Veo.run_generation.
  intros (key & w1 & H1 & H)%bind_inv_ok.
  apply keeps_resolve_api_key in H1.
  apply bind_inv_ok in H as (fb & w2 & H2 & H). apply keeps_read_frame in H2.
  apply bind_inv_ok in H as (lb & w3 & H3 & H). apply keeps_read_frame in H3.
  apply bind_inv_ok in H as (op0 & w4 & H4 & H). apply keeps_generate_videos in H4.
  apply bind_inv_ok in H as (op & w5 & H5 & H). apply keeps_poll_loop in H5.
  assert (Hfs : fs w5 = fs w) by congruence.
  clear H1 H2 H3 H4 H5. rewrite <- Hfs.
  destruct (error op); [done|].
  destruct (result op) as [[|generated vs]|]; [done| |done].
  destruct (nonempty (video_bytes generated)) as [data|].
  - unfold save in H.
    apply bind_inv_ok in H as ([] & w6 & Hmk & H).
    apply mkdir_parents_inv_ok in Hmk as (fs1 & Hmk & ->).
    apply bind_inv_ok in H as ([] & w7 & Hwr & H).
    apply write_bytes_inv_ok in Hwr as (fs2 & Hwr & ->).
    injection H as <- <-. split; [done|]. by exists fs1, data.
  - destruct (nonempty (uri generated)) as [u|]; [|done].
    apply bind_inv_ok in H as ([] & w6 & Hmk & H).
    apply mkdir_parents_inv_ok in Hmk as (fs1 & Hmk & ->).
    apply bind_inv_ok in H as (content & w7 & Hget & H).
    apply keeps_requests_get in Hget. cbn [fs] in Hget.
    apply bind_inv_ok in H as ([] & w8 & Hwr & H).
    apply write_bytes_inv_ok in Hwr as (fs2 & Hwr & ->).
    injection H as <- <-. split; [done|]. exists fs1, content.
    split; [done|]. by rewrite <- Hget.
Qed.

Lemma run_generation_ok_is_file fuel cfg w p w' :
  run_generation fuel cfg w = (Ok p, w') →
  p = output_path cfg ∧ FS.is_file (fs w') (output_path cfg) = true.
Proof.
  intros (-> & fs1 & data & _ & Hw)%run_generation_ok. split; [done|].
  unfold FS.is_file. by rewrite (write_bytes_is_file _ _ _ _ Hw).
Qed.






End video_job.



(** ** Output layout and failure propagation *)

Section batch_job.
Import VeoBatch.
Variable float_of_str : string → option Q.
Variable int_of_str : string → option Z.
Variable reference_types : list string.

(** The job built for a (scene, variant) pair targets
    [output_path_of]; building it only creates the output directory. *)
Lemma construct_job_config_ok batch_cfg key_path scene variant first last
    prompt_text w job w' :
  construct_job_config float_of_str int_of_str reference_types batch_cfg
    key_path scene variant first last prompt_text w = (Ok job, w') →
  Veo.output_path job
  = output_path_of (b_output_root batch_cfg) scene (v_name variant)
  ∧ Veo.first_frame job = Some first
  ∧ Veo.api_key_path job = key_path
  ∧ ∃ fs',
      FS.mkdir_parents (fs w)
        (output_dir_of (b_output_root batch_cfg) scene (v_name variant))
      = inr fs'
      ∧ w' = {| fs := fs'; trace := trace w |}.
Proof.
  unfold construct_job_config.
  intros (d & w1 & [_ ->]%lift_inv_ok & H)%bind_inv_ok.
  apply bind_inv_ok in H as (a & w2 & [_ ->]%lift_inv_ok & H).
  apply bind_inv_ok in H as (r & w3 & [_ ->]%lift_inv_ok & H).
  apply bind_inv_ok in H as (ps & w4 & [_ ->]%lift_inv_ok & H).
  apply bind_inv_ok in H as (uf & w5 & [_ ->]%lift_inv_ok & H).
  apply bind_inv_ok in H as (ul & w6 & [_ ->]%lift_inv_ok & H).
  apply bind_inv_ok in H as (rt & w7 & [_ ->]%lift_inv_ok & H).
  apply bind_inv_ok in H as ([] & w8 & Hmk & H).
  apply mkdir_parents_inv_ok in Hmk as (fs' & Hmk & ->).
  cbv [mret eff_ret ret] in H. injection H as <- <-.
  repeat split; try done. by exists fs'.
Qed.

End batch_job.

Section layout_theorem.

(** C7 (as amended).  The image pipeline writes the output of an image
    [dir/file] under a variant at
    [output_root/<variant>/<dir>/<stem>_<variant>.png]: the variant
    directory comes first, the group directories after it.  The video
    batch writes at
    [output_root/<scene>/<variant>/<scene>_<variant>.mp4]. *)
Theorem output_layout :
  (∀ (output_root dir : Path) (vname file : string),
      PyPath.is_component vname = true →
      PyPath.is_component file = true →
      PyPath.is_absolute dir = false →
      Pipeline.out_path_of output_root vname (dir ++ [file])
      = output_root ++ [vname] ++ dir
          ++ [PyPath.stem [file] +:+ "_" +:+ vname +:+ ".png"])
  ∧ (∀ gemini cfg variant prompt delay img rel w w',
        PyPath.relative_to img (input_root cfg) = Some rel →
        Pipeline.process_image gemini cfg variant prompt delay img w = (Ok tt, w') →
        FS.exists_ (fs w')
          (Pipeline.out_path_of (output_root cfg) (name variant) rel) = true)
  ∧ (∀ (output_root : Path) (scene vname : string),
        PyPath.is_component scene = true →
        PyPath.is_component vname = true →
        VeoBatch.output_path_of output_root scene vname
        = output_root ++ [scene; vname; scene +:+ "_" +:+ vname +:+ ".mp4"])
  ∧ (∀ float_of_str int_of_str reference_types batch_cfg key_path scene
       variant first last prompt_text w job w',
        VeoBatch.construct_job_config float_of_str int_of_str reference_types
          batch_cfg key_path scene variant first last prompt_text w
        = (Ok job, w') →
        Veo.output_path job
        = VeoBatch.output_path_of (b_output_root batch_cfg) scene (v_name variant))
  ∧ (∀ environ veo_submit veo_poll http_get fuel job w p w',
        Veo.run_generation environ veo_submit veo_poll http_get fuel job w
        = (Ok p, w') →
        p = Veo.output_path job
        ∧ FS.is_file (fs w') (Veo.output_path job) = true).
Proof.
  split; [exact pipeline_out_path_shape|].
  split; [intros * Hrel Hp; by eapply process_image_ok_exists|].
  split; [exact video_output_path_shape|].
  split.
  - intros * H. by eapply construct_job_config_ok.
  - intros *. apply run_generation_ok_is_file.
Qed.

End layout_theorem.

(** C7, witness: image [g/a.png] under the variant [rain]. *)
Lemma output_layout_witness :
  Pipeline.out_path_of ["out"] "rain" (["g"] ++ ["a.png"])
  = ["out"; "rain"; "g"; "a_rain.png"].
Proof.
  apply (proj1 output_layout ["out"] ["g"] "rain"%string "a.png"%string);
    reflexivity.
Defined.

(** C7, counterexample: the pipeline run on [in/g/a.png] leaves its output
    at [out/rain/g/a_rain.png] and nothing at [out/g/rain/a_rain.png]. *)
Lemma output_layout_image_counterexample :
  ∃ w',
    Pipeline.process_images (Some "key"%string) Sample.yaml_loader
      Sample.gemini_ok id (Sample.pipeline_cfg [Sample.rain]) 0.5
      Sample.one_image
    = (Ok tt, w')
    ∧ FS.is_file (fs w') ["out"; "rain"; "g"; "a_rain.png"] = true
    ∧ FS.exists_ (fs w') ["out"; "g"; "rain"; "a_rain.png"] = false.
Proof.
  eexists. split; [vm_compute; reflexivity|].
  split; vm_compute; reflexivity.
Qed.

Section fault_isolation.

(** A loop stops at the first iteration that raises. *)
Lemma for_abort {A} (body : A → M unit) pre x rest w0 w1 e w2 :
  for_ pre body w0 = (Ok tt, w1) →
  body x w1 = (Raise e, w2) →
  for_ (pre ++ x :: rest) body w0 = (Raise e, w2).
Proof.
  revert w0. induction pre as [|y pre IH]; intros w0; simpl.
  - cbv [mret eff_ret ret]. intros [= <-] Hx. by mstep Hx.
  - intros ([] & w & Hy & Hpre)%bind_inv_ok Hx. mstep Hy. by apply IH.
Qed.

(** C4 (as amended).  A unit that raises, in particular one whose retries
    are exhausted, stops the run: the exception leaves the loop over the
    images, the loop over the variants and [process_images], and in the
    video batch the loops over the variants and the scenes; the units
    after it are not processed. *)
Theorem unit_failure_aborts_run :
  (∀ gemini os_order cfg variant prompt delay pre path rest w0 w1 e w2,
      let step := Pipeline.image_step gemini cfg variant prompt delay in
      Pipeline.rglob_sorted os_order (input_root cfg) w0
      = (Ok (pre ++ path :: rest), w0) →
      for_ pre step w0 = (Ok tt, w1) →
      step path w1 = (Raise e, w2) →
      Pipeline.images_loop gemini os_order cfg variant prompt delay w0
      = (Raise e, w2))
  ∧ (∀ yaml_safe_load gemini os_order cfg delay cache variant rest
       template cache' w0 w1 e w2,
        Pipeline.get_template yaml_safe_load cache (prompt_path variant) w0
        = (Ok (template, cache'), w1) →
        Pipeline.images_loop gemini os_order cfg variant
          (Pipeline.build_prompt template) delay w1 = (Raise e, w2) →
        Pipeline.variants_loop yaml_safe_load gemini os_order cfg delay cache
          (variant :: rest) w0 = (Raise e, w2))
  ∧ (∀ environ yaml_safe_load gemini os_order cfg qps key w0 w1 e w2,
        Pipeline.resolve_api_key environ (api_key_path cfg) w0 = (Ok key, w1) →
        Pipeline.variants_loop yaml_safe_load gemini os_order cfg
          (Pipeline.delay_of qps) ∅ (variants cfg) w1 = (Raise e, w2) →
        Pipeline.process_images environ yaml_safe_load gemini os_order cfg qps w0
        = (Raise e, w2))
  ∧ (∀ float_of_str int_of_str reference_types yaml_safe_load veo_submit
       veo_poll http_get os_order fuel environ cfg scene pre variant rest
       w0 w1 e w2,
        let step :=
          VeoBatch.process_variant float_of_str int_of_str reference_types
            yaml_safe_load veo_submit veo_poll http_get os_order fuel environ
            cfg scene in
        b_variants cfg = pre ++ variant :: rest →
        for_ pre step w0 = (Ok tt, w1) →
        step variant w1 = (Raise e, w2) →
        VeoBatch.process_scene_folder float_of_str int_of_str reference_types
          yaml_safe_load veo_submit veo_poll http_get os_order fuel environ
          cfg scene w0
        = (Raise e, w2))
  ∧ (∀ float_of_str int_of_str reference_types environ yaml_safe_load
       veo_submit veo_poll http_get os_order fuel cfg key pre scene rest
       w0 w1 w2 w3 e w4,
        let step :=
          VeoBatch.process_scene_folder float_of_str int_of_str reference_types
            yaml_safe_load veo_submit veo_poll http_get os_order fuel
            (match environ with Some k => Some k | None => Some key end)
            cfg in
        Veo.resolve_api_key environ (b_api_key_path cfg) w0 = (Ok key, w1) →
        VeoBatch.group_folders os_order (b_input_root cfg) w1
        = (Ok (pre ++ scene :: rest), w2) →
        for_ pre step w2 = (Ok tt, w3) →
        step scene w3 = (Raise e, w4) →
        VeoBatch.main float_of_str int_of_str reference_types environ
          yaml_safe_load veo_submit veo_poll http_get os_order fuel cfg w0
        = (Raise e, w4)).
Proof.
  split.
  { intros * Hl Hpre Hx. unfold Pipeline.images_loop.
    mstep Hl. by eapply for_abort. }
  split.
  { intros * Ht Hi. simpl. mstep Ht. by mstep Hi. }
  split.
  { intros * Hk Hv. unfold Pipeline.process_images. mstep Hk. exact Hv. }
  split.
  { intros * Hvs Hpre Hv. unfold VeoBatch.process_scene_folder.
    rewrite Hvs. by eapply for_abort. }
  intros * Hk Hg Hpre Hs. unfold VeoBatch.main.
  mstep Hk. mstep Hg. by eapply for_abort.
Qed.

End fault_isolation.

(** C4, witness: with one image and a provider that is down, the loop over
    the listing raises at that image. *)
Lemma unit_failure_aborts_run_witness :
  ∃ w',
    Pipeline.images_loop Sample.gemini_down id
      (Sample.pipeline_cfg [Sample.rain]) Sample.rain "sunny" 2 Sample.two_images
    = (Raise (External "503"), w').
Proof.
  eexists.
  eapply (proj1 unit_failure_aborts_run Sample.gemini_down id
            (Sample.pipeline_cfg [Sample.rain]) Sample.rain "sunny"%string 2%Q
            [ ["in"; "g"] ] ["in"; "g"; "a.png"] [ ["in"; "g"; "b.png"] ]
            Sample.two_images Sample.two_images);
    vm_compute; reflexivity.
Defined.

(** C4, counterexample: with the provider down, the run over two images
    (and the batch over two scenes) raises at the first unit; the second
    image is never sent and no output exists for it. *)
Lemma fault_isolation_counterexample :
  (∃ w',
      Pipeline.process_images (Some "key"%string) Sample.yaml_loader
        Sample.gemini_down id (Sample.pipeline_cfg [Sample.rain]) 0.5
        Sample.two_images
      = (Raise (External "503"), w')
      ∧ count is_generate (trace w') = 3
      ∧ Forall (λ e, match e with
                     | EvGenerate a => g_image_bytes a = "A"%string
                     | _ => True
                     end) (trace w')
      ∧ FS.exists_ (fs w') ["out"; "rain"; "g"; "b_rain.png"] = false)
  ∧ (∃ w',
      VeoBatch.main (λ _, None) (λ _, None) Sample.reference_types
        (Some "key"%string) Sample.yaml_loader Sample.veo_down
        (Sample.veo_poll_after 2) Sample.http_none id 5 Sample.batch_cfg
        Sample.video_world
      = (Raise (External "503"), w')
      ∧ count is_submit (trace w') = 1
      ∧ FS.exists_ (fs w') ["videos"; "s2"; "rain"; "s2_rain.mp4"] = false).
Proof.
  split.
  - eexists. split; [vm_compute; reflexivity|].
    split; [vm_compute; reflexivity|].
    split; [|vm_compute; reflexivity].
    repeat constructor.
  - eexists. split; [vm_compute; reflexivity|].
    split; vm_compute; reflexivity.
Qed.

(** ** Prompt loading *)

Lemma emits_weaken {A} (P Q : Event → bool) (m : M A) :
  (∀ e, P e = true → Q e = true) → emits P m → emits Q m.
Proof.
  intros HPQ Hm w r w' H. destruct (Hm _ _ _ H) as (evs & He & Hall).
  exists evs. split; [done|]. eapply Forall_impl; [exact Hall|]. exact HPQ.
Qed.

Lemma count_none P evs : Forall (λ e, P e = false) evs → count P evs = 0.
Proof.
  induction 1 as [|e evs He _ IH]; [done|].
  by rewrite count_cons, He, IH.
Qed.

(** Events that all fail a test do not move its counter. *)
Lemma emits_count {A} (P Q : Event → bool) (m : M A) w r w' :
  emits P m → (∀ e, P e = true → Q e = false) →
  m w = (r, w') → count Q (trace w') = count Q (trace w).
Proof.
  intros Hm HPQ H. destruct (Hm _ _ _ H) as (evs & -> & Hall).
  rewrite count_app, (count_none Q evs); [lia|].
  eapply Forall_impl; [exact Hall|]. exact HPQ.
Qed.

Lemma emits_nothing {A} (m : M A) w r w' :
  emits (λ _, false) m → m w = (r, w') → trace w' = trace w.
Proof.
  intros Hm H. destruct (Hm _ _ _ H) as ([|e evs] & -> & Hall).
  - by rewrite app_nil_r.
  - by inversion Hall.
Qed.

Section pipeline_frames.
Import Pipeline.
Variable environ_api_key : option string.
Variable yaml_safe_load : string → Exn + Yaml.t.
Variable gemini : nat → GenArgs → Exn + string.
Variable os_order : list Path → list Path.

Lemma emits_pipeline_api_key P k : emits P (resolve_api_key environ_api_key k).
Proof. unfold resolve_api_key. frame. Qed.

Lemma emits_rglob_sorted P root : emits P (rglob_sorted os_order root).
Proof. unfold rglob_sorted. frame. Qed.

Lemma emits_attempt_loop P attempts delay (body : M unit) :
  (∀ d, P (EvSleep d) = true) → emits P body →
  emits P (attempt_loop attempts delay body).
Proof.
  intros Hs Hb. induction attempts as [|a rest IH]; simpl; frame;
    try (apply emits_sleep, Hs); auto.
Qed.

Lemma emits_generate_and_write P cfg variant prompt bytes out :
  (∀ a, P (EvGenerate a) = true) →
  emits P (generate_and_write gemini cfg variant prompt bytes out).
Proof.
  intros Hg. unfold generate_and_write, call_gemini_edit. frame;
    try (apply emits_emit, Hg); auto.
Qed.

Lemma emits_process_image P cfg variant prompt delay img :
  (∀ d, P (EvSleep d) = true) → (∀ a, P (EvGenerate a) = true) →
  emits P (process_image gemini cfg variant prompt delay img).
Proof.
  intros Hs Hg. unfold process_image. frame;
    try (apply emits_sleep, Hs);
    try (by apply emits_attempt_loop, emits_generate_and_write); auto.
Qed.

Lemma emits_images_loop P cfg variant prompt delay :
  (∀ d, P (EvSleep d) = true) → (∀ a, P (EvGenerate a) = true) →
  emits P (images_loop gemini os_order cfg variant prompt delay).
Proof.
  intros Hs Hg. unfold images_loop, image_step. frame;
    try apply emits_rglob_sorted; try (by apply emits_process_image); auto.
Qed.

End pipeline_frames.

Section prompt_cache.
Import Pipeline.
Variable environ_api_key : option string.
Variable yaml_safe_load : string → Exn + Yaml.t.
Variable gemini : nat → GenArgs → Exn + string.
Variable os_order : list Path → list Path.

Lemma loads_of_snoc_same p tr : loads_of p (tr ++ [EvLoadPrompt p]) = loads_of p tr + 1.
Proof. unfold loads_of. rewrite count_snoc. simpl. by rewrite bool_decide_eq_true_2. Qed.

Lemma loads_of_snoc_other p q tr :
  q ≠ p → loads_of p (tr ++ [EvLoadPrompt q]) = loads_of p tr.
Proof.
  intros H. unfold loads_of. rewrite count_snoc. simpl.
  rewrite bool_decide_eq_false_2 by done. lia.
Qed.

(** A load appends exactly one event, whether or not it succeeds. *)
Lemma load_prompt_template_trace path w r w' :
  load_prompt_template yaml_safe_load path w = (r, w') →
  trace w' = trace w ++ [EvLoadPrompt path].
Proof.
  unfold load_prompt_template. rewrite bind_emit. intros H.
  apply emits_nothing in H; [done|]. frame.
Qed.

Lemma load_prompt_template_trimmed path w text m pos neg :
  FS.read_bytes (fs w) path = inr text →
  yaml_safe_load text = inr (Yaml.Map m) →
  m !! "positive" = Some (Yaml.Str pos) →
  m !! "negative" = Some (Yaml.Str neg) →
  load_prompt_template yaml_safe_load path w
  = (Ok {| positive := PyStr.strip pos; negative := PyStr.strip neg |},
     {| fs := fs w; trace := trace w ++ [EvLoadPrompt path] |}).
Proof.
  intros Hr Hy Hp Hn. unfold load_prompt_template, read_bytes. mred.
  rewrite Hr. mred. rewrite Hy. mred.
  unfold Yaml.getitem. rewrite Hp, Hn. by mred.
Qed.

Lemma get_template_hit cache path template w :
  cache !! path = Some template →
  get_template yaml_safe_load cache path w = (Ok (template, cache), w).
Proof. intros H. unfold get_template. by rewrite H. Qed.

Lemma get_template_miss cache path template w w' :
  cache !! path = None →
  load_prompt_template yaml_safe_load path w = (Ok template, w') →
  get_template yaml_safe_load cache path w
  = (Ok (template, <[path := template]> cache), w').
Proof. intros H Hl. unfold get_template. rewrite H. by mstep Hl. Qed.

Lemma get_template_loads cache path w r w' :
  get_template yaml_safe_load cache path w = (r, w') →
  (cache !! path = None ∧ trace w' = trace w ++ [EvLoadPrompt path]
   ∧ ∀ t c, r = Ok (t, c) → c = <[path := t]> cache)
  ∨ (is_Some (cache !! path) ∧ trace w' = trace w ∧ ∀ t c, r = Ok (t, c) → c = cache).
Proof.
  unfold get_template. destruct (cache !! path) as [t|] eqn:Hc.
  - intros [= <- <-]. right. split; [by eexists|]. split; [done|].
    by intros t' c [= _ <-].
  - intros H. left. split; [done|].
    apply bind_inv in H as [(t & w1 & Hl & H)|[(e & Hl & ->)|[Hl ->]]].
    + injection H as <- <-. split; [by eapply load_prompt_template_trace|].
      by intros t' c [= <- <-].
    + split; [by eapply load_prompt_template_trace|]. by intros.
    + split; [by eapply load_prompt_template_trace|]. by intros.
Qed.

Lemma images_loop_loads p cfg variant prompt delay w r w' :
  images_loop gemini os_order cfg variant prompt delay w = (r, w') →
  loads_of p (trace w') = loads_of p (trace w).
Proof.
  apply (emits_count (λ e, negb (is_load_of p e))).
  - by apply emits_images_loop.
  - intros e. by destruct (is_load_of p e).
Qed.

(** With the cache, the number of loads of [p] never exceeds its value at
    the start of the run by more than one, and is unchanged as long as
    [p] is not cached. *)
Lemma variants_loop_loads p n0 cfg delay vs cache w r w' :
  (cache !! p = None → loads_of p (trace w) = n0) →
  loads_of p (trace w) ≤ n0 + 1 →
  variants_loop yaml_safe_load gemini os_order cfg delay cache vs w = (r, w') →
  loads_of p (trace w') ≤ n0 + 1.
Proof.
  revert cache w. induction vs as [|variant rest IH]; intros cache w Hnone Hle; simpl.
  - by intros [= <- <-].
  - intros H.
    apply bind_inv in H as [([t c] & w1 & Ht & H)|[(e & Ht & _)|[Ht _]]].
    + (* the template was obtained *)
      assert (Hinv : (c !! p = None → loads_of p (trace w1) = n0)
                     ∧ loads_of p (trace w1) ≤ n0 + 1).
      { apply get_template_loads in Ht
          as [(Hc & -> & Hupd)|(Hc & -> & Hupd)].
        - rewrite (Hupd t c eq_refl).
          destruct (decide (prompt_path variant = p)) as [<-|Hne].
          + rewrite lookup_insert_eq, loads_of_snoc_same.
            split; [done|]. rewrite (Hnone Hc). lia.
          + rewrite lookup_insert_ne, loads_of_snoc_other by done. done.
        - by rewrite (Hupd t c eq_refl). }
      destruct Hinv as [Hnone1 Hle1].
      apply bind_inv in H as [([] & w2 & Hi & H)|[(e & Hi & _)|[Hi _]]].
      * apply (images_loop_loads p) in Hi.
        eapply (IH c w2); [| |exact H]; by rewrite Hi.
      * by rewrite (images_loop_loads p _ _ _ _ _ _ _ Hi).
      * by rewrite (images_loop_loads p _ _ _ _ _ _ _ Hi).
    + apply get_template_loads in Ht
        as [(Hc & -> & _)|(Hc & -> & _)]; [|done].
      destruct (decide (prompt_path variant = p)) as [<-|Hne].
      * rewrite loads_of_snoc_same, (Hnone Hc). lia.
      * by rewrite loads_of_snoc_other.
    + apply get_template_loads in Ht
        as [(Hc & -> & _)|(Hc & -> & _)]; [|done].
      destruct (decide (prompt_path variant = p)) as [<-|Hne].
      * rewrite loads_of_snoc_same, (Hnone Hc). lia.
      * by rewrite loads_of_snoc_other.
Qed.

Lemma process_images_loads_once p cfg qps w :
  loads_of p (trace (process_images environ_api_key yaml_safe_load gemini
                       os_order cfg qps w).2)
  ≤ loads_of p (trace w) + 1.
Proof.
  destruct (process_images _ _ _ _ _ _ w) as [r w'] eqn:H. simpl.
  unfold process_images in H.
  apply bind_inv in H as [(k & w1 & Hk & H)|[(e & Hk & _)|[Hk _]]].
  - apply (emits_nothing _ _ _ _ (emits_pipeline_api_key _ _ _)) in Hk.
    eapply (variants_loop_loads p (loads_of p (trace w))); [| |exact H];
      rewrite Hk; [done|lia].
  - apply (emits_nothing _ _ _ _ (emits_pipeline_api_key _ _ _)) in Hk.
    rewrite Hk. lia.
  - apply (emits_nothing _ _ _ _ (emits_pipeline_api_key _ _ _)) in Hk.
    rewrite Hk. lia.
Qed.

End prompt_cache.

Section video_frames.
Variable float_of_str : string → option Q.
Variable int_of_str : string → option Z.
Variable reference_types : list string.
Variable environ_api_key : option string.
Variable yaml_safe_load : string → Exn + Yaml.t.
Variable veo_submit : nat → SubmitArgs → Exn + Veo.Operation.
Variable veo_poll : nat → Veo.Operation → Exn + Veo.Operation.
Variable http_get : nat → string → Exn + string.
Variable os_order : list Path → list Path.

(** A video job emits sleeps and provider calls only. *)
Lemma emits_poll_loop P fuel interval op :
  (∀ d, P (EvSleep d) = true) → P EvPoll = true →
  emits P (Veo.poll_loop veo_poll fuel interval op).
Proof.
  intros Hs Hp. revert op. induction fuel as [|fuel IH]; intros op; simpl;
    destruct (Veo.done op); frame;
    try (apply emits_sleep; auto); try (apply emits_emit; auto).
  unfold Veo.operations_get. frame. by apply emits_emit.
Qed.

Lemma emits_run_generation P environ fuel cfg :
  (∀ e, is_provider_call e = true → P e = true) →
  (∀ d, P (EvSleep d) = true) →
  emits P (Veo.run_generation environ veo_submit veo_poll http_get fuel cfg).
Proof.
  intros Hc Hs. unfold Veo.run_generation.
  apply emits_bind; [unfold Veo.resolve_api_key; frame|intros key].
  apply emits_bind; [unfold Veo.read_frame, Veo.read_image_bytes; frame|intros fb].
  apply emits_bind; [unfold Veo.read_frame, Veo.read_image_bytes; frame|intros lb].
  apply emits_bind.
  { unfold Veo.generate_videos. frame. by apply emits_emit, Hc. }
  intros op0. apply emits_bind.
  { apply emits_poll_loop; [done|]. by apply Hc. }
  intros op. unfold Veo.save, Veo.requests_get. frame.
  by apply emits_emit, Hc.
Qed.

Lemma emits_construct_job_config P batch_cfg key_path scene variant first last
    prompt_text :
  emits P (VeoBatch.construct_job_config float_of_str int_of_str
             reference_types batch_cfg key_path scene variant first last
             prompt_text).
Proof. unfold VeoBatch.construct_job_config. frame. Qed.

Lemma emits_list_variant_frames P folder :
  emits P (VeoBatch.list_variant_frames os_order folder).
Proof. unfold VeoBatch.list_variant_frames, VeoBatch.iterdir. frame. Qed.

Lemma emits_group_folders P root :
  emits P (VeoBatch.group_folders os_order root).
Proof. unfold VeoBatch.group_folders, VeoBatch.iterdir. frame. Qed.

Lemma pick_reference_frames_cons f frames :
  ∃ first last, Frames.pick_reference_frames (f :: frames) = inr (first, last).
Proof. unfold Frames.pick_reference_frames. by eexists _, _. Qed.

(** The video batch has no cache: a variant with frames loads its prompt
    file again, whatever was loaded before. *)
Lemma process_variant_reloads fuel environ batch_cfg scene variant w frames :
  let folder := PyPath.joinpath scene (PyPath.of_string (v_name variant)) in
  FS.exists_ (fs w) folder = true →
  VeoBatch.list_variant_frames os_order folder w = (Ok frames, w) →
  frames ≠ [] →
  loads_of (v_prompt_path variant)
    (trace (VeoBatch.process_variant float_of_str int_of_str reference_types
              yaml_safe_load veo_submit veo_poll http_get os_order fuel
              environ batch_cfg scene variant w).2)
  = loads_of (v_prompt_path variant) (trace w) + 1.
Proof.
  intros folder Hex Hl Hne.
  unfold VeoBatch.process_variant, VeoBatch.process_variant_with. fold folder.
  rewrite bind_exists, Hex. cbn [negb]. mstep Hl.
  destruct frames as [|f frames]; [done|].
  destruct (pick_reference_frames_cons f frames) as (first & last & ->).
  rewrite bind_lift_inr. unfold VeoBatch.load_prompt_text.
  rewrite bind_assoc, bind_emit.
  match goal with |- context [trace (?k ?w1).2] =>
    destruct (k w1) as [r w'] eqn:H
  end.
  cbn [snd].
  apply (emits_count (λ e, negb (is_load_of (v_prompt_path variant) e))
           (is_load_of (v_prompt_path variant))) in H.
  - unfold loads_of. rewrite H. cbn [trace]. apply loads_of_snoc_same.
  - frame; try apply emits_construct_job_config.
    apply emits_run_generation; [|done].
    intros [] He; try done.
  - intros e. by destruct (is_load_of _ e).
Qed.

End video_frames.


(** C5 (as amended).  In the image pipeline the prompt template of a path
    is loaded at most once per run: the first [get] for the path reads the
    file, trims both fields and caches the template, and every later [get]
    returns the cached value without a load.  The video batch keeps no
    cache: each (scene, variant) pair that has frames loads the prompt
    file again. *)
Theorem prompt_cache_loads :
  (∀ environ yaml_safe_load gemini os_order cfg qps w p,
      loads_of p (trace (Pipeline.process_images environ yaml_safe_load gemini
                           os_order cfg qps w).2)
      ≤ loads_of p (trace w) + 1)
  ∧ (∀ yaml_safe_load cache path template w,
        cache !! path = Some template →
        Pipeline.get_template yaml_safe_load cache path w
        = (Ok (template, cache), w))
  ∧ (∀ yaml_safe_load cache path w text m pos neg,
        cache !! path = None →
        FS.read_bytes (fs w) path = inr text →
        yaml_safe_load text = inr (Yaml.Map m) →
        m !! "positive" = Some (Yaml.Str pos) →
        m !! "negative" = Some (Yaml.Str neg) →
        let template :=
          {| Pipeline.positive := PyStr.strip pos;
             Pipeline.negative := PyStr.strip neg |} in
        Pipeline.get_template yaml_safe_load cache path w
        = (Ok (template, <[path := template]> cache),
           {| fs := fs w; trace := trace w ++ [EvLoadPrompt path] |}))
  ∧ (∀ float_of_str int_of_str reference_types yaml_safe_load veo_submit
       veo_poll http_get os_order fuel environ batch_cfg scene variant w frames,
        let folder := PyPath.joinpath scene (PyPath.of_string (v_name variant)) in
        FS.exists_ (fs w) folder = true →
        VeoBatch.list_variant_frames os_order folder w = (Ok frames, w) →
        frames ≠ [] →
        loads_of (v_prompt_path variant)
          (trace (VeoBatch.process_variant float_of_str int_of_str
                    reference_types yaml_safe_load veo_submit veo_poll http_get
                    os_order fuel environ batch_cfg scene variant w).2)
        = loads_of (v_prompt_path variant) (trace w) + 1).
Proof.
  split; [intros; apply process_images_loads_once|].
  split; [intros; by apply get_template_hit|].
  split.
  - intros * Hc Hr Hy Hp Hn template.
    apply get_template_miss; [done|].
    by eapply load_prompt_template_trimmed.
  - intros *. apply process_variant_reloads.
Qed.

(** C5, witness: a second [get] for a cached path. *)
Lemma prompt_cache_loads_witness :
  Pipeline.get_template Sample.yaml_loader
    {[ ["p.yaml"] := {| Pipeline.positive := "sunny"; Pipeline.negative := "dark" |} ]}
    ["p.yaml"] Sample.one_image
  = (Ok ({| Pipeline.positive := "sunny"; Pipeline.negative := "dark" |},
         {[ ["p.yaml"] := {| Pipeline.positive := "sunny";
                             Pipeline.negative := "dark" |} ]}),
     Sample.one_image).
Proof.
  apply (proj1 (proj2 prompt_cache_loads)). reflexivity.
Defined.

(** C5, counterexample: the video batch over two scenes sharing one prompt
    file loads that file twice. *)
Lemma prompt_cache_video_counterexample :
  ∃ w',
    VeoBatch.main (λ _, None) (λ _, None) Sample.reference_types
      (Some "key"%string) Sample.yaml_loader Sample.veo_submit
      (Sample.veo_poll_after 2) Sample.http_none id 5 Sample.batch_cfg
      Sample.video_world
    = (Ok tt, w')
    ∧ loads_of ["p.yaml"] (trace w') = 2.
Proof.
  eexists. split; vm_compute; reflexivity.
Qed.

(** ** Pacing of the image calls *)

Import Pacing.

Section pacing_lists.

Variable d : Q.
Hypothesis d_nonneg : (0 <= d)%Q.

Lemma final_app st e1 e2 : final st (e1 ++ e2) = final (final st e1) e2.
Proof. apply fold_left_app. Qed.

Lemma paced_app st e1 e2 :
  paced d st (e1 ++ e2) ↔ paced d st e1 ∧ paced d (final st e1) e2.
Proof.
  revert st. induction e1 as [|e e1 IH]; intros st; simpl.
  - tauto.
  - rewrite IH. unfold final. simpl. tauto.
Qed.

(** From a call on, the scan bounds the sleeps up to any later call. *)
Lemma paced_from_call mid b post t :
  (0 <= t)%Q →
  paced d (Some t) (mid ++ EvGenerate b :: post) →
  ((inject_Z (Z.of_nat (count is_generate mid)) + 1) * d
   <= t + sum_sleeps mid)%Q.
Proof.
  revert t. induction mid as [|e mid IH]; intros t Ht;
    cbn [app paced step ready sum_sleeps].
  - intros [Hr _]. rewrite count_nil.
    change (inject_Z (Z.of_nat 0)) with 0%Q. lra.
  - intros [He Hp]. rewrite count_cons.
    destruct e as [s| |a| | |]; cbn [is_generate Nat.add] in *;
      try (by apply IH in Hp).
    + apply IH in Hp; [|lra]. lra.
    + apply IH in Hp; [|lra].
      rewrite Nat2Z.inj_succ, <- Z.add_1_r, inject_Z_plus.
      change (inject_Z 1) with 1%Q. cbn [ready] in He. lra.
Qed.

Lemma paced_spaced st evs : paced d st evs → spaced d evs.
Proof.
  revert st. induction evs as [|e evs IH]; intros st Hp pre a mid b post Heq.
  - by destruct pre.
  - destruct pre as [|e' pre]; simpl in Heq.
    + injection Heq as -> ->. destruct Hp as [_ Hp]. cbn [step] in Hp.
      apply paced_from_call in Hp; [|lra]. lra.
    + injection Heq as -> ->. destruct Hp as [_ Hp].
      by eapply IH.
Qed.

End pacing_lists.

Section preserves_rules.

Variables I Iw : World → Prop.
Hypothesis I_weak : ∀ w, I w → Iw w.

Lemma preserves_bind {A B} (m : M A) (k : A → M B) :
  preserves I Iw m → (∀ a, preserves I Iw (k a)) → preserves I Iw (m ≫= k).
Proof.
  intros Hm Hk w r w' HI H.
  apply bind_inv in H as [(a & w1 & H1 & H2)|[(e & H1 & ->)|[H1 ->]]].
  - destruct (Hm _ _ _ HI H1) as [_ HI1].
    eapply Hk; [|exact H2]. by eapply HI1.
  - destruct (Hm _ _ _ HI H1) as [Hw _]. by split.
  - destruct (Hm _ _ _ HI H1) as [Hw _]. by split.
Qed.

Lemma preserves_ret {A} (a : A) : preserves I Iw (mret a).
Proof. intros w r w' HI [= <- <-]. split; [by apply I_weak|done]. Qed.

Lemma preserves_for {A} (l : list A) (body : A → M unit) :
  (∀ x, preserves I Iw (body x)) → preserves I Iw (for_ l body).
Proof.
  intros Hb. induction l as [|x l IH]; simpl; [apply preserves_ret|].
  apply preserves_bind; [apply Hb|]. by intros _.
Qed.

End preserves_rules.

Section pacing_run.
Import Pipeline.
Variable d : Q.
Hypothesis d_nonneg : (0 <= d)%Q.

Lemma silent_paced st evs :
  Forall (λ e, silent e = true) evs → paced d st evs ∧ final st evs = st.
Proof.
  intros H. revert st. induction H as [|e evs He _ IH]; intros st; [done|].
  unfold final. cbn [paced fold_left].
  destruct e; try done; cbn [step]; split; try split; try done; apply IH.
Qed.

Lemma settled_extend w w' evs :
  trace w' = trace w ++ evs → Forall (λ e, silent e = true) evs →
  (paced d None (trace w) → paced d None (trace w'))
  ∧ (settled d w → settled d w').
Proof.
  unfold settled. intros -> Hs.
  destruct (silent_paced (final None (trace w)) evs Hs) as [Hp Hf].
  split.
  - intros H. by apply paced_app.
  - intros [H Hr]. split; [by apply paced_app|].
    by rewrite final_app, Hf.
Qed.

(** Steps without calls or sleeps keep the pacing invariant. *)
Lemma preserves_silent {A} (m : M A) :
  emits silent m → preserves (settled d) (λ w, paced d None (trace w)) m.
Proof.
  intros Hm w r w' HI H. destruct (Hm _ _ _ H) as (evs & He & Hs).
  destruct (settled_extend w w' evs He Hs) as [Hp Hset].
  split; [apply Hp, HI|]. intros _ _. by apply Hset.
Qed.


Variable gemini : nat → GenArgs → Exn + string.

Let Iw := λ w : World, paced d None (trace w).

Lemma settled_weak w : settled d w → Iw w.
Proof. by intros [? _]. Qed.

(** After the retry loop, either the last event is the successful call
    or the loop ran out of attempts after a backoff sleep. *)
Lemma attempt_loop_paced cfg variant prompt bytes out attempts w r w' :
  Forall (λ a, 1 ≤ a) attempts →
  settled d w →
  attempt_loop attempts d
    (generate_and_write gemini cfg variant prompt bytes out) w = (r, w') →
  Iw w'
  ∧ (r = Ok tt →
     called (final None (trace w')) ∨ ready d (final None (trace w'))).
Proof.
  intros Hpos. revert w.
  induction attempts as [|a rest IH]; intros w [Hp Hr]; simpl.
  - intros [= <- <-]. split; [done|]. intros _. by right.
  - apply Forall_cons in Hpos as [Ha Hpos].
    assert (Hp1 : paced d None
              (trace w ++ [EvGenerate (request_of cfg variant prompt bytes)])).
    { apply paced_app. split; [done|]. by split. }
    assert (Hf1 : final None
              (trace w ++ [EvGenerate (request_of cfg variant prompt bytes)])
            = Some 0%Q).
    { by rewrite final_app. }
    unfold mbind at 1. unfold eff_bind, bind, try_.
    destruct (generate_and_write_cases gemini cfg variant prompt bytes out w)
      as [[e ->]|(data & fs' & _ & ->)].
    + destruct (a =? MAX_RETRIES).
      * intros [= <- <-]. by split.
      * match goal with
        | |- context [sleep ?s] => destruct (Qlt_le_dec s 0) as [Hs|Hs]
        end.
        { rewrite (bind_sleep_negative _ _ _ Hs). intros [= <- <-].
          by split. }
        rewrite (bind_sleep _ _ _ Hs). intros H. eapply IH; [done| |exact H].
        assert (Hda : (d <= 0 + d * inject_Z (Z.of_nat a))%Q).
        { assert (1 <= inject_Z (Z.of_nat a))%Q.
          { change 1%Q with (inject_Z 1). rewrite <- Zle_Qle. lia. }
          nra. }
        split; cbn [trace].
        -- apply paced_app. split; [done|]. rewrite Hf1.
           split; [|done]. cbn. nra.
        -- rewrite final_app, Hf1. exact Hda.
    + intros [= <- <-]. split; [done|]. intros _. left.
      cbn [trace]. rewrite Hf1. cbn. lra.
Qed.

Lemma seq_positive n : Forall (λ a, 1 ≤ a) (seq 1 n).
Proof. apply Forall_forall. intros a Ha%list_elem_of_In%in_seq. lia. Qed.

Lemma retry_then_sleep_preserves cfg variant prompt bytes out :
  preserves (settled d) Iw
    (attempt_loop (seq 1 MAX_RETRIES) d
       (generate_and_write gemini cfg variant prompt bytes out)
     ≫= λ _, sleep d).
Proof.
  intros w r w' HI H.
  apply bind_inv in H as [([] & w1 & H1 & H2)|[(e & H1 & ->)|[H1 ->]]].
  - apply attempt_loop_paced in H1 as [Hp Hpost]; [|apply seq_positive|done].
    destruct (sleep_cases d w1) as [[_ Hs1]|[_ Hs1]]; rewrite Hs1 in H2;
      injection H2 as <- <-; [|by split].
    specialize (Hpost eq_refl).
    assert (Hs : settled d {| fs := fs w1; trace := trace w1 ++ [EvSleep d] |}).
    { split; cbn [trace].
      - apply paced_app. split; [done|]. by split.
      - rewrite final_app. unfold final at 1. cbn [fold_left step].
        destruct (final None (trace w1)) as [t|]; [|done].
        cbn [ready called] in *. destruct Hpost; lra. }
    split; [by apply settled_weak|by intros _ _].
  - apply attempt_loop_paced in H1 as [Hp _]; [|apply seq_positive|done].
    by split.
  - apply attempt_loop_paced in H1 as [Hp _]; [|apply seq_positive|done].
    by split.
Qed.

Lemma process_image_preserves cfg variant prompt img :
  preserves (settled d) Iw (process_image gemini cfg variant prompt d img).
Proof.
  unfold process_image.
  apply preserves_bind; [apply preserves_silent; frame|].
  intros rel.
  apply preserves_bind; [apply preserves_silent; frame|].
  intros _.
  apply preserves_bind; [apply preserves_silent; frame|].
  intros [|]; [apply preserves_ret, settled_weak|].
  apply preserves_bind; [apply preserves_silent; frame|].
  intros bytes. apply retry_then_sleep_preserves.
Qed.

Variable yaml_safe_load : string → Exn + Yaml.t.
Variable os_order : list Path → list Path.

Lemma images_loop_preserves cfg variant prompt :
  preserves (settled d) Iw (images_loop gemini os_order cfg variant prompt d).
Proof.
  unfold images_loop.
  apply preserves_bind.
  { apply preserves_silent. unfold rglob_sorted. frame. }
  intros listing. apply (preserves_for _ _ settled_weak).
  intros path. unfold image_step.
  apply preserves_bind; [apply preserves_silent; frame|].
  intros fs. destruct (_ && _).
  - apply process_image_preserves.
  - apply preserves_ret, settled_weak.
Qed.

Lemma variants_loop_preserves cfg cache vs :
  preserves (settled d) Iw
    (variants_loop yaml_safe_load gemini os_order cfg d cache vs).
Proof.
  revert cache. induction vs as [|variant rest IH]; intros cache; simpl.
  - apply preserves_ret, settled_weak.
  - apply preserves_bind.
    { apply preserves_silent.
      unfold get_template, load_prompt_template. frame. }
    intros [template cache'].
    apply preserves_bind; [apply images_loop_preserves|].
    intros _. apply IH.
Qed.

End pacing_run.

Lemma spaced_proper (d d' : Q) tr : (d == d')%Q → spaced d tr → spaced d' tr.
Proof.
  intros Hd H pre a mid b post Heq. rewrite <- Hd. by eapply H.
Qed.

Lemma delay_of_half : (Pipeline.delay_of 0.5 == 2)%Q.
Proof. reflexivity. Qed.

Section rate_limit.
Import Pipeline.

Lemma process_images_spaced environ yaml_safe_load gemini os_order cfg qps w r w' :
  trace w = [] →
  process_images environ yaml_safe_load gemini os_order cfg qps w = (r, w') →
  spaced (delay_of qps) (trace w').
Proof.
  intros Hw H.
  pose proof (delay_of_pos qps) as Hpos.
  assert (Hd : (0 <= delay_of qps)%Q) by lra.
  apply (paced_spaced _ None).
  assert (HI : settled (delay_of qps) w).
  { unfold settled. by rewrite Hw. }
  assert (Hp : preserves (settled (delay_of qps))
            (λ w, paced (delay_of qps) None (trace w))
            (process_images environ yaml_safe_load gemini os_order cfg qps)).
  { unfold process_images. apply preserves_bind.
    - apply preserves_silent. unfold resolve_api_key. frame.
    - intros key. by apply variants_loop_preserves. }
  by destruct (Hp _ _ _ HI H).
Qed.

End rate_limit.


(** C9 (as amended).  In every run of [process_images], any two image
    calls with [n] calls in between are separated by sleeps of at least
    [(n + 1) * delay] in total, where
    [delay = 1 / max(rate_limit_qps, 1e-6)] is [1 / rate_limit_qps] from
    1e-6 on; for a rate of 0.5 the spacing is 2 seconds, so [N] calls span
    at least [(N - 1) * 2]. *)
Theorem rate_limit_spacing :
  (∀ environ yaml_safe_load gemini os_order cfg qps w r w',
      trace w = [] →
      Pipeline.process_images environ yaml_safe_load gemini os_order cfg qps w
      = (r, w') →
      spaced (Pipeline.delay_of qps) (trace w'))
  ∧ (∀ qps, (1e-6 <= qps)%Q → (Pipeline.delay_of qps == 1 / qps)%Q)
  ∧ (∀ environ yaml_safe_load gemini os_order cfg w r w',
        trace w = [] →
        Pipeline.process_images environ yaml_safe_load gemini os_order cfg 0.5 w
        = (r, w') →
        spaced 2 (trace w')).
Proof.
  split; [exact process_images_spaced|].
  split; [exact delay_of_inverse|].
  intros * Hw H. apply (spaced_proper (Pipeline.delay_of 0.5)); [reflexivity|].
  by eapply process_images_spaced.
Qed.

(** C9, witness: the run over two images at the default rate. *)
Lemma rate_limit_spacing_witness :
  ∃ w',
    Pipeline.process_images (Some "key"%string) Sample.yaml_loader
      Sample.gemini_ok id (Sample.pipeline_cfg [Sample.rain]) 0.5
      Sample.two_images
    = (Ok tt, w')
    ∧ spaced 2 (trace w').
Proof.
  eexists. split; [vm_compute; reflexivity|].
  eapply (proj2 (proj2 rate_limit_spacing) (Some "key"%string)
            Sample.yaml_loader Sample.gemini_ok id
            (Sample.pipeline_cfg [Sample.rain]) Sample.two_images);
    [reflexivity|vm_compute; reflexivity].
Defined.

(** C9, counterexample: at [rate_limit_qps = 1e-7] two successive calls are
    1 000 000 s apart, less than [1 / rate_limit_qps]. *)
Lemma rate_limit_counterexample :
  ∃ w',
    Pipeline.process_images (Some "key"%string) Sample.yaml_loader
      Sample.gemini_ok id (Sample.pipeline_cfg [Sample.rain]) 1e-7
      Sample.two_images
    = (Ok tt, w')
    ∧ ¬ spaced (1 / 1e-7) (trace w').
Proof.
  eexists. split; [vm_compute; reflexivity|].
  intros H.
  specialize (H [EvLoadPrompt ["p.yaml"]]
                (Pipeline.request_of (Sample.pipeline_cfg [Sample.rain])
                   Sample.rain (Pipeline.build_prompt
                     {| Pipeline.positive := "sunny"; Pipeline.negative := "dark" |})
                   "A")
                [EvSleep (Pipeline.delay_of 1e-7)]
                (Pipeline.request_of (Sample.pipeline_cfg [Sample.rain])
                   Sample.rain (Pipeline.build_prompt
                     {| Pipeline.positive := "sunny"; Pipeline.negative := "dark" |})
                   "B")
                [EvSleep (Pipeline.delay_of 1e-7)]).
  vm_compute in H. by apply H.
Qed.

(** ** Deterministic enumeration *)

Section determinism.

(** Two orders in which the operating system may list the same entries. *)
Variables o1 o2 : list Path → list Path.
Hypothesis o1_perm : ∀ l, o1 l ≡ₚ l.
Hypothesis o2_perm : ∀ l, o2 l ≡ₚ l.

Lemma sorted_listing_unique (l1 l2 : list Path) :
  l1 ≡ₚ l2 → merge_sort PyPath.le l1 = merge_sort PyPath.le l2.
Proof.
  intros H. apply (Sorted_unique PyPath.le).
  - apply Sorted_merge_sort. apply _.
  - apply Sorted_merge_sort. apply _.
  - by rewrite !merge_sort_Permutation.
Qed.

Lemma os_orders_agree (l : list Path) : o1 l ≡ₚ o2 l.
Proof. by rewrite o1_perm, o2_perm. Qed.

Lemma bind_ext_l {A B} (m1 m2 : M A) (k : A → M B) w :
  m1 w = m2 w → (m1 ≫= k) w = (m2 ≫= k) w.
Proof. intros H. unfold mbind, eff_bind, bind. by rewrite H. Qed.

Lemma for_ext {A} (l : list A) (b1 b2 : A → M unit) w :
  (∀ x w, b1 x w = b2 x w) → for_ l b1 w = for_ l b2 w.
Proof.
  intros H. revert w. induction l as [|x l IH]; intros w; simpl; [done|].
  rewrite (bind_ext_l _ _ _ _ (H x w)). apply bind_ext. intros _ w'. apply IH.
Qed.

Lemma rglob_sorted_agree root w :
  Pipeline.rglob_sorted o1 root w = Pipeline.rglob_sorted o2 root w.
Proof.
  unfold Pipeline.rglob_sorted. mred. cbv [mret eff_ret ret]. do 2 f_equal.
  apply sorted_listing_unique, os_orders_agree.
Qed.

Lemma iterdir_agree folder w r1 w1 r2 w2 :
  VeoBatch.iterdir o1 folder w = (r1, w1) →
  VeoBatch.iterdir o2 folder w = (r2, w2) →
  w1 = w2
  ∧ ((∃ l1 l2, r1 = Ok l1 ∧ r2 = Ok l2 ∧ l1 ≡ₚ l2) ∨ (r1 = r2 ∧ ∀ l, r1 ≠ Ok l)).
Proof.
  unfold VeoBatch.iterdir. rewrite !bind_get_fs.
  destruct (FS.node_at (fs w) folder) as [[c|]|].
  - intros [= <- <-] [= <- <-]. split; [done|]. right. by split.
  - intros [= <- <-] [= <- <-]. split; [done|]. left.
    eexists _, _. split; [done|]. split; [done|]. apply os_orders_agree.
  - intros [= <- <-] [= <- <-]. split; [done|]. right. by split.
Qed.

Lemma list_variant_frames_agree folder w :
  VeoBatch.list_variant_frames o1 folder w
  = VeoBatch.list_variant_frames o2 folder w.
Proof.
  unfold VeoBatch.list_variant_frames.
  destruct (VeoBatch.iterdir o1 folder w) as [r1 w1] eqn:H1.
  destruct (VeoBatch.iterdir o2 folder w) as [r2 w2] eqn:H2.
  destruct (iterdir_agree _ _ _ _ _ _ H1 H2)
    as [<- [(l1 & l2 & -> & -> & Hp)|[<- Hn]]].
  - mstep H1. mstep H2. cbv [mret eff_ret ret]. do 2 f_equal.
    apply sorted_listing_unique. by rewrite Hp.
  - unfold mbind, eff_bind, bind. rewrite H1, H2.
    destruct r1 as [l| |]; [by destruct (Hn l)|done..].
Qed.

Lemma group_folders_agree root w :
  VeoBatch.group_folders o1 root w = VeoBatch.group_folders o2 root w.
Proof.
  unfold VeoBatch.group_folders. rewrite !bind_exists.
  destruct (FS.exists_ (fs w) root); [|done].
  destruct (VeoBatch.iterdir o1 root w) as [r1 w1] eqn:H1.
  destruct (VeoBatch.iterdir o2 root w) as [r2 w2] eqn:H2.
  destruct (iterdir_agree _ _ _ _ _ _ H1 H2)
    as [<- [(l1 & l2 & -> & -> & Hp)|[<- Hn]]].
  - mstep H1. mstep H2. mred. cbv [mret eff_ret ret]. do 2 f_equal.
    apply sorted_listing_unique. by rewrite Hp.
  - unfold mbind, eff_bind, bind. rewrite H1, H2.
    destruct r1 as [l| |]; [by destruct (Hn l)|done..].
Qed.


Lemma process_images_agree environ yaml_safe_load gemini cfg qps w :
  Pipeline.process_images environ yaml_safe_load gemini o1 cfg qps w
  = Pipeline.process_images environ yaml_safe_load gemini o2 cfg qps w.
Proof.
  unfold Pipeline.process_images. apply bind_ext. intros _. clear w.
  generalize (∅ : gmap Path Pipeline.PromptTemplate) as cache.
  induction (variants cfg) as [|variant rest IH]; intros cache w; simpl; [done|].
  apply bind_ext. intros [template cache'] w1.
  unfold Pipeline.images_loop at 1 2.
  rewrite !bind_assoc.
  rewrite (bind_ext_l _ _ _ _ (rglob_sorted_agree (input_root cfg) w1)).
  apply bind_ext. intros listing w2. apply bind_ext. intros _ w3. apply IH.
Qed.

Lemma process_variant_agree float_of_str int_of_str reference_types
    yaml_safe_load veo_submit veo_poll http_get fuel environ cfg scene variant w :
  VeoBatch.process_variant float_of_str int_of_str reference_types
    yaml_safe_load veo_submit veo_poll http_get o1 fuel environ cfg scene
    variant w
  = VeoBatch.process_variant float_of_str int_of_str reference_types
      yaml_safe_load veo_submit veo_poll http_get o2 fuel environ cfg scene
      variant w.
Proof.
  unfold VeoBatch.process_variant, VeoBatch.process_variant_with.
  rewrite !bind_exists. destruct (negb _); [done|].
  by rewrite (bind_ext_l _ _ _ _ (list_variant_frames_agree _ w)).
Qed.

Lemma main_agree float_of_str int_of_str reference_types environ
    yaml_safe_load veo_submit veo_poll http_get fuel cfg w :
  VeoBatch.main float_of_str int_of_str reference_types environ
    yaml_safe_load veo_submit veo_poll http_get o1 fuel cfg w
  = VeoBatch.main float_of_str int_of_str reference_types environ
      yaml_safe_load veo_submit veo_poll http_get o2 fuel cfg w.
Proof.
  unfold VeoBatch.main. apply bind_ext. intros key w1.
  rewrite (bind_ext_l _ _ _ _ (group_folders_agree _ w1)).
  apply bind_ext. intros scenes w2. apply for_ext. intros scene w3.
  unfold VeoBatch.process_scene_folder. apply for_ext. intros variant w4.
  apply process_variant_agree.
Qed.

End determinism.

Section listings_sorted.

Variable os_order : list Path → list Path.

Lemma rglob_sorted_sorted root w l w' :
  Pipeline.rglob_sorted os_order root w = (Ok l, w') → Sorted PyPath.le l.
Proof.
  unfold Pipeline.rglob_sorted. rewrite bind_get_fs. intros [= <- _].
  apply Sorted_merge_sort. apply _.
Qed.

Lemma list_variant_frames_sorted folder w l w' :
  VeoBatch.list_variant_frames os_order folder w = (Ok l, w') →
  Sorted PyPath.le l.
Proof.
  unfold VeoBatch.list_variant_frames.
  intros (entries & w1 & _ & [= <- _])%bind_inv_ok.
  apply Sorted_merge_sort. apply _.
Qed.

Lemma group_folders_sorted root w l w' :
  VeoBatch.group_folders os_order root w = (Ok l, w') → Sorted PyPath.le l.
Proof.
  unfold VeoBatch.group_folders. rewrite bind_exists.
  destruct (FS.exists_ (fs w) root).
  - intros (entries & w1 & _ & H)%bind_inv_ok.
    rewrite bind_get_fs in H. injection H as <- _.
    apply Sorted_merge_sort. apply _.
  - intros [= <- _]. constructor.
Qed.

End listings_sorted.

Section selection_guard.

Lemma pick_reference_frames_error frames e :
  Frames.pick_reference_frames frames = inl e → frames = [].
Proof. by destruct frames. Qed.

(** The value of the selection on the empty list is never used. *)
Lemma process_variant_guarded pick float_of_str int_of_str reference_types
    yaml_safe_load veo_submit veo_poll http_get os_order fuel environ cfg
    scene variant w :
  (∀ f frames, pick (f :: frames) = Frames.pick_reference_frames (f :: frames)) →
  VeoBatch.process_variant_with float_of_str int_of_str reference_types
    yaml_safe_load veo_submit veo_poll http_get os_order pick fuel environ cfg
    scene variant w
  = VeoBatch.process_variant float_of_str int_of_str reference_types
      yaml_safe_load veo_submit veo_poll http_get os_order fuel environ cfg
      scene variant w.
Proof.
  intros Hpick. unfold VeoBatch.process_variant, VeoBatch.process_variant_with.
  apply bind_ext. intros ex w1. destruct (negb ex); [done|].
  apply bind_ext. intros [|f frames] w2; [done|].
  by rewrite Hpick.
Qed.

End selection_guard.

(** C10.  Every listing is sorted and does not depend on the order in which
    the operating system returns the entries, so two runs over the same
    tree and configuration are the same computation: same work units in
    the same order, same reference frames.  The frame selection is only
    reached with a non-empty list: what it returns on the empty list (its
    error) has no effect on the batch. *)
Theorem enumeration_deterministic (o1 o2 : list Path → list Path) :
  (∀ l, o1 l ≡ₚ l) → (∀ l, o2 l ≡ₚ l) →
  (∀ root w, Pipeline.rglob_sorted o1 root w = Pipeline.rglob_sorted o2 root w)
  ∧ (∀ folder w,
        VeoBatch.list_variant_frames o1 folder w
        = VeoBatch.list_variant_frames o2 folder w)
  ∧ (∀ root w, VeoBatch.group_folders o1 root w = VeoBatch.group_folders o2 root w)
  ∧ (∀ root w l w',
        Pipeline.rglob_sorted o1 root w = (Ok l, w') → Sorted PyPath.le l)
  ∧ (∀ folder w l w',
        VeoBatch.list_variant_frames o1 folder w = (Ok l, w') → Sorted PyPath.le l)
  ∧ (∀ root w l w',
        VeoBatch.group_folders o1 root w = (Ok l, w') → Sorted PyPath.le l)
  ∧ (∀ environ yaml_safe_load gemini cfg qps w,
        Pipeline.process_images environ yaml_safe_load gemini o1 cfg qps w
        = Pipeline.process_images environ yaml_safe_load gemini o2 cfg qps w)
  ∧ (∀ float_of_str int_of_str reference_types environ yaml_safe_load
       veo_submit veo_poll http_get fuel cfg w,
        VeoBatch.main float_of_str int_of_str reference_types environ
          yaml_safe_load veo_submit veo_poll http_get o1 fuel cfg w
        = VeoBatch.main float_of_str int_of_str reference_types environ
            yaml_safe_load veo_submit veo_poll http_get o2 fuel cfg w)
  ∧ (∀ frames e, Frames.pick_reference_frames frames = inl e → frames = [])
  ∧ (∀ pick float_of_str int_of_str reference_types yaml_safe_load veo_submit
       veo_poll http_get fuel environ cfg scene variant w,
        (∀ f frames,
            pick (f :: frames) = Frames.pick_reference_frames (f :: frames)) →
        VeoBatch.process_variant_with float_of_str int_of_str reference_types
          yaml_safe_load veo_submit veo_poll http_get o1 pick fuel environ cfg
          scene variant w
        = VeoBatch.process_variant float_of_str int_of_str reference_types
            yaml_safe_load veo_submit veo_poll http_get o1 fuel environ cfg
            scene variant w).
Proof.
  intros H1 H2.
  split; [by apply rglob_sorted_agree|].
  split; [by apply list_variant_frames_agree|].
  split; [by apply group_folders_agree|].
  split; [apply rglob_sorted_sorted|].
  split; [apply list_variant_frames_sorted|].
  split; [apply group_folders_sorted|].
  split; [intros; by apply process_images_agree|].
  split; [intros; by apply main_agree|].
  split; [apply pick_reference_frames_error|].
  intros. by apply process_variant_guarded.
Qed.

(** C10, witness: listing in the order of the map and in the reverse order
    gives the same video batch. *)
Lemma enumeration_deterministic_witness :
  VeoBatch.main (λ _, None) (λ _, None) Sample.reference_types
    (Some "key"%string) Sample.yaml_loader Sample.veo_submit
    (Sample.veo_poll_after 2) Sample.http_none id 5 Sample.batch_cfg
    Sample.video_world
  = VeoBatch.main (λ _, None) (λ _, None) Sample.reference_types
      (Some "key"%string) Sample.yaml_loader Sample.veo_submit
      (Sample.veo_poll_after 2) Sample.http_none reverse 5 Sample.batch_cfg
      Sample.video_world.
Proof.
  apply (enumeration_deterministic id reverse).
  - intros l. reflexivity.
  - intros l. apply reverse_Permutation.
Defined.


(** ** Re-runs: growth of the file system and stable listings *)

Import Resume.

Section fs_growth.

  Implicit Types (fs F : FS.t) (p q : Path).

Lemma node_at_mono fs F p n :
  fs ⊆ F → FS.node_at fs p = Some n → FS.node_at F p = Some n.
Proof.
  intros Hsub. destruct (special_dec p) as [Hs|Hs].
  - by rewrite !node_at_special.
  - rewrite !node_at_lookup by done. intros H. by eapply lookup_weaken.
Qed.

Lemma node_at_agree fs F p :
  fs !! p = F !! p → FS.node_at fs p = FS.node_at F p.
Proof.
  intros H. destruct (special_dec p) as [Hs|Hs].
  - by rewrite !node_at_special.
  - by rewrite !node_at_lookup.
Qed.

Lemma exists_mono fs F p : fs ⊆ F → FS.exists_ fs p = true → FS.exists_ F p = true.
Proof.
  intros Hsub. unfold FS.exists_.
  destruct (FS.node_at fs p) as [n|] eqn:H; [|done].
  by rewrite (node_at_mono _ _ _ _ Hsub H).
Qed.

Lemma read_bytes_mono fs F p c :
  fs ⊆ F → FS.read_bytes fs p = inr c → FS.read_bytes F p = inr c.
Proof.
  intros Hsub. unfold FS.read_bytes.
  destruct (FS.node_at fs p) as [[c'|]|] eqn:H; [|done..].
  intros [= ->]. by rewrite (node_at_mono _ _ _ _ Hsub H).
Qed.

(** Creating directories only adds entries. *)
Lemma mkdirs_subseteq fs pre rest fs' :
  FS.mkdirs fs pre rest = inr fs' → fs ⊆ fs'.
Proof.
  revert fs pre. induction rest as [|c rest IH]; intros fs pre; simpl.
  - by intros [= ->].
  - destruct (FS.node_at fs (pre ++ [c])) as [[x|]|] eqn:Hn; [done|..].
    + apply IH.
    + intros H%IH. etrans; [|exact H].
      apply insert_subseteq. rewrite <- node_at_lookup; [done|].
      by eapply node_at_none_not_special.
Qed.

(** Once the directories exist, creating them again, in any larger file
    system, changes nothing. *)
Lemma mkdirs_again fs pre rest fs' F :
  FS.mkdirs fs pre rest = inr fs' → fs' ⊆ F → FS.mkdirs F pre rest = inr F.
Proof.
  revert fs pre. induction rest as [|c rest IH]; intros fs pre; simpl; [done|].
  destruct (FS.node_at fs (pre ++ [c])) as [[x|]|] eqn:Hn; [done|..];
    intros Hmk HF.
  - pose proof (mkdirs_subseteq _ _ _ _ Hmk) as Hsub.
    rewrite (node_at_mono fs F _ _ (transitivity Hsub HF) Hn). by eapply IH.
  - pose proof (mkdirs_subseteq _ _ _ _ Hmk) as Hsub.
    assert (Hq : FS.node_at F (pre ++ [c]) = Some FS.Dir).
    { apply (node_at_mono (<[pre ++ [c] := FS.Dir]> fs)); [by etrans|].
      rewrite node_at_insert by by eapply node_at_none_not_special.
      by rewrite decide_True. }
    rewrite Hq. by eapply IH.
Qed.

Lemma mkdir_parents_subseteq fs p fs' :
  FS.mkdir_parents fs p = inr fs' → fs ⊆ fs'.
Proof. apply mkdirs_subseteq. Qed.

Lemma mkdir_parents_again fs p fs' F :
  FS.mkdir_parents fs p = inr fs' → fs' ⊆ F → FS.mkdir_parents F p = inr F.
Proof. apply mkdirs_again. Qed.

(** Creating directories adds directories only. *)
Lemma mkdirs_adds_dirs fs pre rest fs' p :
  FS.mkdirs fs pre rest = inr fs' →
  FS.node_at fs p = None → FS.node_at fs' p = None ∨ FS.node_at fs' p = Some FS.Dir.
Proof.
  revert fs pre. induction rest as [|c rest IH]; intros fs pre; simpl.
  - intros [= ->]. by left.
  - destruct (FS.node_at fs (pre ++ [c])) as [[x|]|] eqn:Hn; [done|..].
    + apply IH.
    + intros Hmk Hp. destruct (decide (pre ++ [c] = p)) as [<-|Hne].
      * right. apply (node_at_mono (<[pre ++ [c] := FS.Dir]> fs));
          [by eapply mkdirs_subseteq|].
        rewrite node_at_insert by by eapply node_at_none_not_special.
        by rewrite decide_True.
      * eapply IH; [exact Hmk|].
        rewrite node_at_insert by by eapply node_at_none_not_special.
        by rewrite decide_False.
Qed.

(** Writing where nothing exists only adds an entry. *)
Lemma write_bytes_fresh_subseteq fs p data fs' :
  FS.node_at fs p = None → FS.write_bytes fs p data = inr fs' → fs ⊆ fs'.
Proof.
  intros Hn (-> & Hs & _)%write_bytes_inv.
  apply insert_subseteq. by rewrite <- node_at_lookup.
Qed.

Lemma exists_false_none fs p : FS.exists_ fs p = false → FS.node_at fs p = None.
Proof. unfold FS.exists_. by destruct (FS.node_at fs p). Qed.

Lemma write_bytes_exists fs p data fs' :
  FS.write_bytes fs p data = inr fs' → FS.exists_ fs' p = true.
Proof.
  intros H. unfold FS.exists_. by rewrite (write_bytes_is_file _ _ _ _ H).
Qed.

End fs_growth.

Section listings_agree.

  Implicit Types (fs F : FS.t) (p root : Path).

Lemma elem_of_keys fs p : p ∈ (map_to_list fs).*1 ↔ is_Some (fs !! p).
Proof.
  rewrite list_elem_of_fmap. split.
  - intros ([q n] & -> & H%elem_of_map_to_list). by exists n.
  - intros [n H]. exists (p, n). split; [done|]. by apply elem_of_map_to_list.
Qed.

Lemma elem_of_descendants fs root p :
  p ∈ FS.descendants fs root ↔ FS.is_below root p = true ∧ is_Some (fs !! p).
Proof.
  unfold FS.descendants. rewrite list_elem_of_filter, elem_of_keys.
  by rewrite Is_true_true.
Qed.

Lemma elem_of_children fs root p :
  p ∈ FS.children fs root ↔ FS.is_child root p = true ∧ is_Some (fs !! p).
Proof.
  unfold FS.children. rewrite list_elem_of_filter, elem_of_keys.
  by rewrite Is_true_true.
Qed.

Lemma is_child_below root p : FS.is_child root p = true → FS.is_below root p = true.
Proof.
  unfold FS.is_child, FS.is_below.
  intros [Hl Ht]%bool_decide_eq_true. apply bool_decide_eq_true.
  split; [lia|done].
Qed.

Lemma same_tree_between root fs0 fs F :
  same_tree root fs0 F → fs0 ⊆ fs → fs ⊆ F → same_tree root fs F.
Proof.
  intros Hsame H1 H2 p Hp. specialize (Hsame p Hp).
  destruct (fs0 !! p) as [n|] eqn:H0.
  - rewrite (lookup_weaken _ _ _ _ H0 H1). by rewrite <- Hsame.
  - destruct (fs !! p) as [n|] eqn:Hf; [|done].
    by rewrite (lookup_weaken _ _ _ _ Hf H2) in Hsame.
Qed.

Lemma descendants_perm root fs F :
  same_tree root fs F → FS.descendants fs root ≡ₚ FS.descendants F root.
Proof.
  intros Hsame. apply NoDup_Permutation.
  - apply NoDup_filter, NoDup_fst_map_to_list.
  - apply NoDup_filter, NoDup_fst_map_to_list.
  - intros p. rewrite !elem_of_descendants.
    split; intros [Hb Hs]; (split; [done|]);
      [by rewrite <- (Hsame p Hb)|by rewrite (Hsame p Hb)].
Qed.

Lemma children_perm root folder fs F :
  same_tree root fs F → (folder = root ∨ FS.is_below root folder = true) →
  FS.children fs folder ≡ₚ FS.children F folder.
Proof.
  intros Hsame Hfolder. apply NoDup_Permutation.
  - apply NoDup_filter, NoDup_fst_map_to_list.
  - apply NoDup_filter, NoDup_fst_map_to_list.
  - assert (Hb : ∀ p, FS.is_child folder p = true → FS.is_below root p = true).
    { intros p Hc. destruct Hfolder as [->|Hf]; [by apply is_child_below|].
      unfold FS.is_child, FS.is_below in *.
      apply bool_decide_eq_true in Hc as [Hl Ht].
      apply bool_decide_eq_true in Hf as [Hl' Ht'].
      apply bool_decide_eq_true. split; [lia|].
      rewrite <- Ht' at 2. rewrite <- Ht.
      rewrite take_take. f_equal. lia. }
    intros p. rewrite !elem_of_children.
    split; intros [Hc Hs]; (split; [done|]);
      [by rewrite <- (Hsame p (Hb p Hc))|by rewrite (Hsame p (Hb p Hc))].
Qed.

End listings_agree.

(** ** Re-running the image pipeline *)

Section grows_rules.

Lemma grows_keeps {A} (m : M A) : keeps_fs m → grows m.
Proof. intros H w a w' Hm. by rewrite (H _ _ _ Hm). Qed.

Lemma grows_bind {A B} (m : M A) (k : A → M B) :
  grows m → (∀ a, grows (k a)) → grows (m ≫= k).
Proof.
  intros Hm Hk w b w' (a & w1 & H1 & H2)%bind_inv_ok.
  etrans; [by eapply Hm|by eapply Hk].
Qed.

Lemma grows_for {A} (l : list A) (body : A → M unit) :
  (∀ x, grows (body x)) → grows (for_ l body).
Proof.
  intros Hb. induction l as [|x l IH]; simpl.
  - intros w a w'. cbv [mret eff_ret ret]. by intros [= _ <-].
  - apply grows_bind; [apply Hb|]. by intros _.
Qed.

End grows_rules.

Lemma bind_mkdir_ok {B} p (k : unit → M B) w fs' :
  FS.mkdir_parents (fs w) p = inr fs' →
  (mkdir_parents p ≫= k) w = k tt {| fs := fs'; trace := trace w |}.
Proof.
  intros H. unfold mkdir_parents, update_fs, mbind, eff_bind, bind. by rewrite H.
Qed.

Lemma for_replay {A} (l : list A) (body : A → M unit) w :
  (∀ x, x ∈ l → body x w = (Ok tt, w)) → for_ l body w = (Ok tt, w).
Proof.
  induction l as [|x l IH]; intros H; simpl; [done|].
  rewrite (bind_ok _ _ _ _ _ (H x (list_elem_of_here _ _))).
  apply IH. intros y Hy. apply H. by right.
Qed.

Section pipeline_rerun.
Import Pipeline.
Variable environ_api_key : option string.
Variable yaml_safe_load : string → Exn + Yaml.t.
Variable gemini : nat → GenArgs → Exn + string.
Variable os_order : list Path → list Path.
Hypothesis os_order_perm : ∀ l, os_order l ≡ₚ l.
Variable cfg : PipelineConfig.

Let root := input_root cfg.

(** *** Replaying over a file system where the outputs are in place *)

Lemma process_image_replay variant prompt delay path w :
  image_done (fs w) cfg variant path →
  process_image gemini cfg variant prompt delay path w = (Ok tt, w).
Proof.
  intros (rel & Hrel & Hmk & Hex). unfold process_image.
  rewrite Hrel, bind_lift_inr, (bind_mkdir_ok _ _ _ _ Hmk), world_eta.
  by rewrite bind_exists, Hex.
Qed.

Lemma image_step_replay variant prompt delay path w :
  (FS.is_file (fs w) path && PyPath.is_image path = true →
   image_done (fs w) cfg variant path) →
  image_step gemini cfg variant prompt delay path w = (Ok tt, w).
Proof.
  intros H. unfold image_step. rewrite bind_get_fs.
  destruct (_ && _); [|done]. by apply process_image_replay, H.
Qed.

Lemma images_loop_replay variant prompt delay w :
  (∀ path,
      path ∈ merge_sort PyPath.le (os_order (FS.descendants (fs w) root)) →
      FS.is_file (fs w) path && PyPath.is_image path = true →
      image_done (fs w) cfg variant path) →
  images_loop gemini os_order cfg variant prompt delay w = (Ok tt, w).
Proof.
  intros H. unfold images_loop, rglob_sorted. mred.
  apply for_replay. intros path Hp. apply image_step_replay. by apply H.
Qed.

Lemma get_template_replay cache path t w :
  loads_to yaml_safe_load (fs w) path t →
  ∃ t' cache' evs,
    get_template yaml_safe_load cache path w
    = (Ok (t', cache'), {| fs := fs w; trace := trace w ++ evs |})
    ∧ Forall (λ e, is_provider_call e = false) evs.
Proof.
  intros Hl. unfold get_template. destruct (cache !! path) as [t0|].
  - exists t0, cache, []. rewrite app_nil_r, world_eta. by split.
  - exists t, (<[path := t]> cache), [EvLoadPrompt path].
    rewrite (bind_ok _ _ _ _ _ (Hl w eq_refl)). split; [done|].
    by repeat constructor.
Qed.

Lemma variants_loop_replay delay vs cache w :
  (∀ v, v ∈ vs →
     (∃ t, loads_to yaml_safe_load (fs w) (prompt_path v) t)
     ∧ ∀ path,
         path ∈ merge_sort PyPath.le (os_order (FS.descendants (fs w) root)) →
         FS.is_file (fs w) path && PyPath.is_image path = true →
         image_done (fs w) cfg v path) →
  ∃ evs,
    variants_loop yaml_safe_load gemini os_order cfg delay cache vs w
    = (Ok tt, {| fs := fs w; trace := trace w ++ evs |})
    ∧ Forall (λ e, is_provider_call e = false) evs.
Proof.
  revert cache w. induction vs as [|v rest IH]; intros cache w H; simpl.
  - exists []. by rewrite app_nil_r, world_eta.
  - destruct (H v (list_elem_of_here _ _)) as [[t Ht] Hdone].
    destruct (get_template_replay cache _ _ _ Ht)
      as (t' & cache' & evs1 & Hget & Hev1).
    rewrite (bind_ok _ _ _ _ _ Hget).
    rewrite (bind_ok _ _ _ _ _
               (images_loop_replay v (build_prompt t') delay
                  {| fs := fs w; trace := trace w ++ evs1 |} Hdone)).
    destruct (IH cache' {| fs := fs w; trace := trace w ++ evs1 |})
      as (evs2 & Hrest & Hev2).
    { intros v' Hv'. apply H. by right. }
    exists (evs1 ++ evs2). rewrite Hrest. cbn [fs trace].
    split; [by rewrite app_assoc|by apply Forall_app].
Qed.


(** *** What a first run that ended normally leaves behind *)

Lemma process_image_inv variant prompt delay path w w' :
  process_image gemini cfg variant prompt delay path w = (Ok tt, w') →
  ∃ rel fs1,
    PyPath.relative_to path root = Some rel
    ∧ FS.mkdir_parents (fs w)
        (out_dir_of (output_root cfg) (name variant) rel) = inr fs1
    ∧ fs1 ⊆ fs w'
    ∧ FS.exists_ (fs w')
        (out_path_of (output_root cfg) (name variant) rel) = true.
Proof.
  intros H.
  destruct (PyPath.relative_to path root) as [rel|] eqn:Hrel; cycle 1.
  { unfold process_image in H. fold root in H. by rewrite Hrel in H. }
  exists rel.
  pose proof (process_image_ok_exists _ _ _ _ _ _ _ Hrel _ _ H) as Hex.
  destruct (process_image_ok _ _ _ _ _ _ _ Hrel _ _ H)
    as (fs1 & Hmk & [[_ Hw']|[Hno [data Hw]]]).
  - exists fs1. by rewrite Hw' in *.
  - exists fs1. repeat split; [done| |done].
    eapply write_bytes_fresh_subseteq; [|exact Hw].
    by apply exists_false_none.
Qed.

Lemma process_image_grows variant prompt delay path :
  grows (process_image gemini cfg variant prompt delay path).
Proof.
  intros w [] w' (rel & fs1 & _ & Hmk & Hsub & _)%process_image_inv.
  etrans; [by eapply mkdir_parents_subseteq|done].
Qed.

Lemma image_step_grows variant prompt delay path :
  grows (image_step gemini cfg variant prompt delay path).
Proof.
  unfold image_step. apply grows_bind; [apply grows_keeps, keeps_get_fs|].
  intros fs0. destruct (_ && _); [apply process_image_grows|].
  apply grows_keeps, keeps_ret.
Qed.

Lemma images_loop_grows variant prompt delay :
  grows (images_loop gemini os_order cfg variant prompt delay).
Proof.
  unfold images_loop. apply grows_bind.
  - apply grows_keeps. unfold rglob_sorted. frame.
  - intros listing. apply grows_for. intros path. apply image_step_grows.
Qed.

Lemma keeps_get_template cache path :
  keeps_fs (get_template yaml_safe_load cache path).
Proof. unfold get_template, load_prompt_template. frame. Qed.

Lemma variants_loop_grows delay cache vs :
  grows (variants_loop yaml_safe_load gemini os_order cfg delay cache vs).
Proof.
  revert cache. induction vs as [|v rest IH]; intros cache; simpl.
  - apply grows_keeps, keeps_ret.
  - apply grows_bind; [apply grows_keeps, keeps_get_template|].
    intros [t cache']. apply grows_bind; [apply images_loop_grows|].
    intros _. apply IH.
Qed.

Lemma process_image_done variant prompt delay path w w' F :
  process_image gemini cfg variant prompt delay path w = (Ok tt, w') →
  fs w' ⊆ F → image_done F cfg variant path.
Proof.
  intros (rel & fs1 & Hrel & Hmk & Hsub & Hex)%process_image_inv HF.
  exists rel. split; [done|]. split.
  - eapply mkdir_parents_again; [exact Hmk|by etrans].
  - by eapply exists_mono.
Qed.

Lemma is_file_agree fs0 F path :
  fs0 !! path = F !! path → FS.is_file fs0 path = FS.is_file F path.
Proof. intros H. unfold FS.is_file. by rewrite (node_at_agree _ _ _ H). Qed.

(** After the loop over a listing, every image file of the listing has
    its output in place, in any later file system with the same tree. *)
Lemma for_images_done variant prompt delay l w w' F :
  for_ l (image_step gemini cfg variant prompt delay) w = (Ok tt, w') →
  fs w' ⊆ F → same_tree root (fs w) F →
  (∀ path, path ∈ l → FS.is_below root path = true) →
  ∀ path, path ∈ l →
    FS.is_file F path && PyPath.is_image path = true →
    image_done F cfg variant path.
Proof.
  revert w. induction l as [|x l IH]; intros w Hrun HF Hsame Hbelow path Hin;
    [by apply elem_of_nil in Hin|].
  simpl in Hrun. apply bind_inv_ok in Hrun as ([] & w1 & Hx & Hl).
  pose proof (image_step_grows _ _ _ _ _ _ _ Hx) as Hg1.
  pose proof (grows_for _ _ (image_step_grows variant prompt delay) _ _ _ Hl)
    as Hg2.
  apply elem_of_cons in Hin as [->|Hin].
  - intros Hfile.
    rewrite <- (is_file_agree (fs w) F x) in Hfile
      by (apply Hsame, Hbelow; left).
    unfold image_step in Hx. rewrite bind_get_fs, Hfile in Hx.
    eapply process_image_done; [exact Hx|by etrans].
  - eapply (IH w1); try done.
    + eapply same_tree_between; [exact Hsame|done|by etrans].
    + intros p Hp. apply Hbelow. by right.
Qed.

Lemma listing_below fs0 path :
  path ∈ merge_sort PyPath.le (os_order (FS.descendants fs0 root)) →
  FS.is_below root path = true.
Proof.
  rewrite merge_sort_Permutation, os_order_perm.
  by intros [? _]%elem_of_descendants.
Qed.

Lemma listing_agree fs0 F :
  same_tree root fs0 F →
  merge_sort PyPath.le (os_order (FS.descendants fs0 root))
  = merge_sort PyPath.le (os_order (FS.descendants F root)).
Proof.
  intros H. apply sorted_listing_unique.
  by rewrite !os_order_perm, (descendants_perm _ _ _ H).
Qed.

Lemma images_loop_done variant prompt delay w w' F :
  images_loop gemini os_order cfg variant prompt delay w = (Ok tt, w') →
  fs w' ⊆ F → same_tree root (fs w) F →
  ∀ path,
    path ∈ merge_sort PyPath.le (os_order (FS.descendants F root)) →
    FS.is_file F path && PyPath.is_image path = true →
    image_done F cfg variant path.
Proof.
  unfold images_loop, rglob_sorted. mred. fold root.
  intros Hrun HF Hsame path Hin.
  rewrite <- (listing_agree _ _ Hsame) in Hin.
  eapply for_images_done; try done.
  intros p. apply listing_below.
Qed.

(** A load that succeeded succeeds again, with the same template, over
    any larger file system. *)
Lemma load_ok_loads_to path w t w' F :
  load_prompt_template yaml_safe_load path w = (Ok t, w') →
  fs w ⊆ F → loads_to yaml_safe_load F path t.
Proof.
  unfold load_prompt_template. rewrite bind_emit.
  intros (text & w1 & [Hr ->]%read_bytes_inv_ok & H)%bind_inv_ok HF.
  apply bind_inv_ok in H as (data & w2 & [Hy ->]%lift_inv_ok & H).
  apply bind_inv_ok in H as (pos & w3 & [Hp ->]%lift_inv_ok & H).
  apply bind_inv_ok in H as (neg & w4 & [Hn ->]%lift_inv_ok & H).
  cbv [mret eff_ret ret] in H. injection H as <- _.
  intros w0 Hw0. unfold load_prompt_template, read_bytes. mred.
  cbn [fs] in Hr. rewrite Hw0, (read_bytes_mono _ _ _ _ HF Hr). mred.
  rewrite Hy. mred. rewrite Hp. mred. rewrite Hn. mred.
  by rewrite <- Hw0.
Qed.

Lemma variants_loop_done delay vs cache w w1 :
  variants_loop yaml_safe_load gemini os_order cfg delay cache vs w
  = (Ok tt, w1) →
  same_tree root (fs w) (fs w1) →
  (∀ p, is_Some (cache !! p) → ∃ t, loads_to yaml_safe_load (fs w1) p t) →
  ∀ v, v ∈ vs →
    (∃ t, loads_to yaml_safe_load (fs w1) (prompt_path v) t)
    ∧ ∀ path,
        path ∈ merge_sort PyPath.le (os_order (FS.descendants (fs w1) root)) →
        FS.is_file (fs w1) path && PyPath.is_image path = true →
        image_done (fs w1) cfg v path.
Proof.
  revert cache w. induction vs as [|v0 rest IH];
    intros cache w Hrun Hsame Hcache v Hv; [by apply elem_of_nil in Hv|].
  simpl in Hrun.
  apply bind_inv_ok in Hrun as ([t cache'] & wa & Hget & Hrun).
  apply bind_inv_ok in Hrun as ([] & wb & Himg & Hrest).
  pose proof (keeps_get_template _ _ _ _ _ Hget) as Hfa.
  pose proof (images_loop_grows _ _ _ _ _ _ Himg) as Hgb.
  pose proof (variants_loop_grows _ _ _ _ _ _ Hrest) as Hg1.
  assert (Hload : ∃ t0, loads_to yaml_safe_load (fs w1) (prompt_path v0) t0).
  { unfold get_template in Hget.
    destruct (cache !! prompt_path v0) as [t0|] eqn:Hc.
    - apply Hcache. by rewrite Hc.
    - apply bind_inv_ok in Hget as (t0 & w0 & Hl & _).
      exists t0. eapply load_ok_loads_to; [exact Hl|].
      rewrite <- Hfa. by etrans. }
  assert (Hcache' : ∀ p, is_Some (cache' !! p) →
                         ∃ t0, loads_to yaml_safe_load (fs w1) p t0).
  { unfold get_template in Hget.
    destruct (cache !! prompt_path v0) as [t0|] eqn:Hc.
    - cbv [mret eff_ret ret] in Hget. injection Hget as _ <- _. exact Hcache.
    - apply bind_inv_ok in Hget as (t0 & w0 & Hl & Hret).
      cbv [mret eff_ret ret] in Hret. injection Hret as _ <- _.
      intros p. destruct (decide (prompt_path v0 = p)) as [<-|Hne].
      + by intros _.
      + rewrite lookup_insert_ne by done. apply Hcache. }
  apply elem_of_cons in Hv as [->|Hv].
  - split; [done|].
    eapply images_loop_done; [exact Himg|done|].
    by rewrite Hfa.
  - eapply (IH cache' wb); try done.
    eapply same_tree_between; [exact Hsame| |done].
    rewrite <- Hfa. done.
Qed.

End pipeline_rerun.

(** A credential that resolved resolves again, to the same key, over any
    larger file system, and resolving leaves the world as it is. *)

Lemma pipeline_resolve_api_key_again environ_api_key key_path w k w' :
  Pipeline.resolve_api_key environ_api_key key_path w = (Ok k, w') →
  w' = w
  ∧ ∀ w2, fs w ⊆ fs w2 →
      Pipeline.resolve_api_key environ_api_key key_path w2 = (Ok k, w2).
Proof.
  unfold Pipeline.resolve_api_key.
  cbv zeta. generalize (default EmptyString environ_api_key). intros api_key.
  destruct (String.eqb api_key EmptyString) eqn:Hk.
  - destruct key_path as [p|].
    + unfold exists_. rewrite !bind_assoc, !bind_get_fs, !bind_ret.
      destruct (FS.exists_ (fs w) p) eqn:Hex.
      * intros (key & w1 & Hread & Hret)%bind_inv_ok.
        unfold fmap, eff_fmap in Hread.
        apply bind_inv_ok in Hread as (text & w3 & [Hr ->]%read_bytes_inv_ok & H).
        cbv [mret eff_ret ret] in H. injection H as <- <-.
        destruct (String.eqb (PyStr.strip text) EmptyString) eqn:Hs; [done|].
        cbv [mret eff_ret ret] in Hret. injection Hret as <- <-.
        split; [done|]. intros w2 Hsub.
        rewrite !bind_assoc, !bind_get_fs, !bind_ret.
        rewrite (exists_mono _ _ _ Hsub Hex).
        unfold fmap, eff_fmap, read_bytes. mred.
        rewrite (read_bytes_mono _ _ _ _ Hsub Hr). mred. by rewrite Hs.
      * mred. cbv beta. by rewrite Hk.
    + mred. cbv beta. by rewrite Hk.
  - mred. cbv beta. rewrite Hk. cbv [mret eff_ret ret]. intros [= <- <-].
    split; [done|]. intros w2 _. cbv [mbind eff_bind bind]. by rewrite Hk.
Qed.

Lemma veo_resolve_api_key_again environ_api_key key_path w k w' :
  Veo.resolve_api_key environ_api_key key_path w = (Ok k, w') →
  w' = w
  ∧ ∀ w2, fs w ⊆ fs w2 →
      Veo.resolve_api_key environ_api_key key_path w2 = (Ok k, w2).
Proof.
  unfold Veo.resolve_api_key.
  cbv zeta. generalize (default EmptyString environ_api_key). intros api_key.
  destruct (String.eqb api_key EmptyString) eqn:Hk.
  - destruct key_path as [p|].
    + unfold exists_. rewrite !bind_assoc, !bind_get_fs, !bind_ret.
      destruct (FS.exists_ (fs w) p) eqn:Hex.
      * intros (key & w1 & Hread & Hret)%bind_inv_ok.
        unfold fmap, eff_fmap in Hread.
        apply bind_inv_ok in Hread as (text & w3 & [Hr ->]%read_bytes_inv_ok & H).
        cbv [mret eff_ret ret] in H. injection H as <- <-.
        destruct (String.eqb (PyStr.strip text) EmptyString) eqn:Hs; [done|].
        cbv [mret eff_ret ret] in Hret. injection Hret as <- <-.
        split; [done|]. intros w2 Hsub.
        rewrite !bind_assoc, !bind_get_fs, !bind_ret.
        rewrite (exists_mono _ _ _ Hsub Hex).
        unfold fmap, eff_fmap, read_bytes. mred.
        rewrite (read_bytes_mono _ _ _ _ Hsub Hr). mred. by rewrite Hs.
      * mred. cbv beta. by rewrite Hk.
    + mred. cbv beta. by rewrite Hk.
  - mred. cbv beta. rewrite Hk. cbv [mret eff_ret ret]. intros [= <- <-].
    split; [done|]. intros w2 _. cbv [mbind eff_bind bind]. by rewrite Hk.
Qed.

(** A second run of the image pipeline over the same input tree replays
    the first one without touching the provider or the file system. *)
Lemma process_images_rerun environ_api_key yaml_safe_load gemini os_order cfg
    qps w0 w1 :
  (∀ l : list Path, os_order l ≡ₚ l) →
  Pipeline.process_images environ_api_key yaml_safe_load gemini os_order cfg qps w0
  = (Ok tt, w1) →
  same_tree (input_root cfg) (fs w0) (fs w1) →
  ∃ evs,
    Pipeline.process_images environ_api_key yaml_safe_load gemini os_order cfg
      qps w1
    = (Ok tt, {| fs := fs w1; trace := trace w1 ++ evs |})
    ∧ Forall (λ e, is_provider_call e = false) evs.
Proof.
  intros Hperm Hrun Hsame. unfold Pipeline.process_images in *.
  apply bind_inv_ok in Hrun as (k & wa & Hkey & Hloop).
  apply pipeline_resolve_api_key_again in Hkey as [-> Hkey].
  pose proof (variants_loop_grows _ _ _ _ _ _ _ _ _ _ Hloop) as Hg.
  rewrite (bind_ok _ _ _ _ _ (Hkey w1 Hg)).
  apply variants_loop_replay.
  eapply variants_loop_done; try done.
  intros p [t Ht]. by rewrite lookup_empty in Ht.
Qed.

(** ** Re-running the video batch *)

Lemma replays_nothing F (m : M unit) :
  (∀ w, fs w = F → m w = (Ok tt, w)) → replays F m.
Proof.
  intros H w Hw. exists []. rewrite app_nil_r, <- Hw, world_eta.
  split; [by apply H|constructor].
Qed.

Lemma replays_for {A} F (l : list A) (body : A → M unit) :
  (∀ x, x ∈ l → replays F (body x)) → replays F (for_ l body).
Proof.
  induction l as [|x l IH]; intros H.
  - by apply replays_nothing.
  - intros w Hw. simpl.
    destruct (H x (list_elem_of_here _ _) w Hw) as (evs1 & H1 & Hf1).
    rewrite (bind_ok _ _ _ _ _ H1).
    destruct (IH (λ y Hy, H y (list_elem_of_further _ _ _ Hy))
                {| fs := F; trace := trace w ++ evs1 |} eq_refl)
      as (evs2 & H2 & Hf2).
    exists (evs1 ++ evs2). rewrite H2. cbn [trace]. rewrite app_assoc.
    split; [done|]. by apply Forall_app.
Qed.

(** What every unit of a loop that ended normally has established, when
    it is stable under growth of the file system up to [F]. *)
Lemma for_done {A} (l : list A) (body : A → M unit) (Q : A → Prop) F w0 :
  (∀ x, grows (body x)) →
  (∀ x w1 w2, x ∈ l → fs w0 ⊆ fs w1 → body x w1 = (Ok tt, w2) →
              fs w2 ⊆ F → Q x) →
  ∀ w w', fs w0 ⊆ fs w → for_ l body w = (Ok tt, w') → fs w' ⊆ F →
          ∀ x, x ∈ l → Q x.
Proof.
  intros Hg. induction l as [|y l IH]; intros HQ w w' Hw Hrun HF x Hx;
    [by apply elem_of_nil in Hx|].
  simpl in Hrun. apply bind_inv_ok in Hrun as ([] & w1 & Hy & Hl).
  pose proof (Hg _ _ _ _ Hy) as Hg1.
  pose proof (grows_for _ _ Hg _ _ _ Hl) as Hg2.
  apply elem_of_cons in Hx as [->|Hx].
  - eapply (HQ y w w1); [left|done|done|by etrans].
  - eapply (IH (λ z wa wb Hz, HQ z wa wb (list_elem_of_further _ _ _ Hz)) w1 w');
      try done. by etrans.
Qed.

Lemma filter_ext_elem {A} (P Q : A → bool) (l : list A) :
  (∀ x, x ∈ l → P x = Q x) →
  filter (λ x, P x) l = filter (λ x, Q x) l.
Proof.
  induction l as [|x l IH]; intros H; [done|].
  rewrite !filter_cons, (H x) by left.
  rewrite IH; [done|]. intros y Hy. apply H. by right.
Qed.

Lemma is_below_app root p l :
  FS.is_below root p = true → FS.is_below root (p ++ l) = true.
Proof.
  unfold FS.is_below. rewrite !bool_decide_eq_true. intros [Hlen Htake].
  split; [rewrite length_app; lia|].
  rewrite take_app_le by lia. done.
Qed.

Section video_rerun.
Import VeoBatch.
Variable float_of_str : string → option Q.
Variable int_of_str : string → option Z.
Variable reference_types : list string.
Variable yaml_safe_load : string → Exn + Yaml.t.
Variable veo_submit : nat → SubmitArgs → Exn + Veo.Operation.
Variable veo_poll : nat → Veo.Operation → Exn + Veo.Operation.
Variable http_get : nat → string → Exn + string.
Variable os_order : list Path → list Path.
Hypothesis os_order_perm : ∀ l : list Path, os_order l ≡ₚ l.
Variable cfg : BatchConfig.

(** A job writes its video at a path where nothing was. *)
Lemma run_generation_grows environ fuel job w p w' :
  Veo.run_generation environ veo_submit veo_poll http_get fuel job w
  = (Ok p, w') →
  FS.exists_ (fs w) (Veo.output_path job) = false →
  fs w ⊆ fs w'.
Proof.
  intros (_ & fs1 & data & Hmk & Hw)%run_generation_ok Hex.
  apply exists_false_none in Hex.
  etrans; [by eapply mkdir_parents_subseteq|].
  destruct (mkdirs_adds_dirs _ _ _ _ _ Hmk Hex) as [Hn|Hd].
  - by eapply write_bytes_fresh_subseteq.
  - unfold FS.write_bytes in Hw. rewrite Hd in Hw.
    by destruct (FS.node_at fs1 (PyPath.parent (Veo.output_path job)))
      as [[|]|].
Qed.

Lemma iterdir_inv folder w l w' :
  iterdir os_order folder w = (Ok l, w') →
  w' = w
  ∧ FS.node_at (fs w) folder = Some FS.Dir
  ∧ l = os_order (FS.children (fs w) folder).
Proof.
  unfold iterdir. rewrite bind_get_fs.
  destruct (FS.node_at (fs w) folder) as [[c|]|]; [done| |done].
  cbv [mret eff_ret ret]. by intros [= <- <-].
Qed.

Lemma iterdir_same folder w l w' F :
  iterdir os_order folder w = (Ok l, w') →
  FS.node_at (fs w) folder = FS.node_at F folder →
  FS.children (fs w) folder ≡ₚ FS.children F folder →
  ∀ wr, fs wr = F →
    ∃ l', iterdir os_order folder wr = (Ok l', wr) ∧ l ≡ₚ l'.
Proof.
  intros (-> & Hd & ->)%iterdir_inv Hn Hc wr Hwr.
  exists (os_order (FS.children F folder)). split.
  - unfold iterdir. rewrite bind_get_fs, Hwr, <- Hn, Hd. done.
  - by rewrite !os_order_perm.
Qed.

Lemma list_variant_frames_inv folder w frames w' :
  list_variant_frames os_order folder w = (Ok frames, w') → w' = w.
Proof.
  unfold list_variant_frames.
  intros (l & w1 & (-> & _)%iterdir_inv & H)%bind_inv_ok.
  cbv [mret eff_ret ret] in H. by injection H as _ <-.
Qed.

Lemma list_variant_frames_same folder w frames w' F :
  list_variant_frames os_order folder w = (Ok frames, w') →
  FS.node_at (fs w) folder = FS.node_at F folder →
  FS.children (fs w) folder ≡ₚ FS.children F folder →
  ∀ wr, fs wr = F →
    list_variant_frames os_order folder wr = (Ok frames, wr).
Proof.
  unfold list_variant_frames.
  intros (l & w1 & Hit & H)%bind_inv_ok Hn Hc wr Hwr.
  destruct (iterdir_same _ _ _ _ _ Hit Hn Hc wr Hwr) as (l' & Hit' & Hperm).
  rewrite (bind_ok _ _ _ _ _ Hit').
  cbv [mret eff_ret ret] in *. injection H as <- _.
  f_equal. f_equal. apply sorted_listing_unique. by rewrite Hperm.
Qed.

Lemma load_prompt_text_again path w text w' :
  load_prompt_text yaml_safe_load path w = (Ok text, w') →
  w' = {| fs := fs w; trace := trace w ++ [EvLoadPrompt path] |}
  ∧ ∀ wr, fs w ⊆ fs wr →
      load_prompt_text yaml_safe_load path wr
      = (Ok text, {| fs := fs wr; trace := trace wr ++ [EvLoadPrompt path] |}).
Proof.
  unfold load_prompt_text. rewrite bind_emit.
  intros (c & w1 & [Hr ->]%read_bytes_inv_ok & H)%bind_inv_ok.
  apply bind_inv_ok in H as (data & w2 & [Hy ->]%lift_inv_ok & H).
  apply lift_inv_ok in H as [Ht ->]. split; [done|].
  intros wr Hsub. cbn [fs] in Hr. unfold read_bytes. mred.
  rewrite (read_bytes_mono _ _ _ _ Hsub Hr). mred. rewrite Hy. mred.
  by rewrite Ht.
Qed.

Lemma construct_job_config_again key_path scene variant first last text w
    job w' :
  construct_job_config float_of_str int_of_str reference_types cfg key_path
    scene variant first last text w = (Ok job, w') →
  ∀ wr, fs w' ⊆ fs wr →
    construct_job_config float_of_str int_of_str reference_types cfg key_path
      scene variant first last text wr = (Ok job, wr).
Proof.
  unfold construct_job_config.
  intros (d & w1 & [H1 ->]%lift_inv_ok & H)%bind_inv_ok.
  apply bind_inv_ok in H as (a & w2 & [H2 ->]%lift_inv_ok & H).
  apply bind_inv_ok in H as (r & w3 & [H3 ->]%lift_inv_ok & H).
  apply bind_inv_ok in H as (ps & w4 & [H4 ->]%lift_inv_ok & H).
  apply bind_inv_ok in H as (uf & w5 & [H5 ->]%lift_inv_ok & H).
  apply bind_inv_ok in H as (ul & w6 & [H6 ->]%lift_inv_ok & H).
  apply bind_inv_ok in H as (rt & w7 & [H7 ->]%lift_inv_ok & H).
  apply bind_inv_ok in H as ([] & w8 & Hmk & H).
  apply mkdir_parents_inv_ok in Hmk as (fs' & Hmk & ->).
  cbv [mret eff_ret ret] in H. injection H as <- <-.
  intros wr Hsub. cbn [fs] in Hsub. cbv zeta.
  rewrite H1, bind_lift_inr, H2, bind_lift_inr, H3, bind_lift_inr,
    H4, bind_lift_inr, H5, bind_lift_inr, H6, bind_lift_inr,
    H7, bind_lift_inr.
  rewrite (bind_mkdir_ok _ _ _ _ (mkdir_parents_again _ _ _ _ Hmk Hsub)).
  by rewrite world_eta.
Qed.

Lemma process_variant_inv fuel environ scene variant w w' :
  process_variant float_of_str int_of_str reference_types yaml_safe_load
    veo_submit veo_poll http_get os_order fuel environ cfg scene variant w
  = (Ok tt, w') →
  let folder := PyPath.joinpath scene (PyPath.of_string (v_name variant)) in
  (FS.exists_ (fs w) folder = false ∧ w' = w)
  ∨ (FS.exists_ (fs w) folder = true
     ∧ ∃ frames,
         list_variant_frames os_order folder w = (Ok frames, w)
         ∧ ((frames = [] ∧ w' = w)
            ∨ ∃ first last text job w1 w2,
                frames ≠ []
                ∧ Frames.pick_reference_frames frames = inr (first, last)
                ∧ load_prompt_text yaml_safe_load (v_prompt_path variant) w
                  = (Ok text, w1)
                ∧ construct_job_config float_of_str int_of_str
                    reference_types cfg (b_api_key_path cfg)
                    (PyPath.name scene) variant first (Some last) text w1
                  = (Ok job, w2)
                ∧ ((FS.exists_ (fs w2) (Veo.output_path job) = true
                    ∧ w' = w2)
                   ∨ (FS.exists_ (fs w2) (Veo.output_path job) = false
                      ∧ ∃ p,
                          Veo.run_generation environ veo_submit veo_poll
                            http_get fuel job w2 = (Ok p, w'))))).
Proof.
  unfold process_variant, process_variant_with. cbv zeta.
  rewrite bind_exists.
  destruct (FS.exists_ (fs w) _) eqn:Hex; cbn [negb].
  - intros (frames & wa & Hfr & H)%bind_inv_ok. right. split; [done|].
    pose proof (list_variant_frames_inv _ _ _ _ Hfr) as ->.
    exists frames. split; [done|].
    destruct frames as [|f rest].
    + left. cbv [mret eff_ret ret] in H. by injection H as <-.
    + right.
      apply bind_inv_ok in H as ([first last] & wb & [Hp ->]%lift_inv_ok & H).
      apply bind_inv_ok in H as (text & w1 & Hload & H).
      apply bind_inv_ok in H as (job & w2 & Hjob & H).
      rewrite bind_exists in H.
      exists first, last, text, job, w1, w2.
      repeat (split; [done|]).
      destruct (FS.exists_ (fs w2) (Veo.output_path job)) eqn:Hout.
      * left. cbv [mret eff_ret ret] in H. by injection H as <-.
      * right. split; [done|].
        apply bind_inv_ok in H as (p & w3 & Hrun & H).
        cbv [mret eff_ret ret] in H. injection H as <-. by exists p.
  - cbv [mret eff_ret ret]. intros [= <-]. by left.
Qed.

Lemma process_variant_grows fuel environ scene variant :
  grows (process_variant float_of_str int_of_str reference_types
           yaml_safe_load veo_submit veo_poll http_get os_order fuel environ
           cfg scene variant).
Proof.
  intros w [] w' H.
  destruct (process_variant_inv _ _ _ _ _ _ H)
    as [[_ ->]|(_ & frames & _ & [[_ ->]|Hfull])]; [done..|].
  destruct Hfull
    as (first & last & text & job & w1 & w2 & _ & _ & Hload & Hjob & Hend).
  apply load_prompt_text_again in Hload as [-> _].
  apply construct_job_config_ok in Hjob as (_ & _ & _ & fs' & Hmk & ->).
  cbn [fs] in *. apply mkdir_parents_subseteq in Hmk.
  destruct Hend as [[_ ->]|[Hno [p Hrun]]]; [done|].
  etrans; [exact Hmk|]. by eapply run_generation_grows in Hrun.
Qed.

Lemma process_variant_done root fuel environ scene variant w w' F :
  process_variant float_of_str int_of_str reference_types yaml_safe_load
    veo_submit veo_poll http_get os_order fuel environ cfg scene variant w
  = (Ok tt, w') →
  fs w' ⊆ F →
  same_tree root (fs w) F →
  FS.is_below root
    (PyPath.joinpath scene (PyPath.of_string (v_name variant))) = true →
  replays F (process_variant float_of_str int_of_str reference_types
               yaml_safe_load veo_submit veo_poll http_get os_order fuel
               environ cfg scene variant).
Proof.
  intros H HF Hsame Hbelow.
  pose proof (process_variant_grows _ _ _ _ _ _ _ H) as Hg.
  assert (Hn : FS.node_at (fs w)
                 (PyPath.joinpath scene (PyPath.of_string (v_name variant)))
               = FS.node_at F
                   (PyPath.joinpath scene (PyPath.of_string (v_name variant))))
    by (apply node_at_agree, Hsame, Hbelow).
  assert (Hc : FS.children (fs w)
                 (PyPath.joinpath scene (PyPath.of_string (v_name variant)))
               ≡ₚ FS.children F
                   (PyPath.joinpath scene (PyPath.of_string (v_name variant))))
    by (eapply children_perm; [exact Hsame|by right]).
  destruct (process_variant_inv _ _ _ _ _ _ H)
    as [[Hex _]|(Hex & frames & Hfr & Hcases)]; cbv zeta in *.
  - apply replays_nothing. intros wr Hwr.
    unfold process_variant, process_variant_with. cbv zeta.
    rewrite bind_exists, Hwr. unfold FS.exists_ in *.
    rewrite <- Hn. by destruct (FS.node_at (fs w) _).
  - assert (HexF : FS.exists_ F
              (PyPath.joinpath scene (PyPath.of_string (v_name variant)))
            = true) by (unfold FS.exists_ in *; by rewrite <- Hn).
    destruct Hcases as [[-> _]|Hfull].
    + apply replays_nothing. intros wr Hwr.
      unfold process_variant, process_variant_with. cbv zeta.
      rewrite bind_exists, Hwr, HexF. cbn [negb].
      by rewrite (bind_ok _ _ _ _ _
                    (list_variant_frames_same _ _ _ _ _ Hfr Hn Hc wr Hwr)).
    + destruct Hfull
        as (first & last & text & job & w1 & w2 & Hne & Hp & Hload & Hjob
            & Hend).
      assert (Hout : fs w2 ⊆ F ∧ FS.exists_ F (Veo.output_path job) = true).
      { destruct Hend as [[Hout ->]|[Hno [p Hrun]]].
        - split; [done|]. by eapply exists_mono.
        - split.
          + etrans; [by eapply run_generation_grows|done].
          + apply run_generation_ok_is_file in Hrun as [_ Hfile].
            eapply exists_mono; [exact HF|].
            unfold FS.is_file in Hfile. unfold FS.exists_.
            by destruct (FS.node_at (fs w') (Veo.output_path job)). }
      destruct Hout as [Hsub2 Hout].
      apply load_prompt_text_again in Hload as [-> Hload].
      intros wr Hwr. exists [EvLoadPrompt (v_prompt_path variant)].
      split; [|by repeat constructor].
      unfold process_variant, process_variant_with. cbv zeta.
      rewrite bind_exists, Hwr, HexF. cbn [negb].
      rewrite (bind_ok _ _ _ _ _
                 (list_variant_frames_same _ _ _ _ _ Hfr Hn Hc wr Hwr)).
      destruct frames as [|f rest]; [done|].
      rewrite Hp, bind_lift_inr.
      assert (Hwsub : fs w ⊆ fs wr)
        by (rewrite Hwr; etrans; [exact Hg|exact HF]).
      rewrite (bind_ok _ _ _ _ _ (Hload wr Hwsub)).
      rewrite (bind_ok _ _ _ _ _
                 (construct_job_config_again _ _ _ _ _ _ _ _ _ Hjob
                    {| fs := fs wr;
                       trace := trace wr ++ [EvLoadPrompt (v_prompt_path variant)] |}
                    ltac:(cbn [fs]; by rewrite Hwr))).
      rewrite bind_exists. cbn [fs]. rewrite Hwr, Hout. done.
Qed.

Lemma process_scene_folder_grows fuel environ scene :
  grows (process_scene_folder float_of_str int_of_str reference_types
           yaml_safe_load veo_submit veo_poll http_get os_order fuel environ
           cfg scene).
Proof. apply grows_for. intros v. apply process_variant_grows. Qed.

Lemma group_folders_inv root w scenes w' :
  group_folders os_order root w = (Ok scenes, w') →
  w' = w
  ∧ ((FS.exists_ (fs w) root = false ∧ scenes = [])
     ∨ (FS.node_at (fs w) root = Some FS.Dir
        ∧ scenes
          = merge_sort PyPath.le
              (filter (λ p, FS.is_dir (fs w) p)
                 (os_order (FS.children (fs w) root))))).
Proof.
  unfold group_folders. rewrite bind_exists.
  destruct (FS.exists_ (fs w) root) eqn:Hex.
  - intros (l & w1 & (-> & Hd & ->)%iterdir_inv & H)%bind_inv_ok.
    rewrite bind_get_fs in H. cbv [mret eff_ret ret] in H.
    injection H as <- <-. split; [done|]. by right.
  - cbv [mret eff_ret ret]. intros [= <- <-]. split; [done|]. by left.
Qed.

Lemma group_folders_children root w scenes w' :
  group_folders os_order root w = (Ok scenes, w') →
  ∀ scene, scene ∈ scenes → FS.is_child root scene = true.
Proof.
  intros (_ & [[_ ->]|[_ ->]])%group_folders_inv scene;
    [by intros ?%elem_of_nil|].
  rewrite merge_sort_Permutation, list_elem_of_filter, os_order_perm.
  by intros [_ [? _]%elem_of_children].
Qed.

Lemma group_folders_same root w scenes w' F :
  group_folders os_order root w = (Ok scenes, w') →
  FS.exists_ (fs w) root = true →
  fs w ⊆ F → same_tree root (fs w) F →
  ∀ wr, fs wr = F → group_folders os_order root wr = (Ok scenes, wr).
Proof.
  intros (_ & [[Hno _]|[Hd ->]])%group_folders_inv Hex Hsub Hsame wr Hwr;
    [congruence|].
  pose proof (node_at_mono _ _ _ _ Hsub Hd) as HdF.
  unfold group_folders, iterdir. rewrite bind_exists, Hwr.
  unfold FS.exists_ at 1. rewrite HdF. mred. rewrite Hwr, HdF. mred.
  rewrite Hwr. cbv [mret eff_ret ret]. f_equal. f_equal.
  apply sorted_listing_unique.
  rewrite !os_order_perm.
  rewrite <- (children_perm root root _ _ Hsame (or_introl eq_refl)).
  rewrite (filter_ext_elem (λ p, FS.is_dir (fs w) p) (λ p, FS.is_dir F p));
    [done|].
  intros p [Hp _]%elem_of_children. unfold FS.is_dir.
  by rewrite (node_at_agree _ _ _ (Hsame p (is_child_below _ _ Hp))).
Qed.

(** A second run of the video batch over the same input tree replays the
    first one without touching the provider or the file system. *)
Lemma main_rerun environ_api_key fuel w0 w1 :
  (∀ v, v ∈ b_variants cfg →
        PyPath.is_absolute (PyPath.of_string (v_name v)) = false) →
  main float_of_str int_of_str reference_types environ_api_key
    yaml_safe_load veo_submit veo_poll http_get os_order fuel cfg w0
  = (Ok tt, w1) →
  same_tree (b_input_root cfg) (fs w0) (fs w1) →
  ∃ evs,
    main float_of_str int_of_str reference_types environ_api_key
      yaml_safe_load veo_submit veo_poll http_get os_order fuel cfg w1
    = (Ok tt, {| fs := fs w1; trace := trace w1 ++ evs |})
    ∧ Forall (λ e, is_provider_call e = false) evs.
Proof.
  intros Hnames Hrun Hsame. unfold main in *.
  apply bind_inv_ok in Hrun as (k & wa & Hkey & Hrun).
  apply veo_resolve_api_key_again in Hkey as [-> Hkey].
  apply bind_inv_ok in Hrun as (scenes & wb & Hscenes & Hloop).
  pose proof (group_folders_children _ _ _ _ Hscenes) as Hchild.
  pose proof Hscenes as (-> & Hcases)%group_folders_inv.
  pose proof (grows_for _ _ (process_scene_folder_grows fuel _) _ _ _ Hloop)
    as Hg.
  rewrite (bind_ok _ _ _ _ _ (Hkey w1 Hg)).
  destruct Hcases as [[Hno ->]|[Hd _]].
  - simpl in Hloop. cbv [ret] in Hloop. injection Hloop as <-.
    rewrite (bind_ok _ _ _ _ _ Hscenes). simpl.
    exists []. by rewrite app_nil_r, world_eta.
  - assert (Hex : FS.exists_ (fs w0) (b_input_root cfg) = true)
      by (unfold FS.exists_; by rewrite Hd).
    rewrite (bind_ok _ _ _ _ _
               (group_folders_same _ _ _ _ _ Hscenes Hex Hg Hsame w1 eq_refl)).
    apply replays_for; [|done].
    eapply (for_done _ _ _ (fs w1) w0);
      [apply process_scene_folder_grows| |reflexivity|exact Hloop|reflexivity].
    intros scene wi wj Hscene Hi Hbody Hj.
    apply replays_for.
    pose proof (process_scene_folder_grows _ _ _ _ _ _ Hbody) as Hgij.
    eapply (for_done _ _ _ (fs w1) wi);
      [apply process_variant_grows| |reflexivity|exact Hbody|exact Hj].
    intros v wk wl Hv Hk Hunit Hl.
    pose proof (process_variant_grows _ _ _ _ _ _ _ Hunit) as Hgkl.
    eapply (process_variant_done (b_input_root cfg)); [exact Hunit|done| |].
    + eapply same_tree_between; [exact Hsame|by etrans|by etrans].
    + rewrite joinpath_relative by by apply Hnames.
      apply is_below_app, is_child_below, Hchild, Hscene.
Qed.

End video_rerun.

(** ** The output check of a unit *)

Lemma process_image_unit gemini cfg variant prompt delay img rel w fs1 :
  PyPath.relative_to img (input_root cfg) = Some rel →
  FS.mkdir_parents (fs w)
    (Pipeline.out_dir_of (output_root cfg) (name variant) rel) = inr fs1 →
  Pipeline.process_image gemini cfg variant prompt delay img w
  = (if FS.exists_ fs1
          (Pipeline.out_path_of (output_root cfg) (name variant) rel)
     then mret tt
     else
       image_bytes ← read_bytes img;
       _ ← Pipeline.attempt_loop (seq 1 Pipeline.MAX_RETRIES) delay
             (Pipeline.generate_and_write gemini cfg variant prompt image_bytes
                (Pipeline.out_path_of (output_root cfg) (name variant) rel));
       sleep delay)
      {| fs := fs1; trace := trace w |}.
Proof.
  intros Hrel Hmk. unfold Pipeline.process_image.
  rewrite Hrel, bind_lift_inr, (bind_mkdir_ok _ _ _ _ Hmk), bind_exists.
  done.
Qed.

Lemma process_image_skip_iff gemini cfg variant prompt delay img rel w fs1 :
  PyPath.relative_to img (input_root cfg) = Some rel →
  FS.mkdir_parents (fs w)
    (Pipeline.out_dir_of (output_root cfg) (name variant) rel) = inr fs1 →
  Pipeline.process_image gemini cfg variant prompt delay img w
  = (Ok tt, {| fs := fs1; trace := trace w |})
  ↔ FS.exists_ fs1 (Pipeline.out_path_of (output_root cfg) (name variant) rel)
    = true.
Proof.
  intros Hrel Hmk. split.
  - intros H.
    destruct (process_image_ok _ _ _ _ _ _ _ Hrel _ _ H)
      as (fs1' & Hmk' & [[Hex _]|[_ [data Hw]]]).
    + congruence.
    + assert (fs1' = fs1) as -> by congruence.
      by apply write_bytes_exists in Hw.
  - intros Hex. by rewrite (process_image_unit _ _ _ _ _ _ _ _ _ Hrel Hmk), Hex.
Qed.

Section video_unit.
Import VeoBatch.
Variable float_of_str : string → option Q.
Variable int_of_str : string → option Z.
Variable reference_types : list string.
Variable yaml_safe_load : string → Exn + Yaml.t.
Variable veo_submit : nat → SubmitArgs → Exn + Veo.Operation.
Variable veo_poll : nat → Veo.Operation → Exn + Veo.Operation.
Variable http_get : nat → string → Exn + string.
Variable os_order : list Path → list Path.
Variables (fuel : nat) (environ : option string) (cfg : BatchConfig).
Variables (scene : Path) (variant : VideoVariant).
Variables (w w1 w2 : World) (frames : list Path) (first last : Path).
Variables (text : string) (job : Veo.VideoJobConfig).

Hypothesis folder_exists :
  FS.exists_ (fs w)
    (PyPath.joinpath scene (PyPath.of_string (v_name variant))) = true.
Hypothesis frames_listed :
  list_variant_frames os_order
    (PyPath.joinpath scene (PyPath.of_string (v_name variant))) w
  = (Ok frames, w).
Hypothesis frames_picked :
  Frames.pick_reference_frames frames = inr (first, last).
Hypothesis prompt_loaded :
  load_prompt_text yaml_safe_load (v_prompt_path variant) w = (Ok text, w1).
Hypothesis job_built :
  construct_job_config float_of_str int_of_str reference_types cfg
    (b_api_key_path cfg) (PyPath.name scene) variant first (Some last) text w1
  = (Ok job, w2).

Lemma process_variant_unit :
  process_variant float_of_str int_of_str reference_types yaml_safe_load
    veo_submit veo_poll http_get os_order fuel environ cfg scene variant w
  = (if FS.exists_ (fs w2) (Veo.output_path job) then mret tt
     else
       _ ← Veo.run_generation environ veo_submit veo_poll http_get fuel job;
       mret tt) w2.
Proof.
  unfold process_variant, process_variant_with. cbv zeta.
  rewrite bind_exists, folder_exists. cbn [negb].
  rewrite (bind_ok _ _ _ _ _ frames_listed).
  destruct frames as [|f rest]; [done|].
  rewrite frames_picked, bind_lift_inr.
  rewrite (bind_ok _ _ _ _ _ prompt_loaded).
  rewrite (bind_ok _ _ _ _ _ job_built).
  by rewrite bind_exists.
Qed.

Lemma process_variant_skip_iff :
  process_variant float_of_str int_of_str reference_types yaml_safe_load
    veo_submit veo_poll http_get os_order fuel environ cfg scene variant w
  = (Ok tt, w2)
  ↔ FS.exists_ (fs w2) (Veo.output_path job) = true.
Proof.
  rewrite process_variant_unit.
  destruct (FS.exists_ (fs w2) (Veo.output_path job)) eqn:Hex; [done|].
  split; [|done].
  intros (p & w3 & Hrun & H)%bind_inv_ok.
  cbv [mret eff_ret ret] in H. injection H as ->.
  apply run_generation_ok_is_file in Hrun as [_ Hfile].
  unfold FS.exists_ in Hex. unfold FS.is_file in Hfile.
  by destruct (FS.node_at (fs w2) (Veo.output_path job)).
Qed.

End video_unit.

(** ** Whole runs *)

Lemma process_images_grows environ_api_key yaml_safe_load gemini os_order cfg qps :
  grows (Pipeline.process_images environ_api_key yaml_safe_load gemini os_order
           cfg qps).
Proof.
  unfold Pipeline.process_images. apply grows_bind.
  - intros w k w' [-> _]%pipeline_resolve_api_key_again. done.
  - intros _. apply variants_loop_grows.
Qed.

Lemma main_grows float_of_str int_of_str reference_types environ_api_key
    yaml_safe_load veo_submit veo_poll http_get os_order fuel cfg :
  grows (VeoBatch.main float_of_str int_of_str reference_types environ_api_key
           yaml_safe_load veo_submit veo_poll http_get os_order fuel cfg).
Proof.
  unfold VeoBatch.main. apply grows_bind.
  - intros w k w' [-> _]%veo_resolve_api_key_again. done.
  - intros k. apply grows_bind.
    + intros w l w' [-> _]%group_folders_inv. done.
    + intros scenes. apply grows_for. intros scene.
      apply process_scene_folder_grows.
Qed.

(** A larger file system has the same tree below [root] when each of its
    entries below [root] was there before. *)
Lemma same_tree_by_keys (root : Path) (fs1 fs2 : FS.t) :
  fs1 ⊆ fs2 →
  forallb (λ p, negb (FS.is_below root p)
                || match fs1 !! p with Some _ => true | None => false end)
    (map_to_list fs2).*1 = true →
  same_tree root fs1 fs2.
Proof.
  intros Hsub Hall p Hp. rewrite forallb_forall in Hall.
  destruct (fs2 !! p) as [n|] eqn:H2.
  - assert (Hin : In p (map_to_list fs2).*1).
    { apply list_elem_of_In, elem_of_keys. by rewrite H2. }
    apply Hall in Hin. rewrite Hp in Hin. cbn [negb orb] in Hin.
    destruct (fs1 !! p) as [n'|] eqn:Hn'; [|done].
    rewrite <- H2. symmetry. by eapply lookup_weaken.
  - destruct (fs1 !! p) as [n|] eqn:H1; [|done].
    by rewrite (lookup_weaken _ _ _ _ H1 Hsub) in H2.
Qed.

Lemma rerun_summary {A} (m : M A) a w1 evs :
  m w1 = (Ok a, {| fs := fs w1; trace := trace w1 ++ evs |}) →
  Forall (λ e, is_provider_call e = false) evs →
  ∃ w2, m w1 = (Ok a, w2) ∧ fs w2 = fs w1
        ∧ count is_provider_call (trace w2) = count is_provider_call (trace w1).
Proof.
  intros H Hall. eexists. split; [exact H|]. split; [done|].
  cbn [trace]. rewrite count_app, (count_none _ _ Hall). lia.
Qed.

(** C3.  A unit is skipped exactly when something exists at its output
    path, and a second run over the same input tree reaches no provider and
    leaves the file system as the first run left it.

    For an image, once the output directory is made: the unit returns at
    once, with no event, exactly when an entry exists at the output path;
    when none does, the unit reads the image and enters the retry loop.
    For a (scene, variant) pair whose frames were listed and picked, whose
    prompt was loaded and whose job was built: the unit returns at once
    exactly when an entry exists at the job's output path; when none does,
    the unit is the generation job.  Hence, for both scripts, when a run
    has ended normally and the tree below the input root is as before the
    run, running again ends normally, changes no file and adds no provider
    call.  The raw listing order of the operating system is any
    rearrangement of the entries; for the video batch the variant names
    are relative. *)
Theorem output_cache_idempotent :
  (∀ gemini cfg variant prompt delay img rel w fs1,
      PyPath.relative_to img (input_root cfg) = Some rel →
      FS.mkdir_parents (fs w)
        (Pipeline.out_dir_of (output_root cfg) (name variant) rel) = inr fs1 →
      let out_path :=
        Pipeline.out_path_of (output_root cfg) (name variant) rel in
      let w1 := {| fs := fs1; trace := trace w |} in
      (Pipeline.process_image gemini cfg variant prompt delay img w = (Ok tt, w1)
       ↔ FS.exists_ fs1 out_path = true)
      ∧ (FS.exists_ fs1 out_path = false →
         Pipeline.process_image gemini cfg variant prompt delay img w
         = (image_bytes ← read_bytes img;
            _ ← Pipeline.attempt_loop (seq 1 Pipeline.MAX_RETRIES) delay
                  (Pipeline.generate_and_write gemini cfg variant prompt
                     image_bytes out_path);
            sleep delay) w1))
  ∧ (∀ float_of_str int_of_str reference_types yaml_safe_load veo_submit
       veo_poll http_get os_order fuel environ cfg scene variant w w1 w2
       frames first last text job,
        let folder := PyPath.joinpath scene (PyPath.of_string (v_name variant)) in
        FS.exists_ (fs w) folder = true →
        VeoBatch.list_variant_frames os_order folder w = (Ok frames, w) →
        Frames.pick_reference_frames frames = inr (first, last) →
        VeoBatch.load_prompt_text yaml_safe_load (v_prompt_path variant) w
        = (Ok text, w1) →
        VeoBatch.construct_job_config float_of_str int_of_str reference_types
          cfg (b_api_key_path cfg) (PyPath.name scene) variant first
          (Some last) text w1
        = (Ok job, w2) →
        (VeoBatch.process_variant float_of_str int_of_str reference_types
           yaml_safe_load veo_submit veo_poll http_get os_order fuel environ
           cfg scene variant w
         = (Ok tt, w2)
         ↔ FS.exists_ (fs w2) (Veo.output_path job) = true)
        ∧ (FS.exists_ (fs w2) (Veo.output_path job) = false →
           VeoBatch.process_variant float_of_str int_of_str reference_types
             yaml_safe_load veo_submit veo_poll http_get os_order fuel environ
             cfg scene variant w
           = (_ ← Veo.run_generation environ veo_submit veo_poll http_get fuel
                    job;
              mret tt) w2))
  ∧ (∀ environ yaml_safe_load gemini os_order cfg qps w0 w1,
        (∀ l : list Path, os_order l ≡ₚ l) →
        Pipeline.process_images environ yaml_safe_load gemini os_order cfg qps w0
        = (Ok tt, w1) →
        same_tree (input_root cfg) (fs w0) (fs w1) →
        ∃ w2,
          Pipeline.process_images environ yaml_safe_load gemini os_order cfg
            qps w1
          = (Ok tt, w2)
          ∧ fs w2 = fs w1
          ∧ count is_provider_call (trace w2)
            = count is_provider_call (trace w1))
  ∧ (∀ float_of_str int_of_str reference_types environ yaml_safe_load
       veo_submit veo_poll http_get os_order fuel cfg w0 w1,
        (∀ l : list Path, os_order l ≡ₚ l) →
        (∀ v, v ∈ b_variants cfg →
              PyPath.is_absolute (PyPath.of_string (v_name v)) = false) →
        VeoBatch.main float_of_str int_of_str reference_types environ
          yaml_safe_load veo_submit veo_poll http_get os_order fuel cfg w0
        = (Ok tt, w1) →
        same_tree (b_input_root cfg) (fs w0) (fs w1) →
        ∃ w2,
          VeoBatch.main float_of_str int_of_str reference_types environ
            yaml_safe_load veo_submit veo_poll http_get os_order fuel cfg w1
          = (Ok tt, w2)
          ∧ fs w2 = fs w1
          ∧ count is_provider_call (trace w2)
            = count is_provider_call (trace w1)).
Proof.
  split; [|split; [|split]].
  - intros * Hrel Hmk out_path w1. split.
    + by apply process_image_skip_iff.
    + intros Hex. unfold out_path in *.
      by rewrite (process_image_unit _ _ _ _ _ _ _ _ _ Hrel Hmk), Hex.
  - intros *. cbv zeta. intros Hex Hfr Hpick Hload Hjob. split.
    + by eapply process_variant_skip_iff.
    + intros Hno.
      rewrite (process_variant_unit _ _ _ _ _ _ _ _ _ _ _ _ _ _ _ _ _ _ _ _ _
                 Hex Hfr Hpick Hload Hjob).
      by rewrite Hno.
  - intros * Hperm Hrun Hsame.
    destruct (process_images_rerun _ _ _ _ _ _ _ _ Hperm Hrun Hsame)
      as (evs & H & Hall).
    by eapply rerun_summary.
  - intros * Hperm Hnames Hrun Hsame.
    destruct (main_rerun _ _ _ _ _ _ _ _ Hperm _ _ _ _ _ Hnames Hrun Hsame)
      as (evs & H & Hall).
    by eapply rerun_summary.
Qed.

(** C3, witness: the pipeline run twice over one image and two variants,
    and the video batch run twice over two scenes. *)
Lemma output_cache_idempotent_witness :
  (∃ w2,
      Pipeline.process_images (Some "key"%string) Sample.yaml_loader
        Sample.gemini_ok reverse (Sample.pipeline_cfg [Sample.rain; Sample.snow])
        (1 # 2)
        (Pipeline.process_images (Some "key"%string) Sample.yaml_loader
           Sample.gemini_ok reverse
           (Sample.pipeline_cfg [Sample.rain; Sample.snow]) (1 # 2)
           Sample.one_image).2
      = (Ok tt, w2)
      ∧ count is_provider_call (trace w2) = 2)
  ∧ (∃ w2,
        VeoBatch.main (λ _, None) (λ _, None) Sample.reference_types
          (Some "key"%string) Sample.yaml_loader Sample.veo_submit
          (Sample.veo_poll_after 2) Sample.http_none reverse 5 Sample.batch_cfg
          (VeoBatch.main (λ _, None) (λ _, None) Sample.reference_types
             (Some "key"%string) Sample.yaml_loader Sample.veo_submit
             (Sample.veo_poll_after 2) Sample.http_none reverse 5
             Sample.batch_cfg Sample.video_world).2
        = (Ok tt, w2)
        ∧ count is_provider_call (trace w2) = 6).
Proof.
  split.
  - assert (Hfirst :
      Pipeline.process_images (Some "key"%string) Sample.yaml_loader
        Sample.gemini_ok reverse
        (Sample.pipeline_cfg [Sample.rain; Sample.snow]) (1 # 2)
        Sample.one_image
      = (Ok tt,
         (Pipeline.process_images (Some "key"%string) Sample.yaml_loader
            Sample.gemini_ok reverse
            (Sample.pipeline_cfg [Sample.rain; Sample.snow]) (1 # 2)
            Sample.one_image).2))
      by (vm_compute; reflexivity).
    destruct (proj1 (proj2 (proj2 output_cache_idempotent))
                (Some "key"%string) Sample.yaml_loader Sample.gemini_ok reverse
                (Sample.pipeline_cfg [Sample.rain; Sample.snow]) (1 # 2)
                Sample.one_image _ reverse_Permutation Hfirst)
      as (w2 & Hrun & _ & Hcount).
    + apply same_tree_by_keys.
      * exact (process_images_grows _ _ _ _ _ _ _ _ _ Hfirst).
      * vm_compute. reflexivity.
    + exists w2. split; [exact Hrun|]. rewrite Hcount. vm_compute. reflexivity.
  - assert (Hfirst :
      VeoBatch.main (λ _, None) (λ _, None) Sample.reference_types
        (Some "key"%string) Sample.yaml_loader Sample.veo_submit
        (Sample.veo_poll_after 2) Sample.http_none reverse 5 Sample.batch_cfg
        Sample.video_world
      = (Ok tt,
         (VeoBatch.main (λ _, None) (λ _, None) Sample.reference_types
            (Some "key"%string) Sample.yaml_loader Sample.veo_submit
            (Sample.veo_poll_after 2) Sample.http_none reverse 5
            Sample.batch_cfg Sample.video_world).2))
      by (vm_compute; reflexivity).
    assert (Hnames : ∀ v, v ∈ b_variants Sample.batch_cfg →
              PyPath.is_absolute (PyPath.of_string (v_name v)) = false).
    { intros v Hv. apply list_elem_of_singleton in Hv as ->.
      vm_compute. reflexivity. }
    destruct (proj2 (proj2 (proj2 output_cache_idempotent))
                (λ _, None) (λ _, None) Sample.reference_types
                (Some "key"%string) Sample.yaml_loader Sample.veo_submit
                (Sample.veo_poll_after 2) Sample.http_none reverse 5
                Sample.batch_cfg Sample.video_world _ reverse_Permutation
                Hnames Hfirst)
      as (w2 & Hrun & _ & Hcount).
    + apply same_tree_by_keys.
      * exact (main_grows _ _ _ _ _ _ _ _ _ _ _ _ _ _ Hfirst).
      * vm_compute. reflexivity.
    + exists w2. split; [exact Hrun|]. rewrite Hcount. vm_compute. reflexivity.
Defined.

(** ** Credentials *)

Section credentials.
Variable environ_api_key : option string.
Variable key_path : option Path.
Variable w : World.

Lemma pipeline_key_from_environ k :
  environ_api_key = Some k → k ≠ EmptyString →
  Pipeline.resolve_api_key environ_api_key key_path w = (Ok k, w).
Proof.
  intros -> Hk. unfold Pipeline.resolve_api_key. cbn [from_option id].
  apply String.eqb_neq in Hk. rewrite Hk. mred. cbv beta. by rewrite ?Hk.
Qed.

Lemma pipeline_key_missing :
  default EmptyString environ_api_key = EmptyString →
  match key_path with
  | Some p => FS.exists_ (fs w) p = false
  | None => True
  end →
  Pipeline.resolve_api_key environ_api_key key_path w
  = (Raise (EnvironmentError "Gemini API key not provided"), w).
Proof.
  intros He Hp. unfold Pipeline.resolve_api_key. rewrite He. cbn [String.eqb].
  destruct key_path as [p|]; [|done].
  by rewrite bind_assoc, bind_exists, Hp.
Qed.

Lemma pipeline_key_from_file p text :
  default EmptyString environ_api_key = EmptyString →
  key_path = Some p →
  FS.read_bytes (fs w) p = inr text →
  Pipeline.resolve_api_key environ_api_key key_path w
  = (if String.eqb (PyStr.strip text) EmptyString
     then Raise (EnvironmentError "Gemini API key not provided")
     else Ok (PyStr.strip text), w).
Proof.
  intros He -> Hr. unfold Pipeline.resolve_api_key. rewrite He.
  cbn [String.eqb].
  assert (Hex : FS.exists_ (fs w) p = true).
  { unfold FS.exists_. unfold FS.read_bytes in Hr.
    by destruct (FS.node_at (fs w) p) as [[|]|]. }
  rewrite bind_assoc, bind_exists, Hex.
  unfold fmap, eff_fmap, read_bytes. mred. rewrite Hr. mred. cbv beta.
  by destruct (String.eqb (PyStr.strip text) EmptyString).
Qed.

End credentials.

(** X1.  The credential of the image pipeline: a non-empty environment
    variable is returned as it is, whatever the key file holds; with the
    variable unset or empty, a readable key file gives its trimmed text,
    and a key file of white space only counts as no key at all.  The world
    is left as it was in every case. *)
Theorem api_key_precedence :
  ∀ (environ_api_key : option string) (key_path : option Path) (w : World),
    (∀ k, environ_api_key = Some k → k ≠ EmptyString →
          Pipeline.resolve_api_key environ_api_key key_path w = (Ok k, w))
    ∧ (∀ p text,
          default EmptyString environ_api_key = EmptyString →
          key_path = Some p →
          FS.read_bytes (fs w) p = inr text →
          PyStr.strip text ≠ EmptyString →
          Pipeline.resolve_api_key environ_api_key key_path w
          = (Ok (PyStr.strip text), w))
    ∧ (∀ p text,
          default EmptyString environ_api_key = EmptyString →
          key_path = Some p →
          FS.read_bytes (fs w) p = inr text →
          PyStr.strip text = EmptyString →
          Pipeline.resolve_api_key environ_api_key key_path w
          = (Raise (EnvironmentError "Gemini API key not provided"), w)).
Proof.
  intros environ_api_key key_path w. split; [|split].
  - intros k. apply pipeline_key_from_environ.
  - intros p text He Hp Hr Hs.
    rewrite (pipeline_key_from_file _ _ _ p text He Hp Hr).
    apply String.eqb_neq in Hs. by rewrite Hs.
  - intros p text He Hp Hr Hs.
    rewrite (pipeline_key_from_file _ _ _ p text He Hp Hr).
    by rewrite Hs.
Qed.

(** X1, witness: an empty variable and a key file holding a padded key. *)
Lemma api_key_precedence_witness :
  Pipeline.resolve_api_key (Some EmptyString) (Some ["key.txt"])
    {| fs := {[ ["key.txt"] := FS.File "  k-123  " ]}; trace := [] |}
  = (Ok "k-123"%string,
     {| fs := {[ ["key.txt"] := FS.File "  k-123  " ]}; trace := [] |}).
Proof.
  apply (proj1 (proj2 (api_key_precedence (Some EmptyString) (Some ["key.txt"])
                         {| fs := {[ ["key.txt"] := FS.File "  k-123  " ]};
                            trace := [] |}))
           ["key.txt"] "  k-123  "%string);
    [reflexivity|reflexivity|vm_compute; reflexivity|vm_compute; discriminate].
Defined.

(** X2.  Without a credential each orchestrator stops before anything else:
    the run raises the environment error and the world is as before, with
    no listing, no prompt load and no provider call. *)
Theorem missing_key_stops_run :
  ∀ (environ_api_key : option string) (w : World),
    default EmptyString environ_api_key = EmptyString →
    (∀ yaml_safe_load gemini os_order cfg qps,
        match api_key_path cfg with
        | Some p => FS.exists_ (fs w) p = false
        | None => True
        end →
        Pipeline.process_images environ_api_key yaml_safe_load gemini os_order
          cfg qps w
        = (Raise (EnvironmentError "Gemini API key not provided"), w))
    ∧ (∀ yaml_safe_load gemini os_order cfg,
          match app_api_key_path cfg with
          | Some p => FS.exists_ (fs w) p = false
          | None => True
          end →
          Pairs.main environ_api_key yaml_safe_load gemini os_order cfg w
          = (Raise (EnvironmentError "Gemini API key not provided"), w))
    ∧ (∀ float_of_str int_of_str reference_types yaml_safe_load veo_submit
         veo_poll http_get os_order fuel cfg,
          match b_api_key_path cfg with
          | Some p => FS.exists_ (fs w) p = false
          | None => True
          end →
          VeoBatch.main float_of_str int_of_str reference_types environ_api_key
            yaml_safe_load veo_submit veo_poll http_get os_order fuel cfg w
          = (Raise (EnvironmentError "Gemini/VEO API key not provided"), w)).
Proof.
  intros environ_api_key w He. split; [|split].
  - intros * Hp. unfold Pipeline.process_images.
    by rewrite (bind_raise _ _ _ _ _ (pipeline_key_missing _ _ _ He Hp)).
  - intros * Hp. unfold Pairs.main.
    by rewrite (bind_raise _ _ _ _ _ (pipeline_key_missing _ _ _ He Hp)).
  - intros * Hp. unfold VeoBatch.main.
    apply bind_raise. unfold Veo.resolve_api_key. rewrite He. cbn [String.eqb].
    destruct (b_api_key_path cfg) as [p|]; [|done].
    by rewrite bind_assoc, bind_exists, Hp.
Qed.

(** X2, witness: the sample pipeline run with no key anywhere. *)
Lemma missing_key_stops_run_witness :
  Pipeline.process_images None Sample.yaml_loader Sample.gemini_ok id
    (Sample.pipeline_cfg [Sample.rain]) (1 # 2) Sample.one_image
  = (Raise (EnvironmentError "Gemini API key not provided"), Sample.one_image).
Proof.
  apply (proj1 (missing_key_stops_run None Sample.one_image eq_refl)).
  exact I.
Defined.

(** ** Prompt texts *)

Lemma string_app_empty_r (s : string) : s +:+ EmptyString = s.
Proof.
  induction s as [|c s IH]; [reflexivity|]. by rewrite string_app_cons, IH.
Qed.

Section prompt_texts.
Variable yaml_safe_load : string → Exn + Yaml.t.
Variables (path : Path) (w : World) (text : string) (m : gmap string Yaml.t).
Hypothesis file_read : FS.read_bytes (fs w) path = inr text.
Hypothesis file_parsed : yaml_safe_load text = inr (Yaml.Map m).

Lemma load_prompt_text_run r :
  VeoBatch.prompt_text_of (Yaml.Map m) = r →
  VeoBatch.load_prompt_text yaml_safe_load path w
  = (match r with inr s => Ok s | inl e => Raise e end,
     {| fs := fs w; trace := trace w ++ [EvLoadPrompt path] |}).
Proof.
  intros <-. unfold VeoBatch.load_prompt_text, read_bytes. mred.
  rewrite file_read. mred. rewrite file_parsed. mred.
  by destruct (VeoBatch.prompt_text_of (Yaml.Map m)).
Qed.

Lemma load_prompt_template_run r :
  (pos ← Yaml.getitem (Yaml.Map m) "positive" ≫= Pipeline.str_strip;
   neg ← Yaml.getitem (Yaml.Map m) "negative" ≫= Pipeline.str_strip;
   mret {| Pipeline.positive := pos; Pipeline.negative := neg |}) = r →
  Pipeline.load_prompt_template yaml_safe_load path w
  = (match r with inr t => Ok t | inl e => Raise e end,
     {| fs := fs w; trace := trace w ++ [EvLoadPrompt path] |}).
Proof.
  intros <-. unfold Pipeline.load_prompt_template, read_bytes. mred.
  rewrite file_read. mred. rewrite file_parsed. mred.
  destruct (Yaml.getitem (Yaml.Map m) "positive" ≫= Pipeline.str_strip)
    as [e|pos]; [done|]. mred.
  destruct (Yaml.getitem (Yaml.Map m) "negative" ≫= Pipeline.str_strip)
    as [e|neg]; [done|]. by mred.
Qed.

End prompt_texts.

(** X3.  For a prompt file with both fields, the video batch sends the
    text the image pipeline builds exactly when the trimmed negative part
    is not empty.  With an empty one the batch sends the trimmed positive
    part alone, while the pipeline still appends the line
    [Negative prompt: ]. *)
Theorem prompt_text_agreement :
  ∀ (yaml_safe_load : string → Exn + Yaml.t) (path : Path) (w : World)
    (text : string) (m : gmap string Yaml.t) (pos neg : string),
    FS.read_bytes (fs w) path = inr text →
    yaml_safe_load text = inr (Yaml.Map m) →
    m !! "positive" = Some (Yaml.Str pos) →
    m !! "negative" = Some (Yaml.Str neg) →
    let w' := {| fs := fs w; trace := trace w ++ [EvLoadPrompt path] |} in
    let template :=
      {| Pipeline.positive := PyStr.strip pos;
         Pipeline.negative := PyStr.strip neg |} in
    Pipeline.load_prompt_template yaml_safe_load path w = (Ok template, w')
    ∧ (PyStr.strip neg ≠ EmptyString →
       VeoBatch.load_prompt_text yaml_safe_load path w
       = (Ok (Pipeline.build_prompt template), w'))
    ∧ (PyStr.strip neg = EmptyString →
       VeoBatch.load_prompt_text yaml_safe_load path w
       = (Ok (PyStr.strip pos), w')
       ∧ Pipeline.build_prompt template
         = PyStr.strip pos +:+ Pipeline.newline +:+ "Negative prompt: ").
Proof.
  intros * Hr Hy Hp Hn w' template. split; [|split].
  - by eapply load_prompt_template_trimmed.
  - intros Hne.
    rewrite (load_prompt_text_run _ _ _ _ _ Hr Hy
               (inr (Pipeline.build_prompt template))); [done|].
    unfold VeoBatch.prompt_text_of, Yaml.get. rewrite Hp, Hn. cbn.
    apply String.eqb_neq in Hne. by rewrite Hne.
  - intros He. split.
    + rewrite (load_prompt_text_run _ _ _ _ _ Hr Hy (inr (PyStr.strip pos)));
        [done|].
      unfold VeoBatch.prompt_text_of, Yaml.get. rewrite Hp, Hn. cbn.
      by rewrite He.
    + unfold Pipeline.build_prompt, template. cbn. rewrite He.
      by rewrite string_app_empty_r.
Qed.

(** X3, witness: a prompt file whose negative part is blank. *)
Lemma prompt_text_agreement_witness :
  VeoBatch.load_prompt_text
    (λ _, inr (Yaml.Map {[ "positive" := Yaml.Str " sunny ";
                           "negative" := Yaml.Str "  " ]}))
    ["p.yaml"] Sample.one_image
  = (Ok "sunny"%string,
     {| fs := fs Sample.one_image; trace := [EvLoadPrompt ["p.yaml"]] |}).
Proof.
  refine (proj1 (proj2 (proj2
            (prompt_text_agreement
               (λ _, inr (Yaml.Map {[ "positive" := Yaml.Str " sunny ";
                                      "negative" := Yaml.Str "  " ]}))
               ["p.yaml"] Sample.one_image "positive: sunny"
               {[ "positive" := Yaml.Str " sunny "; "negative" := Yaml.Str "  " ]}
               " sunny " "  " _ _ _ _)) _));
    vm_compute; reflexivity.
Defined.

(** X4.  A prompt file without the key [negative] stops the image pipeline
    with a [KeyError] once the file has been read, and the template is not
    cached; the video batch takes the missing part as empty and sends the
    trimmed positive part. *)
Theorem prompt_missing_negative :
  ∀ (yaml_safe_load : string → Exn + Yaml.t) (path : Path) (w : World)
    (text : string) (m : gmap string Yaml.t) (pos : string)
    (cache : gmap Path Pipeline.PromptTemplate),
    FS.read_bytes (fs w) path = inr text →
    yaml_safe_load text = inr (Yaml.Map m) →
    m !! "positive" = Some (Yaml.Str pos) →
    m !! "negative" = None →
    cache !! path = None →
    let w' := {| fs := fs w; trace := trace w ++ [EvLoadPrompt path] |} in
    Pipeline.get_template yaml_safe_load cache path w
    = (Raise (KeyError "negative"), w')
    ∧ VeoBatch.load_prompt_text yaml_safe_load path w
      = (Ok (PyStr.strip pos), w').
Proof.
  intros * Hr Hy Hp Hn Hc w'. split.
  - unfold Pipeline.get_template. rewrite Hc. apply bind_raise.
    rewrite (load_prompt_template_run _ _ _ _ _ Hr Hy
               (inl (KeyError "negative"))); [done|].
    unfold Yaml.getitem. rewrite Hp, Hn. reflexivity.
  - rewrite (load_prompt_text_run _ _ _ _ _ Hr Hy (inr (PyStr.strip pos)));
      [done|].
    unfold VeoBatch.prompt_text_of, Yaml.get. rewrite Hp, Hn. reflexivity.
Qed.

(** X4, witness: a prompt file with a positive part only. *)
Lemma prompt_missing_negative_witness :
  Pipeline.get_template
    (λ _, inr (Yaml.Map {[ "positive" := Yaml.Str " sunny " ]}))
    ∅ ["p.yaml"] Sample.one_image
  = (Raise (KeyError "negative"),
     {| fs := fs Sample.one_image; trace := [EvLoadPrompt ["p.yaml"]] |}).
Proof.
  refine (proj1 (prompt_missing_negative
                   (λ _, inr (Yaml.Map {[ "positive" := Yaml.Str " sunny " ]}))
                   ["p.yaml"] Sample.one_image "positive: sunny"
                   {[ "positive" := Yaml.Str " sunny " ]} " sunny " ∅
                   _ _ _ _ _));
    vm_compute; reflexivity.
Defined.

(** ** The delay between calls *)


(** ** The provider's answer *)

Section response.
Import Response.

Lemma scan_parts_flat (ps : list Part) :
  scan_parts ps = head (omap part_data ps).
Proof.
  induction ps as [|p rest IH]; [done|]. simpl.
  destruct (part_data p); [done|]. exact IH.
Qed.

Lemma scan_parts_none (ps : list Part) :
  scan_parts ps = None ↔ Forall (λ p, part_data p = None) ps.
Proof.
  induction ps as [|p rest IH]; [by split; [constructor|]|].
  simpl. destruct (part_data p) eqn:Hp.
  - split; [done|]. intros H. apply Forall_cons in H as [H _]. congruence.
  - rewrite IH. split; [by constructor|]. by intros [_ H]%Forall_cons.
Qed.

Lemma part_data_nonempty p d : part_data p = Some d → d ≠ EmptyString.
Proof.
  unfold part_data, Veo.nonempty.
  destruct p as [[[[s|]]|]]; cbn [inline_data data]; try done.
  destruct (String.eqb s EmptyString) eqn:H; [done|].
  intros [= <-]. by apply String.eqb_neq.
Qed.

Lemma scan_parts_nonempty ps d : scan_parts ps = Some d → d ≠ EmptyString.
Proof.
  induction ps as [|p rest IH]; [done|]. simpl.
  destruct (part_data p) as [d'|] eqn:Hp; [|exact IH].
  intros [= <-]. by eapply part_data_nonempty.
Qed.

(** The outer loop passes over the candidates without data. *)
Lemma scan_candidates_skip (pre rest : list Candidate) :
  Forall dataless pre →
  scan_candidates (pre ++ rest) = scan_candidates rest.
Proof.
  induction 1 as [|c pre (ps & Hps & Hnone) _ IH]; [done|].
  cbn [app scan_candidates]. rewrite Hps, exn_bind_inr.
  apply scan_parts_none in Hnone. by rewrite Hnone.
Qed.

(** What the outer loop ends with, by the first candidate that is not
    passed over. *)
Lemma scan_candidates_cases (cs : list Candidate) :
  match scan_candidates cs with
  | inr None => Forall dataless cs
  | inr (Some d) =>
      ∃ pre c post ps,
        cs = pre ++ c :: post ∧ Forall dataless pre
        ∧ parts_of c = inr ps ∧ scan_parts ps = Some d
  | inl e =>
      ∃ pre c post,
        cs = pre ++ c :: post ∧ Forall dataless pre ∧ parts_of c = inl e
  end.
Proof.
  induction cs as [|c rest IH]; [by constructor|].
  cbn [scan_candidates].
  destruct (parts_of c) as [e|ps] eqn:Hps.
  { by exists [], c, rest. }
  rewrite exn_bind_inr.
  destruct (scan_parts ps) as [d|] eqn:Hscan.
  { by exists [], c, rest, ps. }
  assert (Hc : dataless c).
  { exists ps. split; [done|]. by apply scan_parts_none. }
  destruct (scan_candidates rest) as [e|[d|]].
  - destruct IH as (pre & c' & post & -> & Hpre & He).
    exists (c :: pre), c', post. split; [done|]. split; [by constructor|done].
  - destruct IH as (pre & c' & post & ps' & -> & Hpre & Hps' & Hd).
    exists (c :: pre), c', post, ps'.
    split; [done|]. split; [by constructor|done].
  - by constructor.
Qed.

Lemma parts_of_not_runtime c msg : parts_of c ≠ inl (RuntimeError msg).
Proof.
  unfold parts_of. destruct (content c) as [[[ps|]]|]; done.
Qed.

End response.

(** X6.  From the provider's answer [call_gemini_edit] keeps the first
    non-empty inline data, reading the candidates in order and the parts
    of each in order.  It raises the runtime error exactly when every
    candidate has parts and none of them carries data, also when the
    answer has no candidate list.  A candidate without content, or whose
    content has no parts, that is reached before any data raises
    [AttributeError] or [TypeError] instead; after the data it is not
    looked at. *)
Theorem raw_bytes_first_data :
  ∀ candidates : option (list Response.Candidate),
    let cs := default [] candidates in
    (∀ d, Response.raw_bytes candidates = inr d
          ↔ ∃ pre c post ps,
              cs = pre ++ c :: post
              ∧ Forall Response.dataless pre
              ∧ Response.parts_of c = inr ps
              ∧ head (omap Response.part_data ps) = Some d)
    ∧ (Response.raw_bytes candidates
       = inl (RuntimeError "No image data returned by Gemini")
       ↔ Forall Response.dataless cs)
    ∧ (∀ e pre c post,
          cs = pre ++ c :: post →
          Forall Response.dataless pre →
          Response.parts_of c = inl e →
          Response.raw_bytes candidates = inl e)
    ∧ (∀ pre c post,
          cs = pre ++ c :: post →
          Forall Response.dataless pre →
          Response.content c = None →
          Response.raw_bytes candidates = inl (AttributeError "parts"))
    ∧ (∀ d, Response.raw_bytes candidates = inr d → d ≠ EmptyString).
Proof.
  intros candidates cs. unfold Response.raw_bytes. fold cs.
  pose proof (scan_candidates_cases cs) as Hcases.
  split; [|split; [|split; [|split]]].
  - intros d. split.
    + destruct (Response.scan_candidates cs) as [e|[d'|]]; [done| |done].
      rewrite exn_bind_inr. intros [= <-].
      destruct Hcases as (pre & c & post & ps & Hcs & Hpre & Hps & Hd).
      exists pre, c, post, ps. by rewrite <- scan_parts_flat.
    + intros (pre & c & post & ps & -> & Hpre & Hps & Hd).
      rewrite scan_candidates_skip by done. cbn [Response.scan_candidates].
      rewrite Hps, exn_bind_inr, scan_parts_flat, Hd. by rewrite exn_bind_inr.
  - split.
    + destruct (Response.scan_candidates cs) as [e|[d'|]]; [|done|done].
      destruct Hcases as (pre & c & post & _ & _ & He).
      intros [= ->]. by apply parts_of_not_runtime in He.
    + intros Hall. rewrite <- (app_nil_r cs).
      by rewrite scan_candidates_skip.
  - intros e pre c post -> Hpre He.
    rewrite scan_candidates_skip by done. cbn [Response.scan_candidates].
    by rewrite He.
  - intros pre c post -> Hpre Hc.
    rewrite scan_candidates_skip by done. cbn [Response.scan_candidates].
    unfold Response.parts_of. by rewrite Hc.
  - intros d.
    destruct (Response.scan_candidates cs) as [e|[d'|]]; [done| |done].
    rewrite exn_bind_inr. intros [= <-].
    destruct Hcases as (pre & c & post & ps & _ & _ & _ & Hd).
    by eapply scan_parts_nonempty.
Qed.

(** X6, witness: a blocked answer, whose only candidate has no content. *)
Lemma raw_bytes_first_data_witness :
  Response.raw_bytes (Some [ {| Response.content := None |} ])
  = inl (AttributeError "parts").
Proof.
  apply (proj1 (proj2 (proj2 (proj2
           (raw_bytes_first_data (Some [ {| Response.content := None |} ])))))
           [] {| Response.content := None |} []);
    [reflexivity|constructor|reflexivity].
Defined.

(** ** What the listings hold *)

Section listing_contents.
Variable os_order : list Path → list Path.
Hypothesis os_order_perm : ∀ l : list Path, os_order l ≡ₚ l.

Lemma children_NoDup (fs0 : FS.t) folder : NoDup (FS.children fs0 folder).
Proof.
  unfold FS.children. apply NoDup_filter, NoDup_fst_map_to_list.
Qed.

Lemma sorted_filter_NoDup (P : Path → bool) (fs0 : FS.t) folder :
  NoDup (merge_sort PyPath.le
           (filter (λ p, P p) (os_order (FS.children fs0 folder)))).
Proof.
  rewrite merge_sort_Permutation. apply NoDup_filter.
  rewrite os_order_perm. apply children_NoDup.
Qed.

Lemma elem_of_sorted_filter (P : Path → bool) (fs0 : FS.t) folder p :
  p ∈ merge_sort PyPath.le
        (filter (λ p, P p) (os_order (FS.children fs0 folder)))
  ↔ FS.is_child folder p = true ∧ is_Some (fs0 !! p) ∧ P p = true.
Proof.
  rewrite merge_sort_Permutation, list_elem_of_filter, os_order_perm,
    elem_of_children.
  rewrite Is_true_true. tauto.
Qed.

Lemma list_variant_frames_dir folder w :
  FS.node_at (fs w) folder = Some FS.Dir →
  VeoBatch.list_variant_frames os_order folder w
  = (Ok (merge_sort PyPath.le
           (filter (λ p, PyPath.is_image p)
              (os_order (FS.children (fs w) folder)))), w).
Proof.
  intros Hd. unfold VeoBatch.list_variant_frames, VeoBatch.iterdir.
  rewrite bind_assoc, bind_get_fs, Hd. by mred.
Qed.

Lemma iterdir_not_dir folder w :
  FS.node_at (fs w) folder ≠ Some FS.Dir →
  VeoBatch.iterdir os_order folder w
  = (Raise (match FS.node_at (fs w) folder with
            | Some _ => NotADirectoryError folder
            | None => FileNotFoundError folder
            end), w).
Proof.
  intros Hd. unfold VeoBatch.iterdir. rewrite bind_get_fs.
  by destruct (FS.node_at (fs w) folder) as [[c|]|].
Qed.

End listing_contents.

(** X7.  The frames of a variant folder are exactly the entries directly
    inside it whose suffix is an image suffix, regular files or not, each
    once and in sorted order.  A folder path that holds a regular file
    raises [NotADirectoryError]. *)
Theorem variant_frames_contents :
  ∀ (os_order : list Path → list Path) (folder : Path) (w : World),
    (∀ l : list Path, os_order l ≡ₚ l) →
    (FS.node_at (fs w) folder = Some FS.Dir →
     ∃ frames,
       VeoBatch.list_variant_frames os_order folder w = (Ok frames, w)
       ∧ Sorted PyPath.le frames
       ∧ NoDup frames
       ∧ ∀ p, p ∈ frames
              ↔ FS.is_child folder p = true
                ∧ is_Some (fs w !! p)
                ∧ PyPath.is_image p = true)
    ∧ (∀ c, FS.node_at (fs w) folder = Some (FS.File c) →
            VeoBatch.list_variant_frames os_order folder w
            = (Raise (NotADirectoryError folder), w)).
Proof.
  intros os_order folder w Hperm. split.
  - intros Hd. eexists. split; [by apply list_variant_frames_dir|].
    split; [apply Sorted_merge_sort; apply _|].
    split; [by apply sorted_filter_NoDup|].
    intros p. by apply elem_of_sorted_filter.
  - intros c Hc. unfold VeoBatch.list_variant_frames. apply bind_raise.
    rewrite iterdir_not_dir; by rewrite Hc.
Qed.

(** X7, witness: the frames of the first scene of the sample tree. *)
Lemma variant_frames_contents_witness :
  ∃ frames,
    VeoBatch.list_variant_frames reverse ["frames"; "s1"; "rain"]
      Sample.video_world
    = (Ok frames, Sample.video_world)
    ∧ Sorted PyPath.le frames
    ∧ NoDup frames
    ∧ ∀ p, p ∈ frames
           ↔ FS.is_child ["frames"; "s1"; "rain"] p = true
             ∧ is_Some (fs Sample.video_world !! p)
             ∧ PyPath.is_image p = true.
Proof.
  apply (proj1 (variant_frames_contents reverse ["frames"; "s1"; "rain"]
                  Sample.video_world reverse_Permutation)).
  vm_compute. reflexivity.
Defined.

(** X8.  The scene folders are exactly the directories directly inside the
    input root, each once and in sorted order.  A missing root gives no
    scene and no error; a root that is a regular file raises
    [NotADirectoryError]. *)
Theorem scene_folders_contents :
  ∀ (os_order : list Path → list Path) (root : Path) (w : World),
    (∀ l : list Path, os_order l ≡ₚ l) →
    (FS.exists_ (fs w) root = false →
     VeoBatch.group_folders os_order root w = (Ok [], w))
    ∧ (FS.node_at (fs w) root = Some FS.Dir →
       ∃ scenes,
         VeoBatch.group_folders os_order root w = (Ok scenes, w)
         ∧ Sorted PyPath.le scenes
         ∧ NoDup scenes
         ∧ ∀ p, p ∈ scenes
                ↔ FS.is_child root p = true
                  ∧ is_Some (fs w !! p)
                  ∧ FS.is_dir (fs w) p = true)
    ∧ (∀ c, FS.node_at (fs w) root = Some (FS.File c) →
            VeoBatch.group_folders os_order root w
            = (Raise (NotADirectoryError root), w)).
Proof.
  intros os_order root w Hperm. unfold VeoBatch.group_folders.
  rewrite bind_exists. split; [|split].
  - by intros ->.
  - intros Hd. unfold FS.exists_. rewrite Hd.
    unfold VeoBatch.iterdir. rewrite bind_assoc, bind_get_fs, Hd. mred.
    eexists. split; [reflexivity|].
    split; [apply Sorted_merge_sort; apply _|].
    split; [by apply sorted_filter_NoDup|].
    intros p. by rewrite (elem_of_sorted_filter _ Hperm (FS.is_dir (fs w))).
  - intros c Hc. unfold FS.exists_. rewrite Hc. apply bind_raise.
    rewrite iterdir_not_dir; by rewrite Hc.
Qed.

(** X8, witness: no scene for a root that does not exist. *)
Lemma scene_folders_contents_witness :
  VeoBatch.group_folders reverse ["nowhere"] Sample.video_world
  = (Ok [], Sample.video_world).
Proof.
  apply (proj1 (scene_folders_contents reverse ["nowhere"] Sample.video_world
                  reverse_Permutation)).
  vm_compute. reflexivity.
Defined.

(** ** Units that are passed over *)

(** X9.  The output name of an image keeps its directory and its stem but
    not its suffix: once an image has been processed, another image of the
    same directory with the same stem is passed over as already done, with
    no read, no provider call and no pause. *)
Theorem same_stem_passed_over :
  ∀ (gemini : nat → GenArgs → Exn + string) (cfg : PipelineConfig)
    (variant : VariantConfig) (prompt : string) (delay : Q)
    (img1 img2 rel1 rel2 : Path) (w w1 : World),
    PyPath.relative_to img1 (input_root cfg) = Some rel1 →
    PyPath.relative_to img2 (input_root cfg) = Some rel2 →
    PyPath.parent rel1 = PyPath.parent rel2 →
    PyPath.stem rel1 = PyPath.stem rel2 →
    Pipeline.process_image gemini cfg variant prompt delay img1 w = (Ok tt, w1) →
    Pipeline.process_image gemini cfg variant prompt delay img2 w1 = (Ok tt, w1).
Proof.
  intros * Hrel1 Hrel2 Hparent Hstem Hrun.
  apply process_image_replay.
  destruct (process_image_done _ _ _ _ _ _ _ _ (fs w1) Hrun) as (rel & Hrel & Hmk & Hex);
    [done|].
  assert (rel = rel1) as -> by congruence.
  exists rel2. split; [done|].
  unfold Pipeline.out_path_of, Pipeline.out_dir_of in *.
  rewrite <- Hparent, <- Hstem. by split.
Qed.

(** X9, witness: [a.jpg] after [a.png] in the sample tree. *)
Lemma same_stem_passed_over_witness :
  Pipeline.process_image Sample.gemini_ok (Sample.pipeline_cfg [Sample.rain])
    Sample.rain "sunny" (1 # 2) ["in"; "g"; "a.jpg"]
    (Pipeline.process_image Sample.gemini_ok (Sample.pipeline_cfg [Sample.rain])
       Sample.rain "sunny" (1 # 2) ["in"; "g"; "a.png"] Sample.one_image).2
  = (Ok tt,
     (Pipeline.process_image Sample.gemini_ok (Sample.pipeline_cfg [Sample.rain])
        Sample.rain "sunny" (1 # 2) ["in"; "g"; "a.png"] Sample.one_image).2).
Proof.
  apply (same_stem_passed_over Sample.gemini_ok
           (Sample.pipeline_cfg [Sample.rain]) Sample.rain "sunny" (1 # 2)
           ["in"; "g"; "a.png"] ["in"; "g"; "a.jpg"] ["g"; "a.png"]
           ["g"; "a.jpg"] Sample.one_image);
    vm_compute; reflexivity.
Defined.

Section variant_guard.
Variable float_of_str : string → option Q.
Variable int_of_str : string → option Z.
Variable reference_types : list string.
Variable yaml_safe_load : string → Exn + Yaml.t.
Variable veo_submit : nat → SubmitArgs → Exn + Veo.Operation.
Variable veo_poll : nat → Veo.Operation → Exn + Veo.Operation.
Variable http_get : nat → string → Exn + string.
Variable os_order : list Path → list Path.
Variables (fuel : nat) (environ : option string) (cfg : BatchConfig).
Variables (scene : Path) (variant : VideoVariant) (w : World).

Let folder := PyPath.joinpath scene (PyPath.of_string (v_name variant)).

Lemma process_variant_no_folder :
  FS.exists_ (fs w) folder = false →
  VeoBatch.process_variant float_of_str int_of_str reference_types
    yaml_safe_load veo_submit veo_poll http_get os_order fuel environ cfg
    scene variant w
  = (Ok tt, w).
Proof.
  intros H. unfold VeoBatch.process_variant, VeoBatch.process_variant_with.
  cbv zeta. fold folder. by rewrite bind_exists, H.
Qed.

Lemma process_variant_listing r w' :
  FS.exists_ (fs w) folder = true →
  VeoBatch.list_variant_frames os_order folder w = (r, w') →
  (∀ frames, r ≠ Ok (frames)) ∨ r = Ok [] →
  VeoBatch.process_variant float_of_str int_of_str reference_types
    yaml_safe_load veo_submit veo_poll http_get os_order fuel environ cfg
    scene variant w
  = (match r with Ok _ => Ok tt | Raise e => Raise e | Diverge => Diverge end,
     w').
Proof.
  intros Hex Hl Hr.
  unfold VeoBatch.process_variant, VeoBatch.process_variant_with.
  cbv zeta. fold folder. rewrite bind_exists, Hex. cbn [negb].
  destruct r as [frames|e|].
  - destruct Hr as [Hr|[= ->]]; [by destruct (Hr frames)|].
    by rewrite (bind_ok _ _ _ _ _ Hl).
  - by rewrite (bind_raise _ _ _ _ _ Hl).
  - by rewrite (bind_diverge _ _ _ _ Hl).
Qed.

End variant_guard.

(** X10.  A (scene, variant) pair without a variant folder, or whose folder
    holds no image entry, is passed over with the world as it was: no
    prompt load, no output directory, no job.  A regular file in the place
    of the variant folder stops the batch with [NotADirectoryError]. *)
Theorem variant_without_frames :
  ∀ float_of_str int_of_str reference_types yaml_safe_load veo_submit veo_poll
    http_get (os_order : list Path → list Path) fuel environ cfg scene variant
    (w : World),
    (∀ l : list Path, os_order l ≡ₚ l) →
    let folder := PyPath.joinpath scene (PyPath.of_string (v_name variant)) in
    let run :=
      VeoBatch.process_variant float_of_str int_of_str reference_types
        yaml_safe_load veo_submit veo_poll http_get os_order fuel environ cfg
        scene variant w in
    (FS.exists_ (fs w) folder = false → run = (Ok tt, w))
    ∧ (FS.node_at (fs w) folder = Some FS.Dir →
       (∀ p, FS.is_child folder p = true → is_Some (fs w !! p) →
             PyPath.is_image p = false) →
       run = (Ok tt, w))
    ∧ (∀ c, FS.node_at (fs w) folder = Some (FS.File c) →
            run = (Raise (NotADirectoryError folder), w)).
Proof.
  intros * Hperm folder run. unfold run. split; [|split].
  - apply process_variant_no_folder.
  - intros Hd Hnone.
    pose proof (list_variant_frames_dir os_order folder w Hd) as Hl.
    assert (Hnil : merge_sort PyPath.le
                     (filter (λ p, PyPath.is_image p)
                        (os_order (FS.children (fs w) folder))) = []).
    { destruct (merge_sort _ _) as [|p rest] eqn:Hm; [done|].
      assert (Hp : p ∈ merge_sort PyPath.le
                     (filter (λ p, PyPath.is_image p)
                        (os_order (FS.children (fs w) folder))))
        by (rewrite Hm; left).
      apply (elem_of_sorted_filter _ Hperm) in Hp as (Hc & Hs & Hi).
      by rewrite (Hnone p Hc Hs) in Hi. }
    rewrite Hnil in Hl.
    assert (Hex : FS.exists_ (fs w) folder = true)
      by (unfold FS.exists_; by rewrite Hd).
    exact (process_variant_listing float_of_str int_of_str reference_types
             yaml_safe_load veo_submit veo_poll http_get os_order fuel environ
             cfg scene variant w _ _ Hex Hl (or_intror eq_refl)).
  - intros c Hc.
    assert (Hl : VeoBatch.list_variant_frames os_order folder w
                 = (Raise (NotADirectoryError folder), w)).
    { unfold VeoBatch.list_variant_frames. apply bind_raise.
      rewrite iterdir_not_dir; by rewrite Hc. }
    assert (Hex : FS.exists_ (fs w) folder = true)
      by (unfold FS.exists_; by rewrite Hc).
    assert (Hr : (∀ frames : list Path,
                    Raise (NotADirectoryError folder) ≠ Ok frames)
                 ∨ Raise (NotADirectoryError folder) = Ok ([] : list Path))
      by (left; intros frames; discriminate).
    exact (process_variant_listing float_of_str int_of_str reference_types
             yaml_safe_load veo_submit veo_poll http_get os_order fuel environ
             cfg scene variant w _ _ Hex Hl Hr).
Qed.

(** X10, witness: a scene of the sample tree that has no folder at all. *)
Lemma variant_without_frames_witness :
  VeoBatch.process_variant (λ _, None) (λ _, None) Sample.reference_types
    Sample.yaml_loader Sample.veo_submit (Sample.veo_poll_after 2)
    Sample.http_none reverse 5 (Some "key"%string) Sample.batch_cfg
    ["frames"; "s3"] Sample.rain_video Sample.video_world
  = (Ok tt, Sample.video_world).
Proof.
  apply (proj1 (variant_without_frames (λ _, None) (λ _, None)
                  Sample.reference_types Sample.yaml_loader Sample.veo_submit
                  (Sample.veo_poll_after 2) Sample.http_none reverse 5
                  (Some "key"%string) Sample.batch_cfg ["frames"; "s3"]
                  Sample.rain_video Sample.video_world reverse_Permutation)).
  vm_compute. reflexivity.
Defined.

(** ** The job a variant is turned into *)

Section job_fields.
Variable float_of_str : string → option Q.
Variable int_of_str : string → option Z.
Variable reference_types : list string.
Variables (cfg : BatchConfig) (key_path : option Path) (scene : string).
Variables (variant : VideoVariant) (first : Path) (last : option Path).
Variables (text : string) (w : World).

Lemma construct_job_config_fields job w' :
  VeoBatch.construct_job_config float_of_str int_of_str reference_types cfg
    key_path scene variant first last text w = (Ok job, w') →
  ∃ use_last rt,
    VeoBatch.flag (v_use_last_frame variant) (b_defaults cfg)
      "use_last_frame" false = inr use_last
    ∧ ((if Yaml.truthy (v_reference_type variant)
        then mret (v_reference_type variant)
        else Yaml.get (b_defaults cfg) "reference_type" (Yaml.Str "ASSET"))
         ≫= VeoBatch.lookup_reference_type reference_types) = inr rt
    ∧ resolve_duration int_of_str (b_defaults cfg) variant
      = inr (Veo.duration_seconds job)
    ∧ VeoBatch.flag (v_use_first_frame_reference variant) (b_defaults cfg)
        "use_first_frame_reference" true
      = inr (Veo.use_first_frame_reference job)
    ∧ Veo.last_frame job = (if use_last : bool then last else None)
    ∧ Veo.use_last_frame job
      = use_last && match last with Some _ => true | None => false end
    ∧ Veo.reference_type job = rt
    ∧ Veo.prompt job = text
    ∧ Veo.negative_prompt job = None
    ∧ Veo.first_frame job = Some first.
Proof.
  unfold VeoBatch.construct_job_config.
  intros (d & w1 & [H1 ->]%lift_inv_ok & H)%bind_inv_ok.
  apply bind_inv_ok in H as (a & w2 & [H2 ->]%lift_inv_ok & H).
  apply bind_inv_ok in H as (r & w3 & [H3 ->]%lift_inv_ok & H).
  apply bind_inv_ok in H as (ps & w4 & [H4 ->]%lift_inv_ok & H).
  apply bind_inv_ok in H as (uf & w5 & [H5 ->]%lift_inv_ok & H).
  apply bind_inv_ok in H as (ul & w6 & [H6 ->]%lift_inv_ok & H).
  apply bind_inv_ok in H as (rt & w7 & [H7 ->]%lift_inv_ok & H).
  apply bind_inv_ok in H as ([] & w8 & Hmk & H).
  cbv [mret eff_ret ret] in H. injection H as <- _.
  exists ul, rt. cbn. repeat split; done.
Qed.

Lemma aspect_ratio_inr (a : Yaml.t) d :
  ∃ x, (if Yaml.truthy a then mret a
        else Yaml.get (Yaml.Map d) "aspect_ratio" Yaml.Null) = inr x.
Proof. destruct (Yaml.truthy a); eexists; reflexivity. Qed.

Lemma flag_inr (v : Yaml.t) d key dflt :
  ∃ b, VeoBatch.flag v (Yaml.Map d) key dflt = inr b.
Proof. destruct v; eexists; reflexivity. Qed.

Lemma construct_job_config_bad_reference s d z q :
  b_defaults cfg = Yaml.Map d →
  resolve_duration int_of_str (Yaml.Map d) variant = inr z →
  Yaml.get (Yaml.Map d) "poll_interval_seconds" (Yaml.Int 10)
    ≫= Yaml.to_float float_of_str = inr q →
  v_reference_type variant = Yaml.Str s →
  s ≠ EmptyString →
  PyStr.upper s ∉ reference_types →
  VeoBatch.construct_job_config float_of_str int_of_str reference_types cfg
    key_path scene variant first last text w
  = (Raise (KeyError (PyStr.upper s)), w).
Proof.
  intros Hd Hz Hq Hrt Hs Hmem.
  unfold VeoBatch.construct_job_config. cbv zeta. rewrite Hd, Hz.
  rewrite bind_lift_inr.
  destruct (aspect_ratio_inr (v_aspect_ratio variant) d) as [a ->].
  rewrite bind_lift_inr.
  match goal with
  | |- (lift ?x ≫= _) _ = _ =>
      assert (∃ v, x = inr v) as [r ->]
        by (destruct (v_resolution variant); eexists; reflexivity)
  end.
  rewrite bind_lift_inr, Hq, bind_lift_inr.
  destruct (flag_inr (v_use_first_frame_reference variant) d
              "use_first_frame_reference" true) as [uf ->].
  rewrite bind_lift_inr.
  destruct (flag_inr (v_use_last_frame variant) d "use_last_frame" false)
    as [ul ->].
  rewrite bind_lift_inr, Hrt. cbn [Yaml.truthy].
  apply String.eqb_neq in Hs. rewrite Hs. cbn [negb].
  change (mret (Yaml.Str s) ≫= VeoBatch.lookup_reference_type reference_types)
    with (VeoBatch.lookup_reference_type reference_types (Yaml.Str s)).
  cbn [VeoBatch.lookup_reference_type].
  by rewrite (bool_decide_eq_false_2 _ Hmem).
Qed.

End job_fields.

(** X11.  A variant whose reference type names no member of the SDK's
    enumeration stops the unit with a [KeyError] on the upper-cased name
    before the output directory is made: the world is as it was. *)
Theorem unknown_reference_type_raises :
  ∀ float_of_str int_of_str (reference_types : list string) cfg key_path scene
    variant first last text (w : World) (s : string) d z q,
    b_defaults cfg = Yaml.Map d →
    resolve_duration int_of_str (Yaml.Map d) variant = inr z →
    Yaml.get (Yaml.Map d) "poll_interval_seconds" (Yaml.Int 10)
      ≫= Yaml.to_float float_of_str = inr q →
    v_reference_type variant = Yaml.Str s →
    s ≠ EmptyString →
    PyStr.upper s ∉ reference_types →
    VeoBatch.construct_job_config float_of_str int_of_str reference_types cfg
      key_path scene variant first last text w
    = (Raise (KeyError (PyStr.upper s)), w).
Proof. intros *. apply construct_job_config_bad_reference. Qed.

(** X11, witness: the reference type [bogus] in the sample batch. *)
Lemma unknown_reference_type_raises_witness :
  VeoBatch.construct_job_config (λ _, None) (λ _, None) Sample.reference_types
    Sample.batch_cfg None "s1"
    {| v_name := "rain"; v_prompt_path := ["p.yaml"];
       v_duration_seconds := Yaml.Null; v_aspect_ratio := Yaml.Null;
       v_resolution := Yaml.Null; v_use_first_frame_reference := Yaml.Null;
       v_use_last_frame := Yaml.Null; v_reference_type := Yaml.Str "bogus" |}
    ["frames"; "s1"; "rain"; "0000.png"] None "sunny" Sample.video_world
  = (Raise (KeyError "BOGUS"), Sample.video_world).
Proof.
  apply (unknown_reference_type_raises (λ _, None) (λ _, None)
           Sample.reference_types Sample.batch_cfg None "s1" _
           ["frames"; "s1"; "rain"; "0000.png"] None "sunny" Sample.video_world
           "bogus" ∅ 6%Z 10%Q);
    try (vm_compute; reflexivity).
  - discriminate.
  - vm_compute. intros H. repeat (apply elem_of_cons in H as [H|H]; [discriminate|]).
    by apply elem_of_nil in H.
Defined.

(** X12.  What a batch job sends when neither the variant nor the defaults
    set the frame flags: the first frame is the image and the only
    reference image, no last frame is sent although one was picked, and
    the negative text travels inside the prompt, never in the field for a
    negative prompt. *)
Theorem default_submission :
  ∀ float_of_str int_of_str (reference_types : list string) cfg key_path scene
    variant first last text (w w' : World) job d,
    VeoBatch.construct_job_config float_of_str int_of_str reference_types cfg
      key_path scene variant first (Some last) text w = (Ok job, w') →
    b_defaults cfg = Yaml.Map d →
    v_use_first_frame_reference variant = Yaml.Null →
    d !! "use_first_frame_reference" = None →
    v_use_last_frame variant = Yaml.Null →
    d !! "use_last_frame" = None →
    Veo.last_frame job = None
    ∧ ∀ first_bytes last_bytes,
        let args := Veo.build_submit_args job (Some first_bytes) last_bytes in
        s_prompt args = text
        ∧ s_image args = Some first_bytes
        ∧ s_reference_images args = [(first_bytes, Veo.reference_type job)]
        ∧ s_last_frame args = None
        ∧ s_negative_prompt args = None.
Proof.
  intros * Hjob Hd Huf Hdf Hul Hdl.
  destruct (construct_job_config_fields _ _ _ _ _ _ _ _ _ _ _ _ _ Hjob)
    as (ul & rt & Hflag & _ & _ & Hfirst & Hlast & Hul' & _ & Hp & Hn & _).
  rewrite Hd, Hul in Hflag. cbn in Hflag. rewrite Hdl in Hflag.
  cbn in Hflag. injection Hflag as <-.
  rewrite Hd, Huf in Hfirst. cbn in Hfirst. rewrite Hdf in Hfirst.
  cbn in Hfirst. injection Hfirst as Hfirst.
  split; [done|]. intros fb lb args. unfold args, Veo.build_submit_args.
  cbn. rewrite Hp, Hn, <- Hfirst, Hul'. done.
Qed.

(** X12, witness: the job of the first scene of the sample batch. *)
Lemma default_submission_witness :
  ∃ job w',
    VeoBatch.construct_job_config (λ _, None) (λ _, None) Sample.reference_types
      Sample.batch_cfg None "s1" Sample.rain_video
      ["frames"; "s1"; "rain"; "0000.png"]
      (Some ["frames"; "s1"; "rain"; "0008.png"]) "sunny" Sample.video_world
    = (Ok job, w')
    ∧ Veo.last_frame job = None
    ∧ s_last_frame (Veo.build_submit_args job (Some "F0"%string)
                      (Some "F8"%string)) = None.
Proof.
  eexists _, _. split; [vm_compute; reflexivity|].
  match goal with
  | |- Veo.last_frame ?job = None ∧ _ =>
      destruct (default_submission (λ _, None) (λ _, None)
                  Sample.reference_types Sample.batch_cfg None "s1"
                  Sample.rain_video ["frames"; "s1"; "rain"; "0000.png"]
                  ["frames"; "s1"; "rain"; "0008.png"] "sunny"
                  Sample.video_world _ job ∅ ltac:(vm_compute; reflexivity)
                  eq_refl eq_refl ltac:(vm_compute; reflexivity) eq_refl
                  ltac:(vm_compute; reflexivity))
        as [Hlast Hargs]
  end.
  split; [exact Hlast|].
  exact (proj1 (proj2 (proj2 (proj2 (Hargs "F0"%string (Some "F8"%string)))))).
Defined.

(** ** The end of a video job *)

Section job_end.
Variable environ_api_key : option string.
Variable veo_submit : nat → SubmitArgs → Exn + Veo.Operation.
Variable veo_poll : nat → Veo.Operation → Exn + Veo.Operation.
Variable http_get : nat → string → Exn + string.
Variables (fuel : nat) (cfg : Veo.VideoJobConfig).
Variables (w w1 w2 : World) (k : string) (fb lb : option string).
Variables (op0 op : Veo.Operation).

Hypothesis key_resolved :
  Veo.resolve_api_key environ_api_key (Veo.api_key_path cfg) w = (Ok k, w).
Hypothesis first_read : Veo.read_frame (Veo.first_frame cfg) w = (Ok fb, w).
Hypothesis last_read : Veo.read_frame (Veo.last_frame cfg) w = (Ok lb, w).
Hypothesis submitted :
  Veo.generate_videos veo_submit (Veo.build_submit_args cfg fb lb) w
  = (Ok op0, w1).
Hypothesis polled :
  Veo.poll_loop veo_poll fuel (Veo.poll_interval_seconds cfg) op0 w1
  = (Ok op, w2).

(** The job from the point where polling has ended. *)
Lemma run_generation_end :
  Veo.run_generation environ_api_key veo_submit veo_poll http_get fuel cfg w
  = match Veo.error op with
    | Some detail =>
        (Raise (RuntimeError ("Video generation failed: " +:+ detail)), w2)
    | None =>
        match Veo.result op with
        | None | Some [] =>
            (Raise (RuntimeError "No video content returned from operation"),
             w2)
        | Some (generated :: _) =>
            match Veo.nonempty (Veo.video_bytes generated) with
            | Some data => Veo.save cfg data w2
            | None =>
                match Veo.nonempty (Veo.uri generated) with
                | Some u =>
                    (_ ← mkdir_parents (PyPath.parent (Veo.output_path cfg));
                     content ← Veo.requests_get http_get u;
                     _ ← write_bytes (Veo.output_path cfg) content;
                     mret (Veo.output_path cfg)) w2
                | None =>
                    (Raise (RuntimeError "Video response missing data and URI"),
                     w2)
                end
            end
        end
    end.
Proof.
  unfold Veo.run_generation.
  rewrite (bind_ok _ _ _ _ _ key_resolved), (bind_ok _ _ _ _ _ first_read),
    (bind_ok _ _ _ _ _ last_read), (bind_ok _ _ _ _ _ submitted),
    (bind_ok _ _ _ _ _ polled).
  destruct (Veo.error op); [done|].
  destruct (Veo.result op) as [[|generated rest]|]; try done.
  destruct (Veo.nonempty (Veo.video_bytes generated)); [done|].
  by destruct (Veo.nonempty (Veo.uri generated)).
Qed.

Lemma job_end_fs : fs w2 = fs w.
Proof.
  rewrite (keeps_poll_loop _ _ _ _ _ _ _ polled).
  by rewrite (keeps_generate_videos _ _ _ _ _ submitted).
Qed.

Lemma job_end_fetches :
  count is_fetch (trace w2) = count is_fetch (trace w).
Proof.
  etrans.
  - eapply (emits_count (λ e, is_poll e || Pacing.is_sleep e) is_fetch);
      [| |exact polled].
    + by apply emits_poll_loop.
    + by intros [].
  - unfold Veo.generate_videos in submitted.
    rewrite bind_get_trace, bind_emit in submitted.
    destruct (veo_submit _ _); injection submitted as _ <-;
      cbn [trace]; by rewrite count_snoc.
Qed.

End job_end.

(** X13.  A job whose operation ends with an error, without a video, or
    with a first video that has neither bytes nor a URI raises a
    [RuntimeError]; nothing is written or created, and nothing is
    downloaded. *)
Theorem failed_operation_writes_nothing :
  ∀ environ_api_key veo_submit veo_poll http_get fuel cfg (w w1 w2 : World)
    k fb lb op0 op,
    Veo.resolve_api_key environ_api_key (Veo.api_key_path cfg) w = (Ok k, w) →
    Veo.read_frame (Veo.first_frame cfg) w = (Ok fb, w) →
    Veo.read_frame (Veo.last_frame cfg) w = (Ok lb, w) →
    Veo.generate_videos veo_submit (Veo.build_submit_args cfg fb lb) w
    = (Ok op0, w1) →
    Veo.poll_loop veo_poll fuel (Veo.poll_interval_seconds cfg) op0 w1
    = (Ok op, w2) →
    let run :=
      Veo.run_generation environ_api_key veo_submit veo_poll http_get fuel cfg w
    in
    fs w2 = fs w
    ∧ count is_fetch (trace w2) = count is_fetch (trace w)
    ∧ (∀ detail, Veo.error op = Some detail →
         run = (Raise (RuntimeError ("Video generation failed: " +:+ detail)),
                w2))
    ∧ (Veo.error op = None →
       Veo.result op = None ∨ Veo.result op = Some [] →
       run = (Raise (RuntimeError "No video content returned from operation"),
              w2))
    ∧ (∀ generated rest,
         Veo.error op = None →
         Veo.result op = Some (generated :: rest) →
         Veo.nonempty (Veo.video_bytes generated) = None →
         Veo.nonempty (Veo.uri generated) = None →
         run = (Raise (RuntimeError "Video response missing data and URI"),
                w2)).
Proof.
  intros * Hk Hf Hl Hs Hp run. unfold run.
  rewrite (run_generation_end _ _ _ http_get _ _ _ _ _ _ _ _ _ _ Hk Hf Hl Hs Hp).
  split; [by eapply job_end_fs|].
  split; [by eapply job_end_fetches|].
  split; [by intros detail ->|].
  split.
  - intros -> [-> | ->]; done.
  - intros generated rest -> -> -> ->. done.
Qed.

(** X13, witness: an operation that is done with an error. *)
Lemma failed_operation_writes_nothing_witness :
  Veo.run_generation (Some "key"%string)
    (λ _ _, inr {| Veo.op_name := "operations/1"; Veo.done := true;
                   Veo.error := Some "quota"%string; Veo.result := None |})
    (Sample.veo_poll_after 2) Sample.http_none 5 Sample.video_job
    Sample.video_world
  = (Raise (RuntimeError "Video generation failed: quota"),
     {| fs := fs Sample.video_world;
        trace := [EvSubmit (Veo.build_submit_args Sample.video_job
                              (Some "F0"%string) None)] |}).
Proof.
  refine (proj1 (proj2 (proj2
            (failed_operation_writes_nothing (Some "key"%string)
               (λ _ _, inr {| Veo.op_name := "operations/1"; Veo.done := true;
                              Veo.error := Some "quota"%string;
                              Veo.result := None |})
               (Sample.veo_poll_after 2) Sample.http_none 5 Sample.video_job
               Sample.video_world _ _ "key" (Some "F0"%string) None _ _
               _ _ _ _ _))) "quota"%string _);
    vm_compute; reflexivity.
Defined.

(** X14.  How a finished job stores its video.  Inline bytes are written
    with no download, also when the video names a URI.  Without inline
    bytes the URI is fetched once, after the output directory is made: the
    fetched content is written, and a failed fetch leaves the directory but
    no file.  A regular file already at the output path is replaced. *)
Theorem finished_operation_stored :
  ∀ environ_api_key veo_submit veo_poll http_get fuel cfg (w w1 w2 : World)
    k fb lb op0 op generated rest fs1,
    Veo.resolve_api_key environ_api_key (Veo.api_key_path cfg) w = (Ok k, w) →
    Veo.read_frame (Veo.first_frame cfg) w = (Ok fb, w) →
    Veo.read_frame (Veo.last_frame cfg) w = (Ok lb, w) →
    Veo.generate_videos veo_submit (Veo.build_submit_args cfg fb lb) w
    = (Ok op0, w1) →
    Veo.poll_loop veo_poll fuel (Veo.poll_interval_seconds cfg) op0 w1
    = (Ok op, w2) →
    Veo.error op = None →
    Veo.result op = Some (generated :: rest) →
    FS.mkdir_parents (fs w) (PyPath.parent (Veo.output_path cfg)) = inr fs1 →
    let out := Veo.output_path cfg in
    let run :=
      Veo.run_generation environ_api_key veo_submit veo_poll http_get fuel cfg w
    in
    (∀ data fs2,
        Veo.nonempty (Veo.video_bytes generated) = Some data →
        FS.write_bytes fs1 out data = inr fs2 →
        run = (Ok out, {| fs := fs2; trace := trace w2 |})
        ∧ FS.read_bytes fs2 out = inr data)
    ∧ (∀ u content fs2,
          Veo.nonempty (Veo.video_bytes generated) = None →
          Veo.nonempty (Veo.uri generated) = Some u →
          http_get (count is_fetch (trace w)) u = inr content →
          FS.write_bytes fs1 out content = inr fs2 →
          run = (Ok out, {| fs := fs2; trace := trace w2 ++ [EvFetch u] |})
          ∧ FS.read_bytes fs2 out = inr content)
    ∧ (∀ u e,
          Veo.nonempty (Veo.video_bytes generated) = None →
          Veo.nonempty (Veo.uri generated) = Some u →
          http_get (count is_fetch (trace w)) u = inl e →
          run = (Raise e, {| fs := fs1; trace := trace w2 ++ [EvFetch u] |}))
    ∧ (∀ old data,
          FS.node_at fs1 out = Some (FS.File old) →
          FS.node_at fs1 (PyPath.parent out) = Some FS.Dir →
          ∃ fs2, FS.write_bytes fs1 out data = inr fs2).
Proof.
  intros * Hk Hf Hl Hs Hp He Hres Hmk out run. unfold run, out.
  rewrite (run_generation_end _ _ _ http_get _ _ _ _ _ _ _ _ _ _ Hk Hf Hl Hs Hp).
  rewrite He, Hres.
  assert (Hfs : fs w2 = fs w) by (eapply job_end_fs; [exact Hs|exact Hp]).
  assert (Hcount : count is_fetch (trace w2) = count is_fetch (trace w))
    by (eapply job_end_fetches; [exact Hs|exact Hp]).
  rewrite <- Hfs in Hmk.
  assert (Hread : ∀ data fs2,
            FS.write_bytes fs1 (Veo.output_path cfg) data = inr fs2 →
            FS.read_bytes fs2 (Veo.output_path cfg) = inr data).
  { intros data fs2 Hw. unfold FS.read_bytes.
    pose proof (write_bytes_is_file _ _ _ _ Hw) as Hn. by rewrite Hn. }
  split; [|split; [|split]].
  - intros data fs2 -> Hw. split; [|by eapply Hread].
    unfold Veo.save. rewrite (bind_mkdir_ok _ _ _ _ Hmk).
    unfold write_bytes, update_fs, mbind, eff_bind, bind. cbn [fs trace].
    by rewrite Hw.
  - intros u content fs2 -> -> Hget Hw. split; [|by eapply Hread].
    rewrite (bind_mkdir_ok _ _ _ _ Hmk). unfold Veo.requests_get.
    mred. rewrite Hcount, Hget. mred.
    unfold write_bytes, update_fs, mbind, eff_bind, bind. cbn [fs trace].
    by rewrite Hw.
  - intros u e -> -> Hget.
    rewrite (bind_mkdir_ok _ _ _ _ Hmk). unfold Veo.requests_get.
    mred. by rewrite Hcount, Hget.
  - intros old data Hn Hd. unfold FS.write_bytes. rewrite Hd, Hn. by eexists.
Qed.

(** ** The poller *)

Section poller.
Variable veo_poll : nat → Veo.Operation → Exn + Veo.Operation.




End poller.



(** X14, witness: a job without frames whose video is given by a URI, with
    a download that fails. *)
Lemma finished_operation_stored_witness :
  Veo.run_generation (Some "key"%string) (λ _ _, inr Cases.finished_by_uri)
    (Sample.veo_poll_after 2) Sample.http_none 5 Cases.plain_job
    {| fs := ∅; trace := [] |}
  = (Raise (External "unreachable"),
     {| fs := ∅;
        trace := [EvSubmit (Veo.build_submit_args Cases.plain_job None None)]
                   ++ [EvFetch "https://v/1"] |}).
Proof.
  refine (proj1 (proj2 (proj2
            (finished_operation_stored (Some "key"%string)
               (λ _ _, inr Cases.finished_by_uri)
               (Sample.veo_poll_after 2) Sample.http_none 5 Cases.plain_job
               {| fs := ∅; trace := [] |}
               {| fs := ∅;
                  trace := [EvSubmit (Veo.build_submit_args Cases.plain_job
                                        None None)] |}
               {| fs := ∅;
                  trace := [EvSubmit (Veo.build_submit_args Cases.plain_job
                                        None None)] |}
               "key" None None Cases.finished_by_uri Cases.finished_by_uri
               {| Veo.video_bytes := None;
                  Veo.uri := Some "https://v/1"%string |} [] ∅
               _ _ _ _ _ _ _ _)))
            "https://v/1"%string (External "unreachable") _ _ _).
  all: reflexivity.
Defined.

(** ** The folder script *)

Lemma for_count {A} (P : Event → bool) (l : list A) (body : A → M unit) n :
  (∀ x w w', body x w = (Ok tt, w') →
             count P (trace w') = count P (trace w) + n) →
  ∀ w w', for_ l body w = (Ok tt, w') →
          count P (trace w') = count P (trace w) + n * length l.
Proof.
  intros Hb. induction l as [|x l IH]; intros w w' H.
  - simpl in H. cbv [ret] in H. injection H as <-. simpl. lia.
  - simpl in H. apply bind_inv_ok in H as ([] & w1 & Hx & Hl).
    rewrite (IH _ _ Hl), (Hb _ _ _ Hx). simpl. lia.
Qed.

Section pairs_units.
Variable yaml_safe_load : string → Exn + Yaml.t.
Variable gemini : nat → GenArgs → Exn + string.
Variable os_order : list Path → list Path.
Variables (cfg : AppConfig).

Lemma pairs_process_image_run variant prompt_text out_base img w raw :
  FS.read_bytes (fs w) img = inr raw →
  let request := Pairs.request_of cfg variant prompt_text raw in
  let out := Pairs.out_path_of out_base img (name variant) in
  let w1 := {| fs := fs w; trace := trace w ++ [EvGenerate request] |} in
  Pairs.process_image gemini cfg variant prompt_text out_base img w
  = match gemini (count is_generate (trace w)) request with
    | inl e => (Raise e, w1)
    | inr data =>
        match FS.write_bytes (fs w) out data with
        | inl e => (Raise e, w1)
        | inr fs' =>
            (Ok tt, {| fs := fs'; trace := trace w ++ [EvGenerate request] |})
        end
    end.
Proof.
  intros Hr request out w1. unfold Pairs.process_image, read_bytes.
  mred. rewrite Hr. mred. unfold Pipeline.call_gemini_edit. mred.
  fold request.
  destruct (gemini (count is_generate (trace w)) request) as [e|data];
    [done|].
  mred. unfold write_bytes, update_fs, mbind, eff_bind, bind. cbn [fs trace].
  fold out. by destruct (FS.write_bytes (fs w) out data).
Qed.

Lemma pairs_process_image_ok variant prompt_text out_base img w w' :
  Pairs.process_image gemini cfg variant prompt_text out_base img w
  = (Ok tt, w') →
  ∃ raw data,
    FS.read_bytes (fs w) img = inr raw
    ∧ gemini (count is_generate (trace w))
        (Pairs.request_of cfg variant prompt_text raw) = inr data
    ∧ FS.write_bytes (fs w) (Pairs.out_path_of out_base img (name variant)) data
      = inr (fs w')
    ∧ trace w'
      = trace w ++ [EvGenerate (Pairs.request_of cfg variant prompt_text raw)].
Proof.
  intros H.
  destruct (FS.read_bytes (fs w) img) as [e|raw] eqn:Hr.
  { unfold Pairs.process_image, read_bytes in H.
    rewrite bind_assoc, bind_get_fs, Hr in H. done. }
  rewrite (pairs_process_image_run _ _ _ _ _ _ Hr) in H.
  exists raw.
  destruct (gemini _ _) as [e|data]; [done|]. exists data.
  destruct (FS.write_bytes _ _ _) as [e|fs'] eqn:Hw; [done|].
  injection H as <-. by repeat split.
Qed.

Lemma pairs_process_variant_calls folder images cache variant w cache' w' :
  Pairs.process_variant yaml_safe_load gemini cfg folder images cache variant w
  = (Ok cache', w') →
  count is_generate (trace w')
  = count is_generate (trace w) + length images.
Proof.
  unfold Pairs.process_variant.
  intros ([t c] & w1 & Hget & H)%bind_inv_ok. cbv zeta in H.
  apply bind_inv_ok in H as ([] & w2 & Hmk & H).
  apply mkdir_parents_inv_ok in Hmk as (fs' & _ & ->).
  apply bind_inv_ok in H as ([] & w3 & Hloop & H).
  cbv [mret eff_ret ret] in H. injection H as _ <-.
  rewrite (for_count is_generate images _ 1 ltac:(
             intros x wa wb (raw & data & _ & _ & _ & ->)%pairs_process_image_ok;
             by rewrite count_snoc) _ _ Hloop).
  cbn [trace].
  destruct (get_template_loads _ _ _ _ _ _ Hget) as [(_ & -> & _)|(_ & -> & _)];
    rewrite ?count_snoc; cbn [is_generate]; lia.
Qed.

Lemma pairs_variants_loop_calls folder images vs cache w cache' w' :
  Pairs.variants_loop yaml_safe_load gemini cfg folder images cache vs w
  = (Ok cache', w') →
  count is_generate (trace w')
  = count is_generate (trace w) + length vs * length images.
Proof.
  revert cache w. induction vs as [|v rest IH]; intros cache w H.
  - simpl in H. cbv [mret eff_ret ret] in H. injection H as _ <-. simpl. lia.
  - simpl in H. apply bind_inv_ok in H as (c & w1 & Hv & Hrest).
    rewrite (IH _ _ Hrest), (pairs_process_variant_calls _ _ _ _ _ _ _ Hv).
    simpl. lia.
Qed.

End pairs_units.

(** X16.  The folder script has neither an output check nor a retry: a
    folder that is processed to the end costs exactly one provider call
    for each pair of a variant and an image entry, whatever outputs exist
    already; a folder without image entries is left at once, with no
    prompt load and no directory made. *)
Theorem pairs_one_call_per_pair :
  ∀ yaml_safe_load gemini (os_order : list Path → list Path) cfg folder cache
    (w w' : World) cache' images,
    Pairs.list_images os_order folder w = (Ok images, w) →
    Pairs.process_folder yaml_safe_load gemini os_order cfg folder cache w
    = (Ok cache', w') →
    count is_generate (trace w')
    = count is_generate (trace w) + length (app_variants cfg) * length images
    ∧ (images = [] → w' = w ∧ cache' = cache).
Proof.
  intros * Hl Hrun. unfold Pairs.process_folder in Hrun.
  rewrite (bind_ok _ _ _ _ _ Hl) in Hrun.
  destruct images as [|img rest].
  - cbv [mret eff_ret ret] in Hrun. injection Hrun as <- <-.
    split; [simpl; lia|done].
  - split; [|done]. by eapply pairs_variants_loop_calls.
Qed.

(** X16, witness: a group with one image entry under two variants. *)
Lemma pairs_one_call_per_pair_witness :
  count is_generate
    (trace (Pairs.process_folder Sample.yaml_loader Sample.gemini_ok reverse
              Cases.app_cfg ["g"] ∅ Cases.small_world).2)
  = 2.
Proof.
  refine (proj1 (pairs_one_call_per_pair Sample.yaml_loader Sample.gemini_ok
                   reverse Cases.app_cfg ["g"] ∅ Cases.small_world _
                   {[ ["p.yaml"] := {| Pipeline.positive := "sunny";
                                       Pipeline.negative := "dark" |} ]}
                   [ ["g"; "a.png"] ] _ _));
    vm_compute; reflexivity.
Defined.

(** X17.  A unit of the folder script makes one provider call and no more:
    a failure of the call is raised at once, with no pause and no second
    attempt, and an answer is written to the output path, where it
    replaces a regular file that is there already. *)
Theorem pairs_unit_overwrites :
  ∀ (gemini : nat → GenArgs → Exn + string) cfg variant prompt_text out_base
    img (w : World) raw,
    FS.read_bytes (fs w) img = inr raw →
    let request := Pairs.request_of cfg variant prompt_text raw in
    let out := Pairs.out_path_of out_base img (name variant) in
    let run := Pairs.process_image gemini cfg variant prompt_text out_base img w in
    (∀ e, gemini (count is_generate (trace w)) request = inl e →
          run = (Raise e,
                 {| fs := fs w; trace := trace w ++ [EvGenerate request] |}))
    ∧ (∀ data fs',
          gemini (count is_generate (trace w)) request = inr data →
          FS.write_bytes (fs w) out data = inr fs' →
          run = (Ok tt, {| fs := fs'; trace := trace w ++ [EvGenerate request] |})
          ∧ FS.read_bytes fs' out = inr data)
    ∧ (∀ old data,
          FS.node_at (fs w) out = Some (FS.File old) →
          FS.node_at (fs w) (PyPath.parent out) = Some FS.Dir →
          ∃ fs', FS.write_bytes (fs w) out data = inr fs').
Proof.
  intros * Hr request out run. unfold run.
  rewrite (pairs_process_image_run _ _ _ _ _ _ _ _ Hr).
  fold request. fold out. split; [|split].
  - by intros e ->.
  - intros data fs' -> Hw. rewrite Hw. split; [done|].
    unfold FS.read_bytes. by rewrite (write_bytes_is_file _ _ _ _ Hw).
  - intros old data Hn Hd. unfold FS.write_bytes. rewrite Hd, Hn. by eexists.
Qed.

(** X17, witness: the output left by an earlier run is replaced. *)
Lemma pairs_unit_overwrites_witness :
  FS.read_bytes
    (fs (Pairs.process_image Sample.gemini_ok Cases.app_cfg Sample.rain "sunny"
           [] ["a.png"] Cases.done_world).2)
    ["a_rain.png"]
  = inr "PNG"%string.
Proof.
  assert (Hr : FS.read_bytes (fs Cases.done_world) ["a.png"] = inr "A"%string)
    by (vm_compute; reflexivity).
  assert (Hw : FS.write_bytes (fs Cases.done_world)
                 (Pairs.out_path_of [] ["a.png"] (name Sample.rain)) "PNG"
               = inr (match FS.write_bytes (fs Cases.done_world)
                              ["a_rain.png"] "PNG" with
                      | inr f => f
                      | inl _ => ∅
                      end))
    by (vm_compute; reflexivity).
  destruct (proj1 (proj2
              (pairs_unit_overwrites Sample.gemini_ok Cases.app_cfg Sample.rain
                 "sunny" [] ["a.png"] Cases.done_world "A" Hr))
              "PNG"%string _ eq_refl Hw)
    as [Hrun Hread].
  rewrite Hrun. exact Hread.
Defined.

(** ** Entries that are there stay *)

Section never_shrinks_rules.
Import Safety.
Context {A B : Type}.

Lemma ns_keeps (m : M A) : keeps_fs m → never_shrinks m.
Proof. intros H w r w' Hm. by rewrite (H _ _ _ Hm). Qed.

Lemma ns_bind (m : M A) (k : A → M B) :
  never_shrinks m → (∀ a, never_shrinks (k a)) → never_shrinks (m ≫= k).
Proof.
  intros Hm Hk w r w' H.
  apply bind_inv in H as [(a & w1 & H1 & H2)|[(e & H1 & _)|[H1 _]]];
    [|by eapply Hm..].
  etrans; [by eapply Hm|by eapply Hk].
Qed.

(** A step that is taken only when nothing exists at [p]. *)
Lemma ns_guarded p (skip m : M A) :
  never_shrinks skip →
  (∀ w r w', FS.exists_ (fs w) p = false → m w = (r, w') → fs w ⊆ fs w') →
  never_shrinks (ex ← exists_ p; if ex : bool then skip else m).
Proof.
  intros Hs Hm w r w' H. rewrite bind_exists in H.
  destruct (FS.exists_ (fs w) p) eqn:Hex; [by eapply Hs|by eapply Hm].
Qed.

End never_shrinks_rules.

Section never_shrinks_more.
Import Safety.

Lemma ns_ret {A} (a : A) : never_shrinks (mret a).
Proof. apply ns_keeps, keeps_ret. Qed.

Lemma ns_for {A} (l : list A) (body : A → M unit) :
  (∀ x, never_shrinks (body x)) → never_shrinks (for_ l body).
Proof.
  intros Hb. induction l as [|x l IH]; simpl; [apply (ns_ret tt)|].
  apply ns_bind; [apply Hb|]. by intros _.
Qed.

Lemma update_fs_inv op w r w' :
  update_fs op w = (r, w') →
  (∃ fs', op (fs w) = inr fs' ∧ r = Ok tt
          ∧ w' = {| fs := fs'; trace := trace w |})
  ∨ (∃ e, op (fs w) = inl e ∧ r = Raise e ∧ w' = w).
Proof.
  unfold update_fs. destruct (op (fs w)) as [e|fs'] eqn:Hop.
  - intros [= <- <-]. right. by exists e.
  - intros [= <- <-]. left. by exists fs'.
Qed.

Lemma ns_mkdir_parents p : never_shrinks (mkdir_parents p).
Proof.
  intros w r w' H. unfold mkdir_parents in H.
  apply update_fs_inv in H as [(fs' & Hmk & _ & ->)|(e & _ & _ & ->)];
    [|done].
  by apply mkdir_parents_subseteq in Hmk.
Qed.

(** A write at a path where nothing is. *)
Lemma write_fresh_never_shrinks p data w r w' :
  FS.node_at (fs w) p = None →
  write_bytes p data w = (r, w') → fs w ⊆ fs w'.
Proof.
  intros Hn H. unfold write_bytes in H.
  apply update_fs_inv in H as [(fs' & Hw & _ & ->)|(e & _ & _ & ->)];
    [|done].
  by eapply write_bytes_fresh_subseteq.
Qed.

End never_shrinks_more.

Section pipeline_never_shrinks.
Import Safety.
Variable environ_api_key : option string.
Variable yaml_safe_load : string → Exn + Yaml.t.
Variable gemini : nat → GenArgs → Exn + string.
Variable os_order : list Path → list Path.
Variable cfg : PipelineConfig.

Lemma ns_process_image variant prompt delay img :
  never_shrinks (Pipeline.process_image gemini cfg variant prompt delay img).
Proof.
  unfold Pipeline.process_image.
  apply ns_bind; [apply ns_keeps, keeps_lift|]. intros rel.
  apply ns_bind; [apply ns_mkdir_parents|]. intros _.
  apply ns_guarded; [apply (ns_ret tt)|].
  intros w r w' Hex%exists_false_none H.
  apply bind_inv in H as [(bytes & w1 & H1 & H)|[(e & H1 & _)|[H1 _]]];
    [|by rewrite (keeps_read_bytes _ _ _ _ H1)..].
  pose proof (keeps_read_bytes _ _ _ _ H1) as Hfs1.
  apply bind_inv in H as [([] & w2 & H2 & H)|[(e & H2 & _)|[H2 _]]].
  - pose proof (keeps_sleep _ _ _ _ H : fs w' = fs w2) as ->.
    rewrite <- Hfs1.
    apply attempt_loop_result in H2 as [[_ [data Hw]]|[-> _]]; [|done].
    eapply write_bytes_fresh_subseteq; [|exact Hw]. by rewrite Hfs1.
  - rewrite <- Hfs1.
    apply attempt_loop_result in H2 as [[_ [data Hw]]|[-> _]]; [|done].
    eapply write_bytes_fresh_subseteq; [|exact Hw]. by rewrite Hfs1.
  - rewrite <- Hfs1.
    apply attempt_loop_result in H2 as [[_ [data Hw]]|[-> _]]; [|done].
    eapply write_bytes_fresh_subseteq; [|exact Hw]. by rewrite Hfs1.
Qed.

Lemma ns_variants_loop delay cache vs :
  never_shrinks
    (Pipeline.variants_loop yaml_safe_load gemini os_order cfg delay cache vs).
Proof.
  revert cache. induction vs as [|v rest IH]; intros cache; simpl.
  - apply (ns_ret tt).
  - apply ns_bind; [apply ns_keeps, keeps_get_template|].
    intros [t cache']. apply ns_bind; [|intros _; apply IH].
    unfold Pipeline.images_loop. apply ns_bind.
    + apply ns_keeps. unfold Pipeline.rglob_sorted. frame.
    + intros listing. apply ns_for. intros path.
      unfold Pipeline.image_step. apply ns_bind; [apply ns_keeps, keeps_get_fs|].
      intros fs0. destruct (_ && _); [apply ns_process_image|apply (ns_ret tt)].
Qed.

Lemma ns_process_images qps :
  never_shrinks
    (Pipeline.process_images environ_api_key yaml_safe_load gemini os_order
       cfg qps).
Proof.
  unfold Pipeline.process_images. apply ns_bind.
  - apply ns_keeps. unfold Pipeline.resolve_api_key. frame.
  - intros _. apply ns_variants_loop.
Qed.

End pipeline_never_shrinks.

Section video_never_shrinks.
Import Safety.
Variable float_of_str : string → option Q.
Variable int_of_str : string → option Z.
Variable reference_types : list string.
Variable yaml_safe_load : string → Exn + Yaml.t.
Variable veo_submit : nat → SubmitArgs → Exn + Veo.Operation.
Variable veo_poll : nat → Veo.Operation → Exn + Veo.Operation.
Variable http_get : nat → string → Exn + string.
Variable os_order : list Path → list Path.

(** The part of a job that stores the video, at a path where nothing is. *)
Lemma store_fresh_never_shrinks (fetch : M string) out w r w' :
  keeps_fs fetch →
  FS.node_at (fs w) out = None →
  (_ ← mkdir_parents (PyPath.parent out);
   content ← fetch;
   _ ← write_bytes out content;
   mret out) w = (r, w') →
  fs w ⊆ fs w'.
Proof.
  intros Hfetch Hn H.
  apply bind_inv in H as [([] & w1 & H1 & H)|[(e & H1 & _)|[H1 _]]];
    [|by eapply ns_mkdir_parents..].
  unfold mkdir_parents in H1.
  apply update_fs_inv in H1 as [(fs1 & Hmk & _ & ->)|(e & _ & [=] & _)].
  pose proof (mkdir_parents_subseteq _ _ _ Hmk) as Hsub.
  assert (Hfresh : ∀ data wa ra wb,
            fs wa = fs1 → write_bytes out data wa = (ra, wb) → fs wa ⊆ fs wb).
  { intros data wa ra wb Hwa Hw. unfold write_bytes in Hw.
    apply update_fs_inv in Hw as [(fs2 & Hw & _ & ->)|(e & _ & _ & ->)];
      [|done].
    rewrite Hwa in *. cbn [fs].
    destruct (mkdirs_adds_dirs _ _ _ _ _ Hmk Hn) as [Hn1|Hd].
    - by eapply write_bytes_fresh_subseteq.
    - unfold FS.write_bytes in Hw. rewrite Hd in Hw.
      by destruct (FS.node_at fs1 (PyPath.parent out)) as [[|]|]. }
  etrans; [exact Hsub|].
  apply bind_inv in H as [(content & w2 & H2 & H)|[(e & H2 & _)|[H2 _]]];
    [|by rewrite (Hfetch _ _ _ H2)..].
  pose proof (Hfetch _ _ _ H2) as Hfs2. cbn [fs] in Hfs2.
  apply bind_inv in H as [([] & w3 & H3 & H)|[(e & H3 & _)|[H3 _]]].
  - cbv [mret eff_ret ret] in H. injection H as _ <-.
    rewrite <- Hfs2. by eapply Hfresh.
  - rewrite <- Hfs2. by eapply Hfresh.
  - rewrite <- Hfs2. by eapply Hfresh.
Qed.

Lemma run_generation_never_shrinks environ fuel job w r w' :
  FS.exists_ (fs w) (Veo.output_path job) = false →
  Veo.run_generation environ veo_submit veo_poll http_get fuel job w = (r, w') →
  fs w ⊆ fs w'.
Proof.
  intros Hex%exists_false_none. unfold Veo.run_generation. intros H.
  apply bind_inv in H as [(key & w1 & H1 & H)|[(e & H1 & _)|[H1 _]]];
    [|by rewrite (keeps_resolve_api_key _ _ _ _ _ H1)..].
  apply keeps_resolve_api_key in H1.
  apply bind_inv in H as [(fb & w2 & H2 & H)|[(e & H2 & _)|[H2 _]]];
    [|by rewrite (keeps_read_frame _ _ _ _ H2), H1..].
  apply keeps_read_frame in H2.
  apply bind_inv in H as [(lb & w3 & H3 & H)|[(e & H3 & _)|[H3 _]]];
    [|by rewrite (keeps_read_frame _ _ _ _ H3), H2, H1..].
  apply keeps_read_frame in H3.
  apply bind_inv in H as [(op0 & w4 & H4 & H)|[(e & H4 & _)|[H4 _]]];
    [|by rewrite (keeps_generate_videos _ _ _ _ _ H4), H3, H2, H1..].
  apply keeps_generate_videos in H4.
  apply bind_inv in H as [(op & w5 & H5 & H)|[(e & H5 & _)|[H5 _]]];
    [|by rewrite (keeps_poll_loop _ _ _ _ _ _ _ H5), H4, H3, H2, H1..].
  apply keeps_poll_loop in H5.
  assert (Hfs : fs w5 = fs w) by congruence.
  clear H1 H2 H3 H4 H5. rewrite <- Hfs. rewrite <- Hfs in Hex.
  destruct (Veo.error op); [by injection H as _ <-|].
  destruct (Veo.result op) as [[|generated vs]|];
    [by injection H as _ <-| |by injection H as _ <-].
  destruct (Veo.nonempty (Veo.video_bytes generated)) as [data|].
  - unfold Veo.save in H.
    eapply (store_fresh_never_shrinks (mret data)); [apply keeps_ret|done|].
    rewrite <- H. unfold mbind, eff_bind, bind, mret, eff_ret, ret.
    by destruct (mkdir_parents _ w5) as [[[]| |] ?].
  - destruct (Veo.nonempty (Veo.uri generated)) as [u|];
      [|by injection H as _ <-].
    eapply (store_fresh_never_shrinks (Veo.requests_get http_get u));
      [apply keeps_requests_get|done|exact H].
Qed.

Lemma ns_construct_job_config cfg key_path scene variant first last text :
  never_shrinks
    (VeoBatch.construct_job_config float_of_str int_of_str reference_types cfg
       key_path scene variant first last text).
Proof.
  unfold VeoBatch.construct_job_config. cbv zeta.
  repeat (apply ns_bind; [apply ns_keeps, keeps_lift|intros ?]).
  apply ns_bind; [apply ns_mkdir_parents|]. intros _. apply ns_ret.
Qed.

Lemma ns_process_variant fuel environ cfg scene variant :
  never_shrinks
    (VeoBatch.process_variant float_of_str int_of_str reference_types
       yaml_safe_load veo_submit veo_poll http_get os_order fuel environ cfg
       scene variant).
Proof.
  unfold VeoBatch.process_variant, VeoBatch.process_variant_with. cbv zeta.
  apply ns_bind; [apply ns_keeps, keeps_exists|]. intros ex.
  destruct (negb ex); [apply (ns_ret tt)|].
  apply ns_bind.
  { apply ns_keeps. unfold VeoBatch.list_variant_frames, VeoBatch.iterdir.
    frame. }
  intros [|f rest]; [apply (ns_ret tt)|].
  apply ns_bind; [apply ns_keeps, keeps_lift|]. intros [first last].
  apply ns_bind.
  { apply ns_keeps. unfold VeoBatch.load_prompt_text. frame. }
  intros text. apply ns_bind; [apply ns_construct_job_config|]. intros job.
  apply ns_guarded; [apply (ns_ret tt)|].
  intros w r w' Hex H.
  apply bind_inv in H as [(p & w1 & H1 & H)|[(e & H1 & _)|[H1 _]]].
  - cbv [mret eff_ret ret] in H. injection H as _ <-.
    by eapply run_generation_never_shrinks.
  - by eapply run_generation_never_shrinks.
  - by eapply run_generation_never_shrinks.
Qed.

Lemma ns_main environ_api_key fuel cfg :
  never_shrinks
    (VeoBatch.main float_of_str int_of_str reference_types environ_api_key
       yaml_safe_load veo_submit veo_poll http_get os_order fuel cfg).
Proof.
  unfold VeoBatch.main. apply ns_bind.
  { apply ns_keeps, keeps_resolve_api_key. }
  intros key. cbv zeta. apply ns_bind.
  { apply ns_keeps. unfold VeoBatch.group_folders, VeoBatch.iterdir. frame. }
  intros scenes. apply ns_for. intros scene.
  unfold VeoBatch.process_scene_folder. apply ns_for. intros variant.
  apply ns_process_variant.
Qed.

End video_never_shrinks.

(** X18.  Neither the image pipeline nor the video batch overwrites or
    removes anything: whatever the outcome of a run, failed or cut off
    included, every entry of the file system that was there before the run
    is there after it, unchanged. *)
Theorem runs_never_overwrite :
  (∀ environ_api_key yaml_safe_load gemini os_order cfg qps (w : World) r w'
     p node,
      Pipeline.process_images environ_api_key yaml_safe_load gemini os_order
        cfg qps w = (r, w') →
      fs w !! p = Some node → fs w' !! p = Some node)
  ∧ (∀ float_of_str int_of_str reference_types environ_api_key yaml_safe_load
       veo_submit veo_poll http_get os_order fuel cfg (w : World) r w' p node,
        VeoBatch.main float_of_str int_of_str reference_types environ_api_key
          yaml_safe_load veo_submit veo_poll http_get os_order fuel cfg w
        = (r, w') →
        fs w !! p = Some node → fs w' !! p = Some node).
Proof.
  split.
  - intros * Hrun Hp. eapply lookup_weaken; [exact Hp|].
    by eapply ns_process_images.
  - intros * Hrun Hp. eapply lookup_weaken; [exact Hp|].
    by eapply ns_main.
Qed.

(** X18, witness: the image of the sample tree after a run whose provider
    is down. *)
Lemma runs_never_overwrite_witness :
  fs (Pipeline.process_images (Some "key"%string) Sample.yaml_loader
        Sample.gemini_down id (Sample.pipeline_cfg [Sample.rain]) (1 # 2)
        Sample.one_image).2
  !! ["in"; "g"; "a.png"]
  = Some (FS.File "A").
Proof.
  eapply (proj1 runs_never_overwrite (Some "key"%string) Sample.yaml_loader
            Sample.gemini_down id (Sample.pipeline_cfg [Sample.rain]) (1 # 2)
            Sample.one_image).
  - apply surjective_pairing.
  - vm_compute. reflexivity.
Defined.

(** ** The credential inside a batch *)

Lemma veo_key_not_empty environ_api_key key_path w k w' :
  Veo.resolve_api_key environ_api_key key_path w = (Ok k, w') →
  k ≠ EmptyString.
Proof.
  unfold Veo.resolve_api_key. cbv zeta.
  intros (key & w1 & _ & H)%bind_inv_ok.
  destruct (String.eqb key EmptyString) eqn:Hk; [done|].
  cbv [mret eff_ret ret] in H. injection H as <- _.
  by apply String.eqb_neq.
Qed.

Lemma veo_key_from_environ key_path k w :
  k ≠ EmptyString → Veo.resolve_api_key (Some k) key_path w = (Ok k, w).
Proof.
  intros Hk. unfold Veo.resolve_api_key. cbn [from_option id].
  apply String.eqb_neq in Hk. rewrite Hk. mred. cbv beta. by rewrite ?Hk.
Qed.

(** X19.  [main] exports the key it resolved unless the variable is set
    already, so every job of the batch resolves that same key, whatever
    the run has added to the file system in between; when the variable was
    unset the key file is not consulted again. *)
Theorem batch_jobs_share_key :
  ∀ (environ_api_key : option string) (key_path : option Path)
    (w0 w : World) (k : string),
    Veo.resolve_api_key environ_api_key key_path w0 = (Ok k, w0) →
    fs w0 ⊆ fs w →
    let environ :=
      match environ_api_key with
      | Some e => Some e
      | None => Some k
      end in
    Veo.resolve_api_key environ key_path w = (Ok k, w)
    ∧ (environ_api_key = None →
       ∀ other_path w2, Veo.resolve_api_key environ other_path w2 = (Ok k, w2)).
Proof.
  intros * Hkey Hsub environ.
  pose proof (veo_key_not_empty _ _ _ _ _ Hkey) as Hne.
  split.
  - destruct environ_api_key as [e|]; unfold environ.
    + by apply (proj2 (veo_resolve_api_key_again _ _ _ _ _ Hkey)).
    + by apply veo_key_from_environ.
  - intros -> other_path w2. unfold environ.
    by apply veo_key_from_environ.
Qed.

(** X19, witness: a key read from the key file and exported. *)
Lemma batch_jobs_share_key_witness :
  Veo.resolve_api_key (Some "k-1"%string) (Some ["key.txt"])
    {| fs := {[ ["key.txt"] := FS.File " k-1 "; ["o"] := FS.Dir ]};
       trace := [EvPoll] |}
  = (Ok "k-1"%string,
     {| fs := {[ ["key.txt"] := FS.File " k-1 "; ["o"] := FS.Dir ]};
        trace := [EvPoll] |}).
Proof.
  refine (proj1 (batch_jobs_share_key None (Some ["key.txt"])
                   {| fs := {[ ["key.txt"] := FS.File " k-1 " ]}; trace := [] |}
                   {| fs := {[ ["key.txt"] := FS.File " k-1 "; ["o"] := FS.Dir ]};
                      trace := [EvPoll] |}
                   "k-1" _ _)).
  - vm_compute. reflexivity.
  - apply insert_mono, insert_subseteq. reflexivity.
Defined.

(** ** The configuration of a single job *)

Section job_config.
Variable float_of_str : string → option Q.
Variable int_of_str : string → option Z.
Variable resolve : Path → Path.
Variable reference_types : list string.

Lemma load_api_key_path_none cfg_dir m :
  m !! "api_key_path" = None →
  load_api_key_path resolve cfg_dir (Yaml.Map m) = inr None.
Proof. intros H. unfold load_api_key_path, Yaml.get. by rewrite H. Qed.

Lemma optional_path_none cfg_dir m key :
  m !! key = None →
  VeoJob.optional_path resolve cfg_dir (Yaml.Map m) key = inr None.
Proof. intros H. unfold VeoJob.optional_path, Yaml.get. by rewrite H. Qed.

Lemma load_reference_type_unknown m s :
  m !! "reference_type" = Some (Yaml.Str s) →
  PyStr.upper s ∉ reference_types →
  VeoJob.load_reference_type reference_types (Yaml.Map m)
  = inl (ValueError ("Invalid reference_type: " +:+ PyStr.upper s)).
Proof.
  intros Hs Hmem. unfold VeoJob.load_reference_type, Yaml.get. rewrite Hs.
  change (inr (default (Yaml.Str "ASSET") (Some (Yaml.Str s))) ≫= ?f)
    with (f (Yaml.Str s)).
  cbv beta iota zeta. by rewrite (bool_decide_eq_false_2 _ Hmem).
Qed.

Lemma load_reference_type_default m :
  m !! "reference_type" = None →
  "ASSET"%string ∈ reference_types →
  VeoJob.load_reference_type reference_types (Yaml.Map m) = inr "ASSET"%string.
Proof.
  intros Hs Hmem. unfold VeoJob.load_reference_type, Yaml.get. rewrite Hs.
  change (inr (default (Yaml.Str "ASSET") None) ≫= ?f)
    with (f (Yaml.Str "ASSET")).
  cbv beta iota zeta.
  change (PyStr.upper "ASSET") with "ASSET"%string.
  by rewrite (bool_decide_eq_true_2 _ Hmem).
Qed.

End job_config.

(** X20.  The loader of a single job looks at the reference type before it
    looks at the keys it requires: a name that is no member of the SDK's
    enumeration raises a [ValueError] on the upper-cased name whatever else
    the document holds, where the batch raises a [KeyError]; with a valid
    reference type, a document without a prompt raises [KeyError]. *)
Theorem job_config_reference_type_first :
  ∀ float_of_str int_of_str resolve (reference_types : list string)
    (cfg_dir : Path) (m : gmap string Yaml.t),
    m !! "api_key_path" = None →
    (∀ s, m !! "reference_type" = Some (Yaml.Str s) →
          PyStr.upper s ∉ reference_types →
          VeoJob.load_config float_of_str int_of_str resolve reference_types
            cfg_dir (Yaml.Map m)
          = inl (ValueError ("Invalid reference_type: " +:+ PyStr.upper s)))
    ∧ (∀ out,
          m !! "reference_type" = None →
          "ASSET"%string ∈ reference_types →
          m !! "first_frame" = None →
          m !! "last_frame" = None →
          m !! "output_path" = Some (Yaml.Str out) →
          m !! "prompt" = None →
          VeoJob.load_config float_of_str int_of_str resolve reference_types
            cfg_dir (Yaml.Map m)
          = inl (KeyError "prompt")).
Proof.
  intros * Hk. split.
  - intros s Hs Hmem. unfold VeoJob.load_config.
    rewrite (load_api_key_path_none _ _ _ Hk), exn_bind_inr.
    by rewrite (load_reference_type_unknown _ _ _ Hs Hmem).
  - intros out Hr Hasset Hf Hl Ho Hp. unfold VeoJob.load_config.
    rewrite (load_api_key_path_none _ _ _ Hk), exn_bind_inr.
    rewrite (load_reference_type_default _ _ Hr Hasset), exn_bind_inr.
    rewrite (optional_path_none _ _ _ _ Hf), (optional_path_none _ _ _ _ Hl).
    unfold Yaml.get, Yaml.getitem. rewrite Ho, Hp. reflexivity.
Qed.

(** X20, witness: a document with the reference type [bogus] only. *)
Lemma job_config_reference_type_first_witness :
  VeoJob.load_config (λ _, None) (λ _, None) id Sample.reference_types []
    (Yaml.Map {[ "reference_type" := Yaml.Str "bogus" ]})
  = inl (ValueError "Invalid reference_type: BOGUS").
Proof.
  refine (proj1 (job_config_reference_type_first (λ _, None) (λ _, None) id
                   Sample.reference_types []
                   {[ "reference_type" := Yaml.Str "bogus" ]} _)
            "bogus"%string _ _).
  - vm_compute. reflexivity.
  - vm_compute. reflexivity.
  - vm_compute. intros H.
    repeat (apply elem_of_cons in H as [H|H]; [discriminate|]).
    by apply elem_of_nil in H.
Defined.

(** ** The variants of a configuration *)

Lemma mapM_exn_inv {A B} (f : A → Exn + B) (l : list A) (vs : list B) :
  mapM f l = inr vs → Forall2 (λ x v, f x = inr v) l vs.
Proof.
  revert vs. induction l as [|x l IH]; intros vs; simpl.
  - intros [= <-]. constructor.
  - destruct (f x) as [e|y] eqn:Hx; [done|]. simpl.
    destruct (mapM f l) as [e|k]; [done|]. simpl. intros [= <-].
    constructor; [done|]. by apply IH.
Qed.

Lemma load_variant_name float_of_str resolve cfg_dir item v :
  load_variant float_of_str resolve cfg_dir item = inr v →
  Yaml.getitem item "name" = inr (Yaml.Str (name v))
  ∧ Yaml.getitem item "prompt_file" ≫= resolve_path resolve cfg_dir
    = inr (prompt_path v).
Proof.
  unfold load_variant.
  destruct (Yaml.getitem item "name") as [e|n0]; [done|].
  rewrite exn_bind_inr.
  destruct (Yaml.as_str n0) as [e|n] eqn:Hn; [done|]. rewrite exn_bind_inr.
  destruct (Yaml.getitem item "prompt_file" ≫= resolve_path resolve cfg_dir)
    as [e|p]; [done|]. rewrite exn_bind_inr.
  destruct (Yaml.get item "creativity" (Yaml.Float 0.2)
              ≫= Yaml.to_float float_of_str) as [e|c]; [done|].
  rewrite exn_bind_inr.
  destruct (Yaml.get item "fidelity" (Yaml.Float 0.7)
              ≫= Yaml.to_float float_of_str) as [e|f]; [done|].
  rewrite exn_bind_inr. intros [= <-]. cbn [name prompt_path].
  split; [|done]. destruct n0; try done. by injection Hn as ->.
Qed.

(** X21.  The variants of a configuration are those of the document, one
    for each item and in the order of the document, each with the name and
    the resolved prompt file of its item; a document without the key
    [variants] has none, which is no error. *)
Theorem variants_in_document_order :
  ∀ float_of_str resolve (cfg_dir : Path) (m : gmap string Yaml.t),
    (m !! "variants" = None →
     load_variants float_of_str resolve cfg_dir (Yaml.Map m) = inr [])
    ∧ (∀ items vs,
          m !! "variants" = Some (Yaml.Seq items) →
          load_variants float_of_str resolve cfg_dir (Yaml.Map m) = inr vs →
          Forall2
            (λ item v,
               Yaml.getitem item "name" = inr (Yaml.Str (name v))
               ∧ Yaml.getitem item "prompt_file" ≫= resolve_path resolve cfg_dir
                 = inr (prompt_path v))
            items vs).
Proof.
  intros *. split.
  - intros H. unfold load_variants, Yaml.get. by rewrite H.
  - intros items vs H. unfold load_variants, Yaml.get. rewrite H.
    change (inr (default (Yaml.Seq []) (Some (Yaml.Seq items))) ≫= Yaml.iter)
      with (inr items : Exn + list Yaml.t).
    rewrite exn_bind_inr. intros Hm%mapM_exn_inv.
    eapply Forall2_impl; [exact Hm|].
    intros item v. apply load_variant_name.
Qed.

(** ** Outputs as inputs *)

Lemma rsplit_dot_png (s : string) :
  PyStr.rsplit_dot (s +:+ ".png") = Some (s, ".png"%string).
Proof.
  induction s as [|c s IH]; [reflexivity|].
  rewrite string_app_cons. cbn [PyStr.rsplit_dot]. by rewrite IH.
Qed.

Lemma string_app_assoc (a b c : string) : (a +:+ b) +:+ c = a +:+ (b +:+ c).
Proof.
  induction a as [|x a IH]; [reflexivity|]. by rewrite !string_app_cons, IH.
Qed.

Lemma app_not_empty (a b : string) : a +:+ "_" +:+ b ≠ EmptyString.
Proof. by destruct a. Qed.

(** X22.  The output of an image is itself an image for the listing of the
    pipeline: whatever the name of the variant (a single path component),
    the suffix of the output path is [.png], the image test of the listing
    accepts it, and its stem is the stem of the input followed by [_] and
    the name of the variant. *)
Theorem outputs_are_images :
  ∀ (oroot dir : Path) (vname file : string),
    PyPath.is_component vname = true →
    PyPath.is_component file = true →
    PyPath.is_absolute dir = false →
    let out := Pipeline.out_path_of oroot vname (dir ++ [file]) in
    PyPath.suffix out = ".png"%string
    ∧ PyPath.is_image out = true
    ∧ PyPath.stem out = PyPath.stem [file] +:+ "_" +:+ vname.
Proof.
  intros * Hv Hf Hd out. unfold out.
  rewrite (pipeline_out_path_shape _ _ _ _ Hv Hf Hd).
  assert (Hslash : PyPath.has_slash
                     (PyPath.stem [file] +:+ "_" +:+ vname +:+ ".png") = false).
  { unfold PyPath.is_component in Hv, Hf.
    apply andb_true_iff in Hv as [[Hv _]%andb_true_iff _].
    apply andb_true_iff in Hf as [[Hf _]%andb_true_iff _].
    apply negb_true_iff in Hv, Hf.
    rewrite !has_slash_app, Hv, (stem_no_slash _ Hf). reflexivity. }
  assert (Hname : PyPath.name ((oroot ++ [vname] ++ dir)
                    ++ [PyPath.stem [file] +:+ "_" +:+ vname +:+ ".png"])
                  = PyPath.stem [file] +:+ "_" +:+ vname +:+ ".png")
    by (by apply name_snoc).
  rewrite <- !app_assoc in Hname.
  assert (Hsplit : PyStr.rsplit_dot
                     (PyPath.stem [file] +:+ "_" +:+ vname +:+ ".png")
                   = Some (PyPath.stem [file] +:+ "_" +:+ vname, ".png"%string)).
  { rewrite <- (rsplit_dot_png (PyPath.stem [file] +:+ "_" +:+ vname)).
    f_equal. by rewrite !string_app_assoc. }
  assert (Hsuffix : PyPath.suffix
                      (oroot ++ [vname] ++ dir
                       ++ [PyPath.stem [file] +:+ "_" +:+ vname +:+ ".png"])
                    = ".png"%string).
  { unfold PyPath.suffix. rewrite Hname, Hsplit.
    rewrite bool_decide_eq_true_2 by apply app_not_empty. reflexivity. }
  split; [done|]. split.
  - unfold PyPath.is_image. rewrite Hsuffix. reflexivity.
  - unfold PyPath.stem at 1. rewrite Hname, Hsplit.
    rewrite bool_decide_eq_true_2 by apply app_not_empty. reflexivity.
Qed.

(** X22, witness: the output of [g/a.jpg] under the variant [rain]. *)
Lemma outputs_are_images_witness :
  PyPath.is_image (Pipeline.out_path_of ["out"] "rain" (["g"] ++ ["a.jpg"]))
  = true.
Proof.
  apply (proj1 (proj2 (outputs_are_images ["out"] ["g"] "rain" "a.jpg"
                         eq_refl eq_refl eq_refl))).
Defined.

(** ** Roots of a configuration *)

Lemma exn_bind_inv {A B} (m : Exn + A) (f : A → Exn + B) (b : B) :
  m ≫= f = inr b → ∃ a, m = inr a ∧ f a = inr b.
Proof. destruct m as [e|a]; [done|]. intros H. by exists a. Qed.

(** X23.  The two loaders differ on a missing root.  The video batch falls
    back to [outputimg] and [outputmp4] beside the configuration file, also
    for an empty or null value.  The image pipeline requires both roots: a
    configuration that loads has them in its document, and once the
    variants are read a document without [input_root] raises [KeyError]. *)
Theorem roots_default_or_required :
  ∀ float_of_str int_of_str resolve (cfg_dir : Path) (m : gmap string Yaml.t),
    (∀ cfg,
        load_batch_config resolve cfg_dir (Yaml.Map m) = inr cfg →
        (Yaml.truthy (default Yaml.Null (m !! "input_root")) = false →
         b_input_root cfg
         = resolve (PyPath.joinpath cfg_dir (PyPath.of_string "outputimg")))
        ∧ (Yaml.truthy (default Yaml.Null (m !! "output_root")) = false →
           b_output_root cfg
           = resolve (PyPath.joinpath cfg_dir (PyPath.of_string "outputmp4"))))
    ∧ (∀ cfg,
          pipeline_load_config float_of_str int_of_str resolve cfg_dir
            (Yaml.Map m) = inr cfg →
          is_Some (m !! "input_root") ∧ is_Some (m !! "output_root"))
    ∧ (∀ vs,
          load_variants float_of_str resolve cfg_dir (Yaml.Map m) = inr vs →
          m !! "input_root" = None →
          pipeline_load_config float_of_str int_of_str resolve cfg_dir
            (Yaml.Map m) = inl (KeyError "input_root")).
Proof.
  intros *. split.
  - intros cfg H. unfold load_batch_config in H.
    apply exn_bind_inv in H as (items & _ & H).
    apply exn_bind_inv in H as (vs & _ & H).
    apply exn_bind_inv in H as (mn & _ & H).
    apply exn_bind_inv in H as (k & _ & H).
    apply exn_bind_inv in H as (i0 & [= <-] & H).
    apply exn_bind_inv in H as (i & Hi & H).
    apply exn_bind_inv in H as (o0 & [= <-] & H).
    apply exn_bind_inv in H as (o & Ho & H).
    apply exn_bind_inv in H as (d & _ & H).
    injection H as <-. cbn [b_input_root b_output_root]. split.
    + intros Hf. unfold Yaml.or_ in Hi. rewrite Hf in Hi.
      by injection Hi as <-.
    + intros Hf. unfold Yaml.or_ in Ho. rewrite Hf in Ho.
      by injection Ho as <-.
  - split.
    + intros cfg H. unfold pipeline_load_config in H.
      apply exn_bind_inv in H as (vs & _ & H).
      apply exn_bind_inv in H as (i & Hi & H).
      apply exn_bind_inv in H as (o & Ho & _).
      apply exn_bind_inv in Hi as (vi & Hi & _).
      apply exn_bind_inv in Ho as (vo & Ho & _).
      unfold Yaml.getitem in Hi, Ho.
      destruct (m !! "input_root"); [|done].
      destruct (m !! "output_root"); [|done]. by split.
    + intros vs Hvs Hi. unfold pipeline_load_config.
      rewrite Hvs, exn_bind_inr. unfold Yaml.getitem. by rewrite Hi.
Qed.

(** ** What the pipeline sends *)

Section sends_rules.
Import Safety.
Variable cfg : PipelineConfig.

Lemma sendable_mono F F' e : F ⊆ F' → sendable cfg F e → sendable cfg F' e.
Proof.
  intros Hsub. destruct e; try done. simpl.
  intros (v & p & prompt & bytes & Hv & Hb & Hi & Hp & ->).
  exists v, p, prompt, bytes. repeat split; try done.
  by eapply lookup_weaken.
Qed.

Lemma sends_quiet {A} (m : M A) :
  emits (λ e, negb (is_generate e)) m → sends cfg m.
Proof.
  intros Hm w r w' H. destruct (Hm _ _ _ H) as (evs & He & Hall).
  exists evs. split; [done|]. eapply Forall_impl; [exact Hall|].
  by intros [].
Qed.

Lemma sends_ret {A} (a : A) : sends cfg (mret a).
Proof. apply sends_quiet, emits_ret. Qed.

Lemma sends_bind {A B} (m : M A) (k : A → M B) :
  sends cfg m →
  (∀ w a w1, m w = (Ok a, w1) → sends cfg (k a) ∧ never_shrinks (k a)) →
  sends cfg (m ≫= k).
Proof.
  intros Hm Hk w r w' H.
  apply bind_inv in H as [(a & w1 & H1 & H2)|[(e & H1 & _)|[H1 _]]];
    [|by eapply Hm..].
  destruct (Hm _ _ _ H1) as (evs1 & He1 & Hall1).
  destruct (Hk _ _ _ H1) as [Hs Hns].
  destruct (Hs _ _ _ H2) as (evs2 & He2 & Hall2).
  exists (evs1 ++ evs2). split; [by rewrite He2, He1, app_assoc|].
  apply Forall_app. split; [|done].
  eapply Forall_impl; [exact Hall1|]. intros e.
  apply sendable_mono. by eapply Hns.
Qed.

Lemma sends_for {A} (l : list A) (body : A → M unit) :
  (∀ x, never_shrinks (body x)) →
  (∀ x, x ∈ l → sends cfg (body x)) →
  sends cfg (for_ l body).
Proof.
  intros Hns. induction l as [|x l IH]; intros Hb; simpl;
    [apply (sends_ret tt)|].
  apply sends_bind; [apply Hb, list_elem_of_here|]. intros ? [] ? _. split.
  - apply IH. intros y Hy. by apply Hb, list_elem_of_further.
  - by apply ns_for.
Qed.

End sends_rules.

Section pipeline_sends.
Import Safety Pipeline.
Variable environ_api_key : option string.
Variable yaml_safe_load : string → Exn + Yaml.t.
Variable gemini : nat → GenArgs → Exn + string.
Variable os_order : list Path → list Path.
Variable cfg : PipelineConfig.
Hypothesis os_order_perm : ∀ l, os_order l ≡ₚ l.

(** The retry loop sends one request only, again and again. *)
Lemma attempt_loop_requests variant prompt bytes out attempts delay w r w' :
  attempt_loop attempts delay
    (generate_and_write gemini cfg variant prompt bytes out) w = (r, w') →
  ∃ evs, trace w' = trace w ++ evs
         ∧ Forall (λ e, ∀ a, e = EvGenerate a →
                             a = request_of cfg variant prompt bytes) evs.
Proof.
  revert w. induction attempts as [|n rest IH]; intros w; simpl.
  - intros [= <- <-]. exists []. by rewrite app_nil_r.
  - unfold mbind at 1. unfold eff_bind, bind, try_.
    destruct (generate_and_write_cases gemini cfg variant prompt bytes out w)
      as [[e ->]|(data & fs' & _ & ->)].
    + destruct (n =? MAX_RETRIES).
      * intros [= <- <-]. eexists. split; [done|].
        constructor; [|done]. by intros a [= <-].
      * match goal with
        | |- context [sleep ?s] => destruct (Qlt_le_dec s 0) as [Hs|Hs]
        end.
        { rewrite (bind_sleep_negative _ _ _ Hs). intros [= <- <-].
          eexists. split; [done|].
          constructor; [|done]. by intros a [= <-]. }
        rewrite (bind_sleep _ _ _ Hs).
        intros (evs & He & Hall)%IH. cbn [trace] in He.
        eexists. split; [by rewrite He, <- !app_assoc|].
        simpl. constructor; [by intros a [= <-]|].
        constructor; [done|done].
    + intros [= <- <-]. eexists. split; [done|].
      constructor; [|done]. by intros a [= <-].
Qed.

Lemma ns_image_tail variant prompt delay img out :
  never_shrinks
    (ex ← exists_ out;
     if ex : bool then mret tt
     else
       image_bytes ← read_bytes img;
       _ ← attempt_loop (seq 1 MAX_RETRIES) delay
             (generate_and_write gemini cfg variant prompt image_bytes out);
       sleep delay).
Proof.
  apply ns_guarded; [apply (ns_ret tt)|].
  intros w r w' Hex%exists_false_none H.
  apply bind_inv in H as [(bytes & w1 & H1 & H)|[(e & H1 & _)|[H1 _]]];
    [|by rewrite (keeps_read_bytes _ _ _ _ H1)..].
  pose proof (keeps_read_bytes _ _ _ _ H1) as Hfs1.
  assert (Hloop : ∀ r2 w2,
            attempt_loop (seq 1 MAX_RETRIES) delay
              (generate_and_write gemini cfg variant prompt bytes out) w1
            = (r2, w2) → fs w ⊆ fs w2).
  { intros r2 w2 H2. rewrite <- Hfs1.
    apply attempt_loop_result in H2 as [[_ [data Hw]]|[-> _]]; [|done].
    eapply write_bytes_fresh_subseteq; [|exact Hw]. by rewrite Hfs1. }
  apply bind_inv in H as [([] & w2 & H2 & H)|[(e & H2 & _)|[H2 _]]];
    [|by eapply Hloop..].
  pose proof (keeps_sleep _ _ _ _ H : fs w' = fs w2) as ->.
  by eapply Hloop.
Qed.

Lemma sends_image_tail variant prompt delay img out :
  variant ∈ variants cfg →
  FS.is_below (input_root cfg) img = true →
  PyPath.is_image img = true →
  sends cfg
    (ex ← exists_ out;
     if ex : bool then mret tt
     else
       image_bytes ← read_bytes img;
       _ ← attempt_loop (seq 1 MAX_RETRIES) delay
             (generate_and_write gemini cfg variant prompt image_bytes out);
       sleep delay).
Proof.
  intros Hv Hb Hi w r w' H.
  pose proof (ns_image_tail _ _ _ _ _ _ _ _ H) as Hsub.
  rewrite bind_exists in H. destruct (FS.exists_ (fs w) out).
  { injection H as _ <-. exists []. by rewrite app_nil_r. }
  assert (Hsend : ∀ bytes evs,
            FS.read_bytes (fs w) img = inr bytes →
            Forall (λ e, ∀ a, e = EvGenerate a →
                              a = request_of cfg variant prompt bytes) evs →
            Forall (sendable cfg (fs w')) evs).
  { intros bytes evs Hr Hall. eapply Forall_impl; [exact Hall|].
    intros [] He; try done.
    simpl. exists variant, img, prompt, bytes. repeat split; try done.
    - eapply lookup_weaken; [|exact Hsub].
      unfold FS.read_bytes in Hr.
      destruct (FS.node_at (fs w) img) as [[c|]|] eqn:Hn; try done.
      injection Hr as ->. unfold FS.node_at in Hn.
      destruct img as [|x [|y rest]]; try done.
      by destruct (String.eqb x "/").
    - by apply He. }
  apply bind_inv in H as [(bytes & w1 & H1 & H)|[(e & H1 & _)|[H1 _]]].
  - apply read_bytes_inv_ok in H1 as [Hr ->].
    apply bind_inv in H as [([] & w2 & H2 & H)|[(e & H2 & _)|[H2 _]]].
    + apply attempt_loop_requests in H2 as (evs & He & Hall).
      destruct (sleep_cases delay w2) as [[_ Hs]|[_ Hs]]; rewrite Hs in H;
        injection H as _ <-; cbn [trace fs] in *.
      * exists (evs ++ [EvSleep delay]).
        split; [by rewrite He, app_assoc|].
        apply Forall_app. split; [by eapply Hsend|]. by constructor.
      * exists evs. split; [done|]. by eapply Hsend.
    + apply attempt_loop_requests in H2 as (evs & He & Hall).
      exists evs. split; [done|]. by eapply Hsend.
    + apply attempt_loop_requests in H2 as (evs & He & Hall).
      exists evs. split; [done|]. by eapply Hsend.
  - eapply (sends_quiet cfg (read_bytes img)); [|exact H1].
    apply emits_read_bytes.
  - eapply (sends_quiet cfg (read_bytes img)); [|exact H1].
    apply emits_read_bytes.
Qed.

Lemma sends_process_image variant prompt delay img :
  variant ∈ variants cfg →
  FS.is_below (input_root cfg) img = true →
  PyPath.is_image img = true →
  sends cfg (process_image gemini cfg variant prompt delay img).
Proof.
  intros Hv Hb Hi. unfold process_image.
  apply sends_bind; [apply sends_quiet, emits_lift|]. intros _ rel _ _.
  split.
  - apply sends_bind; [apply sends_quiet, emits_update_fs|].
    intros _ [] _ _. split.
    + by apply sends_image_tail.
    + apply ns_image_tail.
  - apply ns_bind; [apply ns_mkdir_parents|]. intros _. apply ns_image_tail.
Qed.

Lemma ns_image_step variant prompt delay path :
  never_shrinks (image_step gemini cfg variant prompt delay path).
Proof.
  unfold image_step. apply ns_bind; [apply ns_keeps, keeps_get_fs|].
  intros fs0. destruct (_ && _); [apply ns_process_image|apply (ns_ret tt)].
Qed.

Lemma sends_image_step variant prompt delay path :
  variant ∈ variants cfg →
  FS.is_below (input_root cfg) path = true →
  sends cfg (image_step gemini cfg variant prompt delay path).
Proof.
  intros Hv Hb. unfold image_step.
  apply sends_bind; [apply sends_quiet, emits_get_fs|]. intros _ fs0 _ _.
  destruct (PyPath.is_image path) eqn:Hi.
  - destruct (FS.is_file fs0 path); simpl.
    + split; [by apply sends_process_image|apply ns_process_image].
    + split; [apply (sends_ret cfg tt)|apply (ns_ret tt)].
  - rewrite andb_false_r.
    split; [apply (sends_ret cfg tt)|apply (ns_ret tt)].
Qed.

Lemma ns_images_loop variant prompt delay :
  never_shrinks (images_loop gemini os_order cfg variant prompt delay).
Proof.
  unfold images_loop. apply ns_bind.
  - apply ns_keeps. unfold rglob_sorted. frame.
  - intros listing. apply ns_for. intros path. apply ns_image_step.
Qed.

Lemma sends_images_loop variant prompt delay :
  variant ∈ variants cfg →
  sends cfg (images_loop gemini os_order cfg variant prompt delay).
Proof.
  intros Hv. unfold images_loop.
  apply sends_bind; [apply sends_quiet, emits_rglob_sorted|].
  intros w listing w1 Hl. split.
  - apply sends_for; [intros x; apply ns_image_step|].
    intros x Hx. apply sends_image_step; [done|].
    unfold rglob_sorted in Hl. rewrite bind_get_fs in Hl.
    injection Hl as <- _.
    rewrite merge_sort_Permutation, os_order_perm in Hx.
    by apply elem_of_descendants in Hx as [Hx _].
  - apply ns_for. intros x. apply ns_image_step.
Qed.

Lemma sends_variants_loop delay cache vs :
  (∀ v, v ∈ vs → v ∈ variants cfg) →
  sends cfg (variants_loop yaml_safe_load gemini os_order cfg delay cache vs).
Proof.
  revert cache. induction vs as [|v rest IH]; intros cache Hvs; simpl.
  - apply (sends_ret cfg tt).
  - apply sends_bind.
    { apply sends_quiet. unfold get_template, load_prompt_template. frame. }
    intros _ [t cache'] _ _. split.
    + apply sends_bind.
      { apply sends_images_loop, Hvs, list_elem_of_here. }
      intros _ [] _ _. split; [|apply ns_variants_loop].
      apply IH. intros v' Hv'. by apply Hvs, list_elem_of_further.
    + apply ns_bind; [apply ns_images_loop|]. intros _.
      apply ns_variants_loop.
Qed.

Lemma sends_process_images qps :
  sends cfg
    (process_images environ_api_key yaml_safe_load gemini os_order cfg qps).
Proof.
  unfold process_images. apply sends_bind.
  - apply sends_quiet, emits_pipeline_api_key.
  - intros _ _ _ _. split; [by apply sends_variants_loop|].
    apply ns_variants_loop.
Qed.

End pipeline_sends.

(** X24.  The pipeline sends the provider nothing but input images: every
    request a run makes, whatever the outcome of the run, is built for a
    variant of the configuration, with its model and output size, from the
    bytes of a file with an image suffix below the input root, and that
    file is still there with these bytes when the run ends. *)
Theorem requests_carry_input_images :
  ∀ environ_api_key yaml_safe_load gemini (os_order : list Path → list Path)
    cfg qps (w : World) r w',
    (∀ l, os_order l ≡ₚ l) →
    Pipeline.process_images environ_api_key yaml_safe_load gemini os_order
      cfg qps w = (r, w') →
    ∃ evs, trace w' = trace w ++ evs
           ∧ ∀ a, EvGenerate a ∈ evs →
                  ∃ variant path prompt image_bytes,
                    variant ∈ variants cfg
                    ∧ FS.is_below (input_root cfg) path = true
                    ∧ PyPath.is_image path = true
                    ∧ fs w' !! path = Some (FS.File image_bytes)
                    ∧ a = Pipeline.request_of cfg variant prompt image_bytes.
Proof.
  intros * Hperm Hrun.
  destruct (sends_process_images environ_api_key yaml_safe_load gemini os_order
              cfg Hperm qps _ _ _ Hrun) as (evs & He & Hall).
  exists evs. split; [done|]. intros a Ha.
  rewrite Forall_forall in Hall. exact (Hall _ Ha).
Qed.

(** X24, witness: a run over the sample tree whose provider is down. *)
Lemma requests_carry_input_images_witness :
  ∃ evs,
    trace (Pipeline.process_images (Some "key"%string) Sample.yaml_loader
             Sample.gemini_down id (Sample.pipeline_cfg [Sample.rain])
             (1 # 2) Sample.one_image).2
    = trace Sample.one_image ++ evs
    ∧ ∀ a, EvGenerate a ∈ evs →
           ∃ variant path prompt image_bytes,
             variant ∈ variants (Sample.pipeline_cfg [Sample.rain])
             ∧ FS.is_below (input_root (Sample.pipeline_cfg [Sample.rain]))
                 path = true
             ∧ PyPath.is_image path = true
             ∧ fs (Pipeline.process_images (Some "key"%string)
                     Sample.yaml_loader Sample.gemini_down id
                     (Sample.pipeline_cfg [Sample.rain]) (1 # 2)
                     Sample.one_image).2
               !! path = Some (FS.File image_bytes)
             ∧ a = Pipeline.request_of (Sample.pipeline_cfg [Sample.rain])
                     variant prompt image_bytes.
Proof.
  eapply (requests_carry_input_images (Some "key"%string) Sample.yaml_loader
            Sample.gemini_down id (Sample.pipeline_cfg [Sample.rain]) (1 # 2)
            Sample.one_image).
  - by intros l.
  - apply surjective_pairing.
Defined.

(** ** Frames that cannot be read *)

Lemma read_image_bytes_missing p w :
  FS.exists_ (fs w) p = false →
  Veo.read_frame (Some p) w = (Raise (FileNotFoundError p), w).
Proof.
  intros Hex. unfold Veo.read_frame, Veo.read_image_bytes.
  unfold fmap, eff_fmap. mred. by rewrite Hex.
Qed.

Lemma read_image_bytes_dir p w :
  FS.node_at (fs w) p = Some FS.Dir →
  Veo.read_frame (Some p) w = (Raise (IsADirectoryError p), w).
Proof.
  intros Hn. unfold Veo.read_frame, Veo.read_image_bytes.
  unfold fmap, eff_fmap. mred. unfold FS.exists_. rewrite Hn.
  unfold read_bytes. mred. unfold FS.read_bytes. rewrite Hn. by mred.
Qed.

(** X25.  A job reads its frames before it submits anything: a first or
    last frame that does not exist raises [FileNotFoundError], a directory
    in its place [IsADirectoryError], and the world is as it was, with
    nothing submitted.  The last frame is read, and can stop the job in
    this way, whether or not the job is going to send it. *)
Theorem unreadable_frame_stops_job :
  ∀ environ_api_key veo_submit veo_poll http_get fuel cfg (w : World) k,
    Veo.resolve_api_key environ_api_key (Veo.api_key_path cfg) w = (Ok k, w) →
    let run :=
      Veo.run_generation environ_api_key veo_submit veo_poll http_get fuel cfg w
    in
    (∀ p, Veo.first_frame cfg = Some p →
          (FS.exists_ (fs w) p = false →
           run = (Raise (FileNotFoundError p), w))
          ∧ (FS.node_at (fs w) p = Some FS.Dir →
             run = (Raise (IsADirectoryError p), w)))
    ∧ (∀ fb p, Veo.read_frame (Veo.first_frame cfg) w = (Ok fb, w) →
               Veo.last_frame cfg = Some p →
               (FS.exists_ (fs w) p = false →
                run = (Raise (FileNotFoundError p), w))
               ∧ (FS.node_at (fs w) p = Some FS.Dir →
                  run = (Raise (IsADirectoryError p), w))).
Proof.
  intros * Hk run. unfold run, Veo.run_generation. mstep Hk. split.
  - intros p Hp. rewrite Hp. split; intros H.
    + by rewrite (bind_raise _ _ _ _ _ (read_image_bytes_missing p w H)).
    + by rewrite (bind_raise _ _ _ _ _ (read_image_bytes_dir p w H)).
  - intros fb p Hfb Hp. mstep Hfb. rewrite Hp. split; intros H.
    + by rewrite (bind_raise _ _ _ _ _ (read_image_bytes_missing p w H)).
    + by rewrite (bind_raise _ _ _ _ _ (read_image_bytes_dir p w H)).
Qed.

(** X25, witness: a job that names a last frame it does not send, over a
    file system without that frame. *)
Lemma unreadable_frame_stops_job_witness :
  Veo.run_generation (Some "key"%string) Sample.veo_submit
    (Sample.veo_poll_after 0) Sample.http_none 1 Cases.unsent_last_job
    {| fs := ∅; trace := [] |}
  = (Raise (FileNotFoundError ["l.png"]), {| fs := ∅; trace := [] |}).
Proof.
  refine (proj1 (proj2 (unreadable_frame_stops_job (Some "key"%string)
                          Sample.veo_submit (Sample.veo_poll_after 0)
                          Sample.http_none 1 Cases.unsent_last_job
                          {| fs := ∅; trace := [] |} "key" _)
                   None ["l.png"] _ _) _);
    vm_compute; reflexivity.
Defined.
